(** * Verification of the chat session request cycle

    A shallow embedding of the client side of the chat protocol, from
    - the [useChat] hook (in src/packages/google-vertex/tsup.config.ts, the
      document that follows the build configuration): [getStreamedResponse],
      [triggerRequest], [append], [reload], [stop], [setMessages],
      [handleSubmit], [addToolResult],
      [isAssistantMessageWithCompletedToolCalls],
      [countTrailingAssistantMessages], [prepareAttachmentsForRequest];
    - [getTextFromDataUrl] and [callChatApi] (src/unnamed/part_001);
    - [smoothStream] (src/packages/ai/core/generate-text/smooth-stream.ts).

    Asynchronous code is embedded in a state-and-exception monad over the
    session. What the code awaits is an explicit script: how each [fetch]
    settles, what each read of a body delivers, and where the caller invokes
    [stop()]. A request consumes one entry of the script, so every run is a
    total function of the script; a fetch with no entry left never settles.

    Three functions of the repository are used by these sources and are not
    among them. [createChunkDecoder] and [parseComplexResponse] are
    parameters; [processChatStream] is modelled from the specification. The
    hook hands the stream mode to [callChatApi] as [streamProtocol] where the
    [callChatApi] at hand names it [streamMode]; the embedding passes the
    value through. *)

From Stdlib Require Import String Ascii ZArith Bool Arith Lia List.
From Stdlib Require Import Strings.Byte.
From Equations Require Import Equations.
Import ListNotations.

Set Implicit Arguments.
Set Warnings "-register-all,-notation-for-abbreviation".
Open Scope string_scope.
Open Scope list_scope.
Open Scope nat_scope.

(* ===================================================================== *)
(** * Data model *)
(* ===================================================================== *)

(** JSON values, as carried by tool arguments, tool results, annotations and
    the side-data channel. *)
Inductive JSONValue : Type :=
| JNull
| JBool (b : bool)
| JNumber (n : Z)
| JString (s : string)
| JArray (elements : list JSONValue)
| JObject (fields : list (string * JSONValue)).

Inductive Role : Type := system | user | assistant | tool.

Definition Role_eqb (a b : Role) : bool :=
  match a, b with
  | system, system | user, user | assistant, assistant | tool, tool => true
  | _, _ => false
  end.

(** [result] is a property that is present or absent (['result' in
    toolInvocation]); [None] is the absent property. *)
Record ToolInvocation : Type := mkToolInvocation {
  toolCallId : string;
  toolName : string;
  args : JSONValue;
  result : option JSONValue
}.

Record Attachment : Type := mkAttachment {
  attachmentName : option string;
  contentType : option string;
  url : string
}.

Record Message : Type := mkMessage {
  messageId : string;
  createdAt : option nat;
  role : Role;
  content : string;
  experimental_attachments : option (list Attachment);
  annotations : option (list JSONValue);
  toolInvocations : option (list ToolInvocation)
}.

(** JavaScript errors: only [name] and [message] are observed. *)
Record Error : Type := mkError {
  errorName : string;
  errorMessage : string
}.

Definition newError (message : string) : Error := mkError "Error" message.
Definition newTypeError (message : string) : Error := mkError "TypeError" message.
Definition abortError : Error := mkError "AbortError" "The operation was aborted.".

(** [(err as any).name === 'AbortError'] *)
Definition isAbortError (err : Error) : bool := String.eqb (errorName err) "AbortError".

(* ===================================================================== *)
(** * The continuation predicate (pure helpers of use-chat.ts) *)
(* ===================================================================== *)

(** ['result' in toolInvocation] *)
Definition hasResult (t : ToolInvocation) : bool :=
  match result t with Some _ => true | None => false end.

(** [isAssistantMessageWithCompletedToolCalls]: the message must have at
    least one tool invocation and all tool invocations must have a result. *)
Definition isAssistantMessageWithCompletedToolCalls (message : Message) : bool :=
  Role_eqb (role message) assistant &&
  match toolInvocations message with
  | Some invocations => (0 <? length invocations) && forallb hasResult invocations
  | None => false
  end.

(** The body of the [for (let i = messages.length - 1; i >= 0; i--)] loop of
    [countTrailingAssistantMessages]; [n] is [i + 1]. *)
Fixpoint countTrailingLoop (messages : list Message) (n count : nat) : nat :=
  match n with
  | O => count
  | S i =>
      match nth_error messages i with
      | Some m => if Role_eqb (role m) assistant
                  then countTrailingLoop messages i (S count)
                  else count
      | None => count
      end
  end.

Definition countTrailingAssistantMessages (messages : list Message) : nat :=
  countTrailingLoop messages (length messages) 0.

(** [messages[messages.length - 1]]; [None] is [undefined]. *)
Definition lastMessageOf (messages : list Message) : option Message :=
  match length messages with
  | O => None
  | S i => nth_error messages i
  end.

(** The condition of the [if] that ends [triggerRequest]. [messageCount] is
    the length of the message list when the request started. *)
Definition shouldAutoSubmit (maxSteps : Z) (messageCount : nat)
    (messages : list Message) : bool :=
  (messageCount <? length messages) &&
  match lastMessageOf messages with
  | Some lastMessage =>
      (1 <? maxSteps)%Z &&
      isAssistantMessageWithCompletedToolCalls lastMessage &&
      (Z.of_nat (countTrailingAssistantMessages messages) <? maxSteps)%Z
  | None => false
  end.

(** The default of [maxSteps] in the parameter list of [useChat]; [None] is
    an option the caller left out. *)
Definition resolveMaxSteps
    (experimental_maxAutomaticRoundtrips maxAutomaticRoundtrips
     maxToolRoundtrips maxSteps : option Z) : Z :=
  let e := match experimental_maxAutomaticRoundtrips with Some v => v | None => 0%Z end in
  let a := match maxAutomaticRoundtrips with Some v => v | None => e end in
  let t := match maxToolRoundtrips with Some v => v | None => a end in
  match maxSteps with Some v => v | None => (t + 1)%Z end.

(** [toolInvocation.toolCallId === toolCallId ? { ...toolInvocation, result }
    : toolInvocation] *)
Definition attachResult (toolCallId' : string) (result' : JSONValue)
    (toolInvocation : ToolInvocation) : ToolInvocation :=
  if String.eqb (toolCallId toolInvocation) toolCallId'
  then mkToolInvocation (toolCallId toolInvocation) (toolName toolInvocation)
                        (args toolInvocation) (Some result')
  else toolInvocation.

(** [Array.prototype.map] with the index passed to the callback. *)
Fixpoint mapWithIndex {A B : Type} (f : A -> nat -> B) (index : nat)
    (arr : list A) : list B :=
  match arr with
  | [] => []
  | x :: rest => f x index :: mapWithIndex f (S index) rest
  end.

(** The callback of [messagesRef.current.map((message, index, arr) => ...)]:
    [index === arr.length - 1 && message.role === 'assistant' &&
    message.toolInvocations ? {...message, toolInvocations: ...} : message].
    An array, even an empty one, is truthy. *)
Definition updateToolCalls (toolCallId' : string) (result' : JSONValue)
    (arr : list Message) (message : Message) (index : nat) : Message :=
  if (index =? length arr - 1) && Role_eqb (role message) assistant
  then match toolInvocations message with
       | Some invocations =>
           mkMessage (messageId message) (createdAt message) (role message)
                     (content message) (experimental_attachments message)
                     (annotations message)
                     (Some (map (attachResult toolCallId' result') invocations))
       | None => message
       end
  else message.

Definition updatedMessages (toolCallId' : string) (result' : JSONValue)
    (messages : list Message) : list Message :=
  mapWithIndex (updateToolCalls toolCallId' result' messages) 0 messages.

(* ===================================================================== *)
(** * Session state and the monad of asynchronous code *)
(* ===================================================================== *)

Inductive AbortController : Type := newAbortController.

(** A message as it is sent in the request body: the whole message when
    [sendExtraMessageFields] is set, otherwise the fields picked by
    [getStreamedResponse] (no [id], no [createdAt]). *)
Inductive PayloadMessage : Type :=
| ExtraFields (message : Message)
| CoreFields (role' : Role) (content' : string)
             (experimental_attachments' : option (list Attachment))
             (annotations' : option (list JSONValue))
             (toolInvocations' : option (list ToolInvocation)).

Definition coreFields (m : Message) : PayloadMessage :=
  CoreFields (role m) (content m) (experimental_attachments m)
             (annotations m) (toolInvocations m).

Definition constructedMessagesPayload (sendExtraMessageFields : bool)
    (messages : list Message) : list PayloadMessage :=
  if sendExtraMessageFields then map ExtraFields messages
  else map coreFields messages.

(** What a run does to the outside, in order: store updates, the request sent,
    callbacks. [TriggerRequest] marks each entry into [triggerRequest]. *)
Inductive Event : Type :=
| TriggerRequest (requestMessages : list Message)
| Fetch (payload : list PayloadMessage)
| MutateMessages (messages : list Message)
| MutateStreamData (data : option (list JSONValue))
| MutateLoading (loading : bool)
| SetError (err : option Error)
| Abort
| OnError (err : Error)
| OnFinish (message : Message).

(** The state shared under one chat key. [messagesRef.current] is kept equal
    to the stored messages by the effect of [useChat] ("keep the latest
    messages in a ref"), and [streamDataRef.current] to the stored stream
    data; the embedding identifies each ref with its store entry (where the
    source reads the ref in the tick in which it wrote the store, in
    [addToolResult], the embedding says so). [idSeed] is
    the state of [generateId], [clock] the reading of [new Date()]. *)
Record Session : Type := mkSession {
  messages : list Message;
  streamData : option (list JSONValue);
  isLoading : bool;
  chatError : option Error;
  abortControllerRef : option AbortController;
  idSeed : nat;
  clock : nat;
  trace : list Event
}.

Definition emit (e : Event) (s : Session) : Session :=
  mkSession (messages s) (streamData s) (isLoading s) (chatError s)
            (abortControllerRef s) (idSeed s) (clock s) (trace s ++ [e]).

Definition withMessages (ms : list Message) (s : Session) : Session :=
  mkSession ms (streamData s) (isLoading s) (chatError s)
            (abortControllerRef s) (idSeed s) (clock s) (trace s).

Definition withStreamData (d : option (list JSONValue)) (s : Session) : Session :=
  mkSession (messages s) d (isLoading s) (chatError s)
            (abortControllerRef s) (idSeed s) (clock s) (trace s).

Definition withLoading (b : bool) (s : Session) : Session :=
  mkSession (messages s) (streamData s) b (chatError s)
            (abortControllerRef s) (idSeed s) (clock s) (trace s).

Definition withError (e : option Error) (s : Session) : Session :=
  mkSession (messages s) (streamData s) (isLoading s) e
            (abortControllerRef s) (idSeed s) (clock s) (trace s).

Definition withAbortController (c : option AbortController) (s : Session) : Session :=
  mkSession (messages s) (streamData s) (isLoading s) (chatError s)
            c (idSeed s) (clock s) (trace s).

Definition withIdSeed (n : nat) (s : Session) : Session :=
  mkSession (messages s) (streamData s) (isLoading s) (chatError s)
            (abortControllerRef s) n (clock s) (trace s).

(** How an asynchronous computation ends: it returns, it throws, or the
    promise it awaits never settles. *)
Inductive Outcome (A : Type) : Type :=
| Returns (a : A)
| Throws (err : Error)
| Pending.
Arguments Throws {A} err.
Arguments Pending {A}.

Definition Async (A : Type) : Type := Session -> Outcome A * Session.

Definition ret {A : Type} (a : A) : Async A := fun s => (Returns a, s).

Definition throw {A : Type} (err : Error) : Async A := fun s => (Throws err, s).

Definition pending {A : Type} : Async A := fun s => (Pending, s).

Definition bind {A B : Type} (m : Async A) (k : A -> Async B) : Async B :=
  fun s =>
    match m s with
    | (Returns a, s') => k a s'
    | (Throws err, s') => (Throws err, s')
    | (Pending, s') => (Pending, s')
    end.

Declare Scope async_scope.
Delimit Scope async_scope with async.
Notation "x <- m ;; k" := (bind m (fun x => k))
  (at level 61, m at next level, right associativity) : async_scope.
Notation "m ;; k" := (bind m (fun _ => k))
  (at level 61, right associativity) : async_scope.
Open Scope async_scope.

Definition gets {A : Type} (f : Session -> A) : Async A := fun s => (Returns (f s), s).

Definition modify (f : Session -> Session) : Async unit := fun s => (Returns tt, f s).

(** [try { body } catch (err) { handler } finally { cleanup }], for a cleanup
    that completes normally. A computation left pending runs neither. *)
Definition tryCatchFinally {A : Type} (body : Async A) (handler : Error -> Async A)
    (cleanup : Async unit) : Async A :=
  fun s =>
    match body s with
    | (Returns a, s') => (cleanup ;; ret a) s'
    | (Throws err, s') =>
        match handler err s' with
        | (Returns a, s'') => (cleanup ;; ret a) s''
        | (Throws err', s'') => (cleanup ;; throw err') s''
        | (Pending, s'') => (Pending, s'')
        end
    | (Pending, s') => (Pending, s')
    end.

(** [mutate(messages, false)] *)
Definition mutate (ms : list Message) : Async unit :=
  modify (fun s => emit (MutateMessages ms) (withMessages ms s)).

Definition mutateStreamData (d : option (list JSONValue)) : Async unit :=
  modify (fun s => emit (MutateStreamData d) (withStreamData d s)).

Definition mutateLoading (b : bool) : Async unit :=
  modify (fun s => emit (MutateLoading b) (withLoading b s)).

Definition setError (e : option Error) : Async unit :=
  modify (fun s => emit (SetError e) (withError e s)).

(** [stop]: abort the controller of the outstanding request, if any, and
    clear the reference. *)
Definition stop : Async unit :=
  fun s =>
    match abortControllerRef s with
    | Some _ => (Returns tt, withAbortController None (emit Abort s))
    | None => (Returns tt, s)
    end.

(* ===================================================================== *)
(** * The network and the caller, as a script *)
(* ===================================================================== *)

(** One [await reader.read()] delivers a chunk; [StopRequested] is the caller
    invoking [stop()] while a read is outstanding. *)
Inductive ReadEvent : Type :=
| Chunk (value : list byte)
| StopRequested.

(** A response body: the reads in order, then either [done] ([readError] is
    [None]) or a rejected read. *)
Record Reader : Type := mkReader {
  reads : list ReadEvent;
  readError : option Error
}.

Record Response : Type := mkResponse {
  ok : bool;
  responseText : string;
  body : option Reader
}.

(** How [fetch] settles. [FetchStopped]: the caller invokes [stop()] while
    the fetch is outstanding, and the fetch rejects with an [AbortError]. *)
Inductive FetchResult : Type :=
| FetchRejects (err : Error)
| FetchStopped
| FetchResolves (response : Response).

(** What the reducer of the multiplexed protocol does with a body: the calls
    of its [update] callback in order (a [StopDuringReduction] is a [stop()]
    of the caller in between), and how it ends. *)
Inductive ReductionStep : Type :=
| Update (merged : list Message) (data : option (list JSONValue))
| StopDuringReduction.

Record ChatApiResult : Type := mkChatApiResult {
  resultMessages : list Message;
  resultData : list JSONValue
}.

Record Reduction : Type := mkReduction {
  steps : list ReductionStep;
  reduced : Error + ChatApiResult
}.

Inductive StreamMode : Type := TextMode | StreamDataMode.

(** The options of [useChat] that the request cycle reads. [onResponse] maps
    a response to [Some err] when the callback throws [err]; [onError] and
    [onFinish] say whether the callback was supplied. *)
Record UseChatOptions : Type := mkUseChatOptions {
  maxSteps : Z;
  keepLastMessageOnError : bool;
  sendExtraMessageFields : bool;
  streamProtocol : StreamMode;
  onResponse : option (Response -> option Error);
  onError : bool;
  onFinish : bool;
  generateId : nat -> string
}.

(** The value of the promise returned by [triggerRequest] and [reload]. *)
Inductive Returned : Type := ReturnsNull | ReturnsUndefined.

(* ===================================================================== *)
(** * callChatApi and the request cycle of useChat *)
(* ===================================================================== *)

Section RequestCycle.

(** [createChunkDecoder()] of ui-utils is not among the sources: the
    decoder it returns is taken as a parameter, a state machine over byte
    chunks (a [TextDecoder] in streaming mode keeps the bytes of an
    unfinished character). *)
Variable DecoderState : Type.
Variable createChunkDecoder : DecoderState.
Variable decoder : DecoderState -> list byte -> DecoderState * string.

(** [parseComplexResponse] of ui-utils is not among the sources: it is taken
    as a parameter that fixes, for a body, the updates it publishes and its
    result. *)
Variable parseComplexResponse : Reader -> Reduction.

Variable options : UseChatOptions.

Definition nextGeneratedId : Async string :=
  fun s => (Returns (generateId options (idSeed s)), withIdSeed (S (idSeed s)) s).

Definition callOnFinish (message : Message) : Async unit :=
  if onFinish options then modify (emit (OnFinish message)) else ret tt.

Definition callOnError (err : Error) : Async unit :=
  if onError options then modify (emit (OnError err)) else ret tt.

Definition callOnResponse (response : Response) : Async unit :=
  match onResponse options with
  | Some callback =>
      match callback response with
      | Some err => throw err
      | None => ret tt
      end
  | None => ret tt
  end.

(** The [while (true)] loop of [case 'text'] in [callChatApi], by recursion
    on the reads that remain. *)
Fixpoint readTextStream
    (onUpdate : list Message -> option (list JSONValue) -> Async unit)
    (decoderState : DecoderState) (resultMessage : Message)
    (remaining : list ReadEvent) (ending : option Error) : Async Message :=
  match remaining with
  | [] =>
      match ending with
      | None => ret resultMessage
      | Some err => throw err
      end
  | StopRequested :: rest =>
      stop ;;
      readTextStream onUpdate decoderState resultMessage rest ending
  | Chunk value :: rest =>
      let (decoderState', text) := decoder decoderState value in
      newId <- nextGeneratedId ;;
      let resultMessage' :=
        mkMessage newId (createdAt resultMessage) (role resultMessage)
                  (String.append (content resultMessage) text)
                  (experimental_attachments resultMessage)
                  (annotations resultMessage) (toolInvocations resultMessage) in
      onUpdate [resultMessage'] (Some []) ;;
      controller <- gets abortControllerRef ;;
      match controller with
      | None => ret resultMessage'
      | Some _ => readTextStream onUpdate decoderState' resultMessage' rest ending
      end
  end.

(** The run of [parseComplexResponse] against the session. *)
Fixpoint runReduction
    (onUpdate : list Message -> option (list JSONValue) -> Async unit)
    (remaining : list ReductionStep) (ending : Error + ChatApiResult)
    : Async ChatApiResult :=
  match remaining with
  | [] =>
      match ending with
      | inl err => throw err
      | inr result' => ret result'
      end
  | Update merged data :: rest =>
      onUpdate merged data ;;
      runReduction onUpdate rest ending
  | StopDuringReduction :: rest =>
      stop ;;
      runReduction onUpdate rest ending
  end.

(** How [await fetch(api, {...}).catch(err => { restoreMessagesOnFailure();
    throw err; })] ends; [fetched = None] is a fetch that never settles. *)
Definition awaitFetch (restoreMessagesOnFailure : Async unit)
    (fetched : option FetchResult) : Async Response :=
  match fetched with
  | None => pending
  | Some (FetchRejects err) => restoreMessagesOnFailure ;; throw err
  | Some FetchStopped => stop ;; restoreMessagesOnFailure ;; throw abortError
  | Some (FetchResolves response) => ret response
  end.

(** The part of [callChatApi] that follows [await fetch(...)]: the
    [onResponse] callback, the status check, and the read of the body in the
    stream mode asked for. *)
Definition consumeResponse (streamMode : StreamMode)
    (restoreMessagesOnFailure : Async unit)
    (onUpdate : list Message -> option (list JSONValue) -> Async unit)
    (response : Response) : Async ChatApiResult :=
  callOnResponse response ;;
  if negb (ok response) then
    restoreMessagesOnFailure ;;
    throw (newError (responseText response))
  else
    match body response with
    | None => throw (newError "The response body is empty.")
    | Some reader =>
        match streamMode with
        | TextMode =>
            firstId <- nextGeneratedId ;;
            now <- gets clock ;;
            let resultMessage :=
              mkMessage firstId (Some now) assistant "" None None None in
            resultMessage' <- readTextStream onUpdate createChunkDecoder
                                resultMessage (reads reader) (readError reader) ;;
            callOnFinish resultMessage' ;;
            ret (mkChatApiResult [resultMessage'] [])
        | StreamDataMode =>
            let reduction := parseComplexResponse reader in
            runReduction onUpdate (steps reduction) (reduced reduction)
        end
    end.

Definition callChatApi (payload : list PayloadMessage) (streamMode : StreamMode)
    (restoreMessagesOnFailure : Async unit)
    (onUpdate : list Message -> option (list JSONValue) -> Async unit)
    (fetched : option FetchResult) : Async ChatApiResult :=
  modify (emit (Fetch payload)) ;;
  response <- awaitFetch restoreMessagesOnFailure fetched ;;
  consumeResponse streamMode restoreMessagesOnFailure onUpdate response.

(** [(existingData ?? [])] and [(data ?? [])] *)
Definition orEmpty (d : option (list JSONValue)) : list JSONValue :=
  match d with Some l => l | None => [] end.

(** The [restoreMessagesOnFailure()] that [getStreamedResponse] hands to
    [callChatApi]. *)
Definition restoreMessagesOnFailure (previousMessages : list Message) : Async unit :=
  if keepLastMessageOnError options then ret tt else mutate previousMessages.

(** The [onUpdate(merged, data)] that [getStreamedResponse] hands to
    [callChatApi]. *)
Definition onUpdate (chatRequest : list Message)
    (existingData : option (list JSONValue))
    (merged : list Message) (data : option (list JSONValue)) : Async unit :=
  mutate (chatRequest ++ merged) ;;
  mutateStreamData (Some (orEmpty existingData ++ orEmpty data)).

Definition getStreamedResponse (chatRequest : list Message)
    (fetched : option FetchResult) : Async ChatApiResult :=
  (* Do an optimistic update to the chat state: *)
  previousMessages <- gets messages ;;
  mutate chatRequest ;;
  let payload :=
    constructedMessagesPayload (sendExtraMessageFields options) chatRequest in
  existingData <- gets streamData ;;
  callChatApi payload (streamProtocol options)
    (restoreMessagesOnFailure previousMessages)
    (onUpdate chatRequest existingData)
    fetched.

(** Modelled from the spec: [processChatStream] of ui-utils is not among
    the sources. A round trip is one request/response exchange (spec,
    sections 2 and 5): the response of [getStreamedResponse] is awaited
    once; the loop over legacy function calls needs the callbacks
    [experimental_onFunctionCall] and [experimental_onToolCall], which this
    embedding leaves out. *)
Definition processChatStream (streamedResponse : Async ChatApiResult) : Async unit :=
  streamedResponse ;; ret tt.

(** The [try]/[catch]/[finally] of [triggerRequest]. The result is
    [Some ReturnsNull] when the [catch] block returns [null] from the
    function, and [None] when control reaches the code after the block. *)
Definition requestRound (chatRequest : list Message)
    (fetched : option FetchResult) : Async (option Returned) :=
  tryCatchFinally
    (mutateLoading true ;;
     setError None ;;
     modify (withAbortController (Some newAbortController)) ;;
     processChatStream (getStreamedResponse chatRequest fetched) ;;
     modify (withAbortController None) ;;
     ret None)
    (fun err =>
       (* Ignore abort errors as they are expected. *)
       if isAbortError err then
         modify (withAbortController None) ;;
         ret (Some ReturnsNull)
       else
         callOnError err ;;
         setError (Some err) ;;
         ret None)
    (mutateLoading false).

(** [triggerRequest]. Each request takes the next entry of [network] as the
    way its fetch settles; with no entry left the fetch stays outstanding
    (the round is then [Pending], so the [[]] branch below is never taken). *)
Fixpoint triggerRequest (network : list FetchResult) (chatRequest : list Message)
    : Async Returned :=
  fun s =>
    let messageCount := length (messages s) in
    match requestRound chatRequest (hd_error network)
                       (emit (TriggerRequest chatRequest) s) with
    | (Returns (Some returned), s') => (Returns returned, s')
    | (Returns None, s') =>
        (* auto-submit when all tool calls in the last assistant message
           have results: *)
        if shouldAutoSubmit (maxSteps options) messageCount (messages s')
        then
          match network with
          | _ :: rest =>
              (triggerRequest rest (messages s') ;; ret ReturnsUndefined) s'
          | [] => (Pending, s')
          end
        else (Returns ReturnsUndefined, s')
    | (Throws err, s') => (Throws err, s')
    | (Pending, s') => (Pending, s')
    end.

(** [prepareAttachmentsForRequest], for attachments given as an array (a
    [FileList] is read through the platform's [FileReader], which is outside
    the embedding). *)
Definition prepareAttachmentsForRequest
    (attachmentsFromOptions : option (list Attachment)) : list Attachment :=
  match attachmentsFromOptions with
  | None => []
  | Some attachments => attachments
  end.

(** [append]. The message comes with or without an [id]; an empty [id] is
    falsy and is replaced like a missing one. *)
Definition append (network : list FetchResult) (id' : option string)
    (message : Message) (attachmentsFromOptions : option (list Attachment))
    : Async Returned :=
  newId <- match id' with
           | Some (String c rest) => ret (String c rest)
           | _ => nextGeneratedId
           end ;;
  let attachmentsForRequest := prepareAttachmentsForRequest attachmentsFromOptions in
  current <- gets messages ;;
  now <- gets clock ;;
  let messages' :=
    current ++
    [mkMessage newId
               (match createdAt message with Some t => Some t | None => Some now end)
               (role message) (content message)
               (if 0 <? length attachmentsForRequest
                then Some attachmentsForRequest else None)
               (annotations message) (toolInvocations message)] in
  triggerRequest network messages'.

(** [messagesRef.current.slice(0, -1)] *)
Definition withoutLast (current : list Message) : list Message :=
  firstn (length current - 1) current.

(** [reload]; [Returns ReturnsNull] is the [return null] on an empty list. *)
Definition reload (network : list FetchResult) : Async Returned :=
  current <- gets messages ;;
  if length current =? 0 then ret ReturnsNull
  else
    (* Remove last assistant message and retry last user message. *)
    match lastMessageOf current with
    | Some lastMessage =>
        if Role_eqb (role lastMessage) assistant
        then triggerRequest network (withoutLast current)
        else triggerRequest network current
    | None => throw (newTypeError "Cannot read properties of undefined")
    end.

(** [setMessages], for a list given directly. *)
Definition setMessages (messages' : list Message) : Async unit :=
  mutate messages'.

(** [addToolResult]. The call of [triggerRequest] is not awaited by the
    source; the embedding runs the request it starts to its end, so that the
    final session is the one the caller observes once everything settled.

    [mutate] writes the store, and [messagesRef.current] follows only with
    the effect that runs after the next render. [triggerRequest] is called
    before that render, so what it and [getStreamedResponse] read from the
    ref ([messageCount], [previousMessages]) is the list as it was before
    the result was recorded. The message list of the session stands for
    both the store and the ref: the embedding sets it back to [current] for
    the start of the request, and the store holds [updated] again once
    [getStreamedResponse] has made its optimistic update, before anything
    reads it.

    On an empty list [isAssistantMessageWithCompletedToolCalls] reads
    [role] of [undefined], which throws a TypeError (the text of its message
    is the engine's, here that of V8). *)
Definition addToolResult (network : list FetchResult) (toolCallId' : string)
    (result' : JSONValue) : Async unit :=
  current <- gets messages ;;
  let updated := updatedMessages toolCallId' result' current in
  mutate updated ;;
  (* auto-submit when all tool calls in the last assistant message have
     results: *)
  match lastMessageOf updated with
  | Some lastMessage =>
      if isAssistantMessageWithCompletedToolCalls lastMessage
      then
        modify (withMessages current) ;;
        triggerRequest network updated ;; ret tt
      else ret tt
  | None =>
      throw (newTypeError "Cannot read properties of undefined (reading 'role')")
  end.

(** [handleSubmit]. [input] is the state of the hook's input field and the
    result is its value after the call ([setInput('')] once a request was
    started). The source does not await [triggerRequest]: whatever becomes of
    the request, the field is cleared. The event, the request options and the
    metadata merged into [extraMetadataRef] are outside the embedding. *)
Definition handleSubmit (network : list FetchResult) (input : string)
    (allowEmptySubmit : bool) (attachmentsFromOptions : option (list Attachment))
    : Async string :=
  if String.eqb input "" && negb allowEmptySubmit then ret input
  else
    let attachmentsForRequest := prepareAttachmentsForRequest attachmentsFromOptions in
    current <- gets messages ;;
    messages' <-
      (if String.eqb input "" && (length attachmentsForRequest =? 0) && allowEmptySubmit
       then ret current
       else
         newId <- nextGeneratedId ;;
         now <- gets clock ;;
         ret (current ++
              [mkMessage newId (Some now) user input
                         (if 0 <? length attachmentsForRequest
                          then Some attachmentsForRequest else None)
                         None None])) ;;
    fun s => (Returns "", snd (triggerRequest network messages' s)).

End RequestCycle.

(* ===================================================================== *)
(** * getTextFromDataUrl (src/unnamed/part_001, first document) *)
(* ===================================================================== *)

Module DataUrl.

(** [text.split(separator)] for a separator of one character: the pieces
    between the separators, in order; never an empty array. *)
Fixpoint split (separator : ascii) (text : string) : list string :=
  match text with
  | EmptyString => [EmptyString]
  | String c rest =>
      if Ascii.eqb c separator then EmptyString :: split separator rest
      else match split separator rest with
           | piece :: pieces => String c piece :: pieces
           | [] => [String c EmptyString]
           end
  end.

Section GetText.

(** [window.atob], of the platform: it returns the decoded text or throws. *)
Variable atob : string -> Error + string.

(** [getTextFromDataUrl]: [inl] is a thrown error. An array element that does
    not exist is [undefined], here [None]. *)
Definition getTextFromDataUrl (dataUrl : string) : Error + string :=
  let pieces := split "," dataUrl in
  let header := nth_error pieces 0 in
  let base64Content := nth_error pieces 1 in
  let mimeType :=
    match header with
    | Some header' =>
        match nth_error (split ";" header') 0 with
        | Some first => nth_error (split ":" first) 1
        | None => None
        end
    | None => None
    end in
  match mimeType, base64Content with
  | Some _, Some content' => atob content'
  | _, _ => inl (newError "Invalid data URL format")
  end.

End GetText.

(** The text holds no occurrence of the character. *)
Fixpoint without (c : ascii) (text : string) : bool :=
  match text with
  | EmptyString => true
  | String x rest => negb (Ascii.eqb x c) && without c rest
  end.

End DataUrl.

(* ===================================================================== *)
(** * smoothStream (core/generate-text/smooth-stream.ts) *)
(* ===================================================================== *)

Module SmoothStream.

(** A JavaScript string is a sequence of UTF-16 code units. *)
Definition JSString : Type := list N.

(** The code units matched by [/\s/]: the WhiteSpace and LineTerminator
    productions of ECMAScript. *)
Definition isWhitespace (c : N) : bool :=
  ((9 <=? c) && (c <=? 13) ||
   (c =? 32) || (c =? 160) || (c =? 5760) ||
   (8192 <=? c) && (c <=? 8202) ||
   (c =? 8232) || (c =? 8233) || (c =? 8239) || (c =? 8287) ||
   (c =? 12288) || (c =? 65279))%N.

(** The parts of a text stream other than ['text-delta'] and
    ['step-finish']. *)
Inductive OtherType : Type :=
| ToolCall | ToolCallStreamingStart | ToolCallDelta | ToolResult
| Finish | ErrorPart.

Inductive StreamPart : Type :=
| TextDelta (textDelta : JSString)
| StepFinish (fields : JSONValue)
| OtherPart (type : OtherType) (fields : JSONValue).

(** [buffer.match(/\s/)], as a truth value. *)
Definition matchWhitespace (buffer : JSString) : bool :=
  existsb isWhitespace buffer.

(** [buffer.search(/\s/)]: the index of the first match, or [-1]. *)
Fixpoint search (buffer : JSString) : Z :=
  match buffer with
  | [] => (-1)%Z
  | c :: rest =>
      if isWhitespace c then 0%Z
      else let i := search rest in
           if (i <? 0)%Z then (-1)%Z else (i + 1)%Z
  end.

(** [buffer.slice(0, end)] and [buffer.slice(start)] for indices that are
    not negative. *)
Definition sliceTo (buffer : JSString) (end' : Z) : JSString :=
  firstn (Z.to_nat end') buffer.

Definition sliceFrom (buffer : JSString) (start : Z) : JSString :=
  skipn (Z.to_nat start) buffer.

Definition inspect {A : Type} (x : A) : {y : A | x = y} := exist _ x eq_refl.

Lemma search_found (buffer : JSString) :
  matchWhitespace buffer = true -> (0 <= search buffer)%Z.
Proof.
  induction buffer as [|c rest IH]; simpl; [discriminate|].
  destruct (isWhitespace c); simpl; [lia|].
  intros H. specialize (IH H).
  destruct (search rest <? 0)%Z eqn:E; lia.
Qed.

(** The [while (buffer.match(/\s/))] loop of [transform]: [enqueued] is
    what the controller received so far. The pacing [await delay(delayInMs)]
    between two words does not change what is enqueued and is left out. *)
Equations? streamWords (enqueued : list StreamPart) (buffer : JSString)
    : list StreamPart * JSString by wf (length buffer) lt :=
  streamWords enqueued buffer with inspect (matchWhitespace buffer) := {
    | exist _ true _ =>
        let whitespaceIndex := search buffer in
        let word := sliceTo buffer (whitespaceIndex + 1) in
        streamWords (enqueued ++ [TextDelta word])
                    (sliceFrom buffer (whitespaceIndex + 1));
    | exist _ false _ => (enqueued, buffer) }.
Proof.
  pose proof (search_found buffer e) as Hs.
  unfold sliceFrom. rewrite length_skipn.
  destruct buffer as [|c rest]; [discriminate|]. simpl length. lia.
Qed.

(** [transform(chunk, controller)]: the parts enqueued by this call and the
    buffer it leaves. *)
Definition transform (buffer : JSString) (chunk : StreamPart)
    : list StreamPart * JSString :=
  match chunk with
  | StepFinish _ =>
      ((if 0 <? length buffer then [TextDelta buffer] else []) ++ [chunk], [])
  | OtherPart _ _ => ([chunk], buffer)
  | TextDelta textDelta => streamWords [] (buffer ++ textDelta)
  end.

(** The transform stream run over the parts written to it, from the buffer
    it holds: everything enqueued, and the buffer left. *)
Fixpoint pipeThrough (buffer : JSString) (chunks : list StreamPart)
    : list StreamPart * JSString :=
  match chunks with
  | [] => ([], buffer)
  | chunk :: rest =>
      let (enqueued, buffer') := transform buffer chunk in
      let (enqueued', buffer'') := pipeThrough buffer' rest in
      (enqueued ++ enqueued', buffer'')
  end.

(** [smoothStream()]: a fresh transform stream starts with [buffer = '']. *)
Definition smoothStream (chunks : list StreamPart) : list StreamPart :=
  fst (pipeThrough [] chunks).

(** The text carried by the ['text-delta'] parts, concatenated. *)
Fixpoint textOf (parts : list StreamPart) : JSString :=
  match parts with
  | [] => []
  | TextDelta t :: rest => t ++ textOf rest
  | _ :: rest => textOf rest
  end.

Definition isTextDelta (part : StreamPart) : bool :=
  match part with TextDelta _ => true | _ => false end.

Definition isOtherPart (part : StreamPart) : bool :=
  match part with OtherPart _ _ => true | _ => false end.

(** A whole word: code units that are not whitespace, then one whitespace
    code unit. *)
Definition wholeWord (word : JSString) : Prop :=
  exists letters space,
    word = letters ++ [space] /\
    forallb (fun c => negb (isWhitespace c)) letters = true /\
    isWhitespace space = true.

(** A paced output: every text-delta is one whole word, or it is the flush
    of a buffer - not empty and without whitespace - and the step-finish
    that caused the flush follows it at once. *)
Fixpoint paced (parts : list StreamPart) : Prop :=
  match parts with
  | [] => True
  | TextDelta word :: rest =>
      (wholeWord word \/
       (word <> [] /\ matchWhitespace word = false /\
        exists fields more, rest = StepFinish fields :: more)) /\
      paced rest
  | _ :: rest => paced rest
  end.

End SmoothStream.

(* ===================================================================== *)
(** * Vocabulary of the specification *)
(* ===================================================================== *)

(** A tool invocation is complete iff its result is present. *)
Definition complete (t : ToolInvocation) : Prop := result t <> None.

(** A message is ready for automatic continuation iff it is an assistant
    message with at least one tool invocation and all are complete. *)
Definition readyForContinuation (m : Message) : Prop :=
  role m = assistant /\
  exists invocations,
    toolInvocations m = Some invocations /\
    invocations <> [] /\
    Forall complete invocations.

(** The requests of a run, in order: the message list of every entry into
    [triggerRequest]. *)
Definition requestsIssued (events : list Event) : list (list Message) :=
  flat_map (fun e => match e with TriggerRequest r => [r] | _ => [] end) events.

Definition isAssistant (m : Message) : bool := Role_eqb (role m) assistant.

(** The session once a request has started: loading set, error cleared, a
    fresh abort controller installed. *)
Definition started (s : Session) : Session :=
  withAbortController (Some newAbortController)
    (emit (SetError None) (withError None
       (emit (MutateLoading true) (withLoading true s)))).

(** The session once [getStreamedResponse] has made its optimistic update and
    put the request on the wire. *)
Definition requested (options : UseChatOptions) (chatRequest : list Message)
    (s : Session) : Session :=
  emit (Fetch (constructedMessagesPayload (sendExtraMessageFields options) chatRequest))
    (emit (MutateMessages chatRequest) (withMessages chatRequest s)).

(** A step keeps a property of the message list. *)
Definition keeps (P : list Message -> Prop) (s s' : Session) : Prop :=
  P (messages s) -> P (messages s').

(** The message list still starts with the messages of the request. *)
Definition extendsRequest (chatRequest messages' : list Message) : Prop :=
  exists merged, messages' = chatRequest ++ merged.

(** What the message list can be after a round trip of a request for
    [chatRequest] that started from [previous]: rolled back, or the request's
    messages followed by assistant messages merged from the response. *)
Definition roundMessages (previous chatRequest messages' : list Message) : Prop :=
  messages' = previous \/
  exists merged,
    forallb isAssistant merged = true /\ messages' = chatRequest ++ merged.

(** The reducer only creates assistant messages (spec, section 4.4). *)
Definition reducerCreatesAssistantMessages
    (parseComplexResponse : Reader -> Reduction) : Prop :=
  forall reader,
    Forall (fun step => match step with
                        | Update merged _ => forallb isAssistant merged = true
                        | StopDuringReduction => True
                        end)
           (steps (parseComplexResponse reader)).

(** The [onResponse] callback, if one was supplied, returns normally on
    this response. *)
Definition onResponseReturns (options : UseChatOptions) (response : Response) : Prop :=
  match onResponse options with
  | Some callback => callback response = None
  | None => True
  end.

(** A round trip that fails with [err] before any byte of a body is read:
    the fetch is rejected, or it is aborted by [stop()], or the response
    arrives with a status that is not ok. *)
Definition failsBeforeBody (options : UseChatOptions) (fetched : FetchResult)
    (err : Error) : Prop :=
  fetched = FetchRejects err \/
  (fetched = FetchStopped /\ err = abortError) \/
  (exists response,
     fetched = FetchResolves response /\
     ok response = false /\
     onResponseReturns options response /\
     err = newError (responseText response)).

(** The texts a decoder yields for a sequence of chunks, in order. *)
Fixpoint decodeAll {DecoderState : Type}
    (decoder : DecoderState -> list byte -> DecoderState * string)
    (state : DecoderState) (chunks : list (list byte)) : list string :=
  match chunks with
  | [] => []
  | chunk :: rest =>
      let (state', text) := decoder state chunk in
      text :: decodeAll decoder state' rest
  end.

(** The concatenation of texts in order. *)
Definition concatenation (texts : list string) : string :=
  fold_right String.append "" texts.

(** The chunks a reader hands over before the text loop stops reading:
    all of them, or, once [stop()] was invoked, those up to the next one.
    [aborted] says whether the abort controller was already cleared. *)
Fixpoint chunksRead (aborted : bool) (remaining : list ReadEvent) : list (list byte) :=
  match remaining with
  | [] => []
  | StopRequested :: rest => chunksRead true rest
  | Chunk value :: rest => value :: (if aborted then [] else chunksRead aborted rest)
  end.

(** How the reading ends: [None] when the loop is left normally (end of the
    body, or the check after a chunk finds the controller cleared), [Some err]
    when a read is rejected with [err]. *)
Fixpoint readOutcome (aborted : bool) (remaining : list ReadEvent)
    (ending : option Error) : option Error :=
  match remaining with
  | [] => ending
  | StopRequested :: rest => readOutcome true rest ending
  | Chunk _ :: rest => if aborted then None else readOutcome aborted rest ending
  end.

Definition controllerCleared (s : Session) : bool :=
  match abortControllerRef s with None => true | Some _ => false end.

(** An update callback that returns normally and leaves the abort controller
    alone. *)
Definition wellBehavedUpdate
    (update : list Message -> option (list JSONValue) -> Async unit) : Prop :=
  forall merged data s,
    exists s', update merged data s = (Returns tt, s') /\
               abortControllerRef s' = abortControllerRef s.

(** What [addToolResult] does to a last message that is an assistant
    message with tool invocations; other messages are left as they are. *)
Definition updateLastMessage (toolCallId' : string) (result' : JSONValue)
    (message : Message) : Message :=
  if Role_eqb (role message) assistant
  then match toolInvocations message with
       | Some invocations =>
           mkMessage (messageId message) (createdAt message) (role message)
                     (content message) (experimental_attachments message)
                     (annotations message)
                     (Some (map (attachResult toolCallId' result') invocations))
       | None => message
       end
  else message.

(** Once a result for [toolCallId'] is recorded, no tool invocation of the
    assistant message is left without a result: the message has invocations,
    and each of them has a result already or carries that id. *)
Definition answeredBy (toolCallId' : string) (message : Message) : Prop :=
  role message = assistant /\
  exists invocations,
    toolInvocations message = Some invocations /\
    invocations <> [] /\
    Forall (fun t => complete t \/ toolCallId t = toolCallId') invocations.

(** Side data that was only added to: it is what it was, or an array that
    starts with the entries it had. *)
Definition extendsData (before after : option (list JSONValue)) : Prop :=
  after = before \/ exists extra, after = Some (orEmpty before ++ extra).

(** A step keeps a property of the side data. *)
Definition keepsData (P : option (list JSONValue) -> Prop) (s s' : Session) : Prop :=
  P (streamData s) -> P (streamData s').

(** The last update that a reduction publishes, if it publishes any. *)
Fixpoint lastUpdate (remaining : list ReductionStep)
    : option (list Message * option (list JSONValue)) :=
  match remaining with
  | [] => None
  | Update merged data :: rest =>
      match lastUpdate rest with
      | Some later => Some later
      | None => Some (merged, data)
      end
  | StopDuringReduction :: rest => lastUpdate rest
  end.

(** The messages that the [onFinish] callback was called with, in order. *)
Definition finishedWith (events : list Event) : list Message :=
  flat_map (fun e => match e with OnFinish m => [m] | _ => [] end) events.

(** A step during which [onFinish] is not called. *)
Definition unfinished (s s' : Session) : Prop :=
  finishedWith (trace s') = finishedWith (trace s).

(** The body of a response as the platform delivers it when the caller
    invokes [stop()] after these chunks were read: aborting the controller
    makes the read that is outstanding reject with an AbortError. *)
Definition stoppedAfter (chunks : list (list byte)) : Reader :=
  mkReader (map Chunk chunks ++ [StopRequested]) (Some abortError).

(** What the reducer of the multiplexed protocol does with a body that is
    cut off by [stop()] (spec, section 5): it has published some updates
    when the caller invokes [stop()], and it ends with the AbortError of the
    read that was aborted. *)
Definition reducerStopped (parseComplexResponse : Reader -> Reduction)
    (reader : Reader) : Prop :=
  exists updates,
    steps (parseComplexResponse reader) =
      map (fun update => Update (fst update) (snd update)) updates ++
      [StopDuringReduction] /\
    reduced (parseComplexResponse reader) = inl abortError.

(** Each list of the sequence starts with the list before it. *)
Fixpoint growing (requests : list (list Message)) : Prop :=
  match requests with
  | first :: (second :: _) as rest => extendsRequest first second /\ growing rest
  | _ => True
  end.

(** The session once the [finally] block has run. *)
Definition settled (s : Session) : Session :=
  emit (MutateLoading false) (withLoading false s).

(** The session once the [catch] block has recorded a failure. *)
Definition failed (options : UseChatOptions) (err : Error) (s : Session) : Session :=
  emit (SetError (Some err))
    (withError (Some err) (if onError options then emit (OnError err) s else s)).

(** A computation that settles: it returns or throws. *)
Definition settles {A : Type} (o : Outcome A) : Prop :=
  match o with Pending => False | _ => True end.

(** A relation between the session before and after that every run of a
    computation respects. *)
Definition preserves (R : Session -> Session -> Prop) {A : Type} (m : Async A) : Prop :=
  forall s, R s (snd (m s)).

(** A computation that always settles. *)
Definition total {A : Type} (m : Async A) : Prop :=
  forall s, settles (fst (m s)).

(** A step is quiet when it enters no request, leaves the loading flag and
    the error slot alone, and only adds to the trace. *)
Record quiet (s s' : Session) : Prop := mkQuiet {
  quiet_requests : requestsIssued (trace s') = requestsIssued (trace s);
  quiet_error : chatError s' = chatError s;
  quiet_loading : isLoading s' = isLoading s;
  quiet_trace : exists events, trace s' = trace s ++ events
}.

(** A step is calm when it enters no request and only adds to the trace (it
    may touch the loading flag and the error slot). *)
Record calm (s s' : Session) : Prop := mkCalm {
  calm_requests : requestsIssued (trace s') = requestsIssued (trace s);
  calm_trace : exists events, trace s' = trace s ++ events
}.

(* ===================================================================== *)
(** * A concrete session, for the examples *)
(* ===================================================================== *)

(** A decoder for ASCII bodies: every byte is one character. *)
Definition asciiDecoder (state : unit) (chunk : list byte) : unit * string :=
  (tt, string_of_list_byte chunk).

Definition weatherCall (result' : option JSONValue) : ToolInvocation :=
  mkToolInvocation "call-1" "getWeather" (JObject [("city", JString "Oslo")]) result'.

(** A reducer for the examples: every chunk of the body publishes one
    assistant message that carries a finished tool call, with the chunk as
    its text. *)
Definition toolCallMessage (text : string) : Message :=
  mkMessage "assistant-1" None assistant text None None
            (Some [weatherCall (Some (JString "sunny"))]).

Definition exampleSteps (reads' : list ReadEvent) : list ReductionStep :=
  map (fun event => match event with
                    | Chunk value => Update [toolCallMessage (string_of_list_byte value)] None
                    | StopRequested => StopDuringReduction
                    end) reads'.

Definition exampleReducer (reader : Reader) : Reduction :=
  mkReduction (exampleSteps (reads reader))
    (match readError reader with
     | Some err => inl err
     | None => inr (mkChatApiResult [] [])
     end).

Definition exampleOptions (maxSteps' : Z) (keepLast : bool) (mode : StreamMode)
    : UseChatOptions :=
  mkUseChatOptions maxSteps' keepLast true mode None false false
                   (fun n => "generated").

Definition emptySession : Session := mkSession [] None false None None 0 0 [].

Definition userMessage : Message :=
  mkMessage "user-1" None user "What is the weather in Oslo?" None None None.

Definition pendingToolMessage : Message :=
  mkMessage "assistant-0" None assistant "" None None (Some [weatherCall None]).

Definition completedToolMessage : Message :=
  mkMessage "assistant-0" None assistant "" None None
            (Some [weatherCall (Some (JString "sunny"))]).

Definition okResponse (chunks : list string) : Response :=
  mkResponse true ""
    (Some (mkReader (map (fun c => Chunk (list_byte_of_string c)) chunks) None)).

Definition networkError : Error := newError "Failed to fetch".

Definition callbackError : Error := newError "onResponse failed".

(** Options whose [onResponse] callback throws. *)
Definition throwingOptions : UseChatOptions :=
  mkUseChatOptions 1 false true StreamDataMode
                   (Some (fun _ => Some callbackError)) false false
                   (fun n => "generated").

Definition serverError : Response := mkResponse false "Internal Server Error" None.

(** A body of five expected text deltas of which two arrive before the
    caller invokes stop() and the read is aborted. *)
Definition abortedResponse : Response :=
  mkResponse true ""
    (Some (mkReader [Chunk (list_byte_of_string "Hel");
                     Chunk (list_byte_of_string "lo ");
                     StopRequested]
                    (Some abortError))).

(** Plain-text options with an [onFinish] callback. *)
Definition finishingOptions : UseChatOptions :=
  mkUseChatOptions 1 false true TextMode None false true (fun n => "generated").

(** A body of three chunks; the caller invokes stop() after the first. *)
Definition stoppedResponse : Response :=
  mkResponse true ""
    (Some (mkReader [Chunk (list_byte_of_string "Hel");
                     StopRequested;
                     Chunk (list_byte_of_string "lo");
                     Chunk (list_byte_of_string " world")]
                    None)).

(** An assistant message with two tool calls, both waiting for their
    result. *)
Definition twoCallsMessage : Message :=
  mkMessage "assistant-0" None assistant "" None None
            (Some [weatherCall None;
                   mkToolInvocation "call-2" "getTime" JNull None]).

(** A stand-in for [window.atob] that knows one encoded text. *)
Definition exampleAtob (encoded : string) : Error + string :=
  if String.eqb encoded "SGk=" then inr "Hi"
  else inl (mkError "InvalidCharacterError" "The string is not correctly encoded.").

(* ===================================================================== *)
(** * Facts about the pure helpers *)
(* ===================================================================== *)

Lemma Role_eqb_eq a b : Role_eqb a b = true <-> a = b.
Proof. destruct a, b; simpl; split; congruence. Qed.

Lemma hasResult_complete t : hasResult t = true <-> complete t.
Proof.
  unfold hasResult, complete. destruct (result t); split; congruence.
Qed.

Lemma lastMessageOf_snoc l m : lastMessageOf (l ++ [m]) = Some m.
Proof.
  unfold lastMessageOf. rewrite last_length.
  rewrite nth_error_app2 by lia. now rewrite Nat.sub_diag.
Qed.

Lemma lastMessageOf_Some l m :
  lastMessageOf l = Some m -> exists front, l = front ++ [m].
Proof.
  destruct l as [|x l'] using rev_ind; [discriminate|].
  rewrite lastMessageOf_snoc. intros [= ->]. now exists l'.
Qed.

Lemma isReady_iff m :
  isAssistantMessageWithCompletedToolCalls m = true <-> readyForContinuation m.
Proof.
  unfold isAssistantMessageWithCompletedToolCalls, readyForContinuation.
  rewrite andb_true_iff, Role_eqb_eq.
  split.
  - intros [Hr Hi]. split; [exact Hr|].
    destruct (toolInvocations m) as [invs|]; [|discriminate].
    apply andb_true_iff in Hi. destruct Hi as [Hlen Hall].
    exists invs. repeat split.
    + destruct invs; [discriminate | congruence].
    + rewrite forallb_forall in Hall. apply Forall_forall.
      intros t Ht. now apply hasResult_complete, Hall.
  - intros [Hr (invs & -> & Hne & Hall)]. split; [exact Hr|].
    apply andb_true_iff. split.
    + destruct invs; [congruence | reflexivity].
    + apply forallb_forall. intros t Ht. apply hasResult_complete.
      rewrite Forall_forall in Hall. now apply Hall.
Qed.

Lemma countTrailingLoop_acc l n c :
  countTrailingLoop l n c = c + countTrailingLoop l n 0.
Proof.
  revert c. induction n as [|i IH]; intros c; simpl; [lia|].
  destruct (nth_error l i) as [m|]; [|lia].
  destruct (Role_eqb (role m) assistant); [|lia].
  rewrite (IH (S c)), (IH 1). lia.
Qed.

Lemma countTrailingLoop_app l l' n c :
  n <= length l -> countTrailingLoop (l ++ l') n c = countTrailingLoop l n c.
Proof.
  revert c. induction n as [|i IH]; intros c Hn; simpl; [reflexivity|].
  rewrite nth_error_app1 by lia.
  destruct (nth_error l i) as [m|]; [|reflexivity].
  destruct (Role_eqb (role m) assistant); [|reflexivity].
  apply IH. lia.
Qed.

Lemma countTrailing_snoc l m :
  countTrailingAssistantMessages (l ++ [m]) =
  if isAssistant m then S (countTrailingAssistantMessages l) else 0.
Proof.
  unfold countTrailingAssistantMessages, isAssistant.
  rewrite last_length. simpl.
  rewrite nth_error_app2 by lia. rewrite Nat.sub_diag. simpl.
  destruct (Role_eqb (role m) assistant); [|reflexivity].
  rewrite countTrailingLoop_app by lia.
  now rewrite countTrailingLoop_acc.
Qed.

Lemma countTrailing_app_assistants l merged :
  forallb isAssistant merged = true ->
  countTrailingAssistantMessages (l ++ merged) =
  length merged + countTrailingAssistantMessages l.
Proof.
  induction merged as [|x merged' IH] using rev_ind; intros Hall.
  - now rewrite app_nil_r.
  - rewrite forallb_app in Hall. apply andb_true_iff in Hall.
    destruct Hall as [Hm Hx]. simpl in Hx. rewrite andb_true_r in Hx.
    rewrite app_assoc, countTrailing_snoc, Hx, IH by exact Hm.
    rewrite last_length. lia.
Qed.

Lemma mapWithIndex_length {A B : Type} (f : A -> nat -> B) i l :
  length (mapWithIndex f i l) = length l.
Proof.
  revert i. induction l as [|x l IH]; intros i; simpl; [reflexivity|].
  now rewrite IH.
Qed.

Lemma mapWithIndex_nth_error {A B : Type} (f : A -> nat -> B) i l k :
  nth_error (mapWithIndex f i l) k =
  option_map (fun x => f x (i + k)) (nth_error l k).
Proof.
  revert i k. induction l as [|x l IH]; intros i k; simpl.
  - now destruct k.
  - destruct k as [|k]; simpl.
    + now rewrite Nat.add_0_r.
    + rewrite IH. now replace (S i + k) with (i + S k) by lia.
Qed.

Lemma updatedMessages_length id' r l :
  length (updatedMessages id' r l) = length l.
Proof. apply mapWithIndex_length. Qed.

Lemma updatedMessages_nth_error id' r l k :
  nth_error (updatedMessages id' r l) k =
  option_map (fun m => updateToolCalls id' r l m k) (nth_error l k).
Proof. unfold updatedMessages. now rewrite mapWithIndex_nth_error. Qed.

Lemma updateToolCalls_before_last id' r l m k :
  S k < length l -> updateToolCalls id' r l m k = m.
Proof.
  intros Hk. unfold updateToolCalls.
  replace (k =? length l - 1) with false; [reflexivity|].
  symmetry. apply Nat.eqb_neq. lia.
Qed.

Lemma updatedMessages_snoc id' r l m :
  updatedMessages id' r (l ++ [m]) =
  l ++ [updateToolCalls id' r (l ++ [m]) m (length l)].
Proof.
  apply nth_error_ext. intros k.
  rewrite updatedMessages_nth_error.
  destruct (Nat.lt_ge_cases k (length l)) as [Hk|Hk].
  - rewrite !nth_error_app1 by lia.
    destruct (nth_error l k) as [x|] eqn:E; simpl; [|reflexivity].
    rewrite updateToolCalls_before_last; [reflexivity|].
    rewrite last_length. lia.
  - rewrite !nth_error_app2 by lia.
    destruct (k - length l) as [|j] eqn:E; simpl.
    + now replace k with (length l) by lia.
    + now destruct j.
Qed.

Lemma attachResult_other id' r t :
  toolCallId t <> id' -> attachResult id' r t = t.
Proof.
  intros H. unfold attachResult.
  destruct (String.eqb_spec (toolCallId t) id'); congruence.
Qed.

Lemma attachResult_matching id' r t :
  toolCallId t = id' -> result (attachResult id' r t) = Some r.
Proof.
  intros H. unfold attachResult. rewrite H, String.eqb_refl. reflexivity.
Qed.

Lemma attachResult_complete id' r t :
  complete t -> complete (attachResult id' r t).
Proof.
  unfold attachResult, complete. destruct (String.eqb _ _); simpl; congruence.
Qed.

Lemma countTrailing_last_assistant front lastMessage :
  role lastMessage = assistant ->
  1 <= countTrailingAssistantMessages (front ++ [lastMessage]).
Proof.
  intros Hr. rewrite countTrailing_snoc. unfold isAssistant.
  rewrite Hr. simpl. lia.
Qed.

Lemma shouldAutoSubmit_spec maxSteps' messageCount messages' :
  shouldAutoSubmit maxSteps' messageCount messages' = true <->
  messageCount < length messages' /\
  exists lastMessage,
    lastMessageOf messages' = Some lastMessage /\
    role lastMessage = assistant /\
    readyForContinuation lastMessage /\
    (Z.of_nat (countTrailingAssistantMessages messages') < maxSteps')%Z.
Proof.
  unfold shouldAutoSubmit. rewrite andb_true_iff, Nat.ltb_lt.
  split.
  - intros [Hlen H]. split; [exact Hlen|].
    destruct (lastMessageOf messages') as [lastMessage|]; [|discriminate].
    apply andb_true_iff in H. destruct H as [H Hc].
    apply andb_true_iff in H. destruct H as [_ Hready].
    apply isReady_iff in Hready.
    exists lastMessage. repeat split; try apply Hready. lia.
  - intros [Hlen (lastMessage & Hlast & Hrole & Hready & Hc)].
    split; [exact Hlen|]. rewrite Hlast.
    apply isReady_iff in Hready. rewrite Hready, andb_true_r.
    apply andb_true_iff. split; [|lia].
    destruct (lastMessageOf_Some _ Hlast) as [front ->].
    pose proof (@countTrailing_last_assistant front lastMessage Hrole). lia.
Qed.

(* ===================================================================== *)
(** * Further properties of the helpers of useChat *)
(* ===================================================================== *)

(** X1. [countTrailingAssistantMessages] is the length of the longest run of
    assistant messages that ends the list: the list splits into a front and
    a run of that many assistant messages, and the front is empty or ends
    with a message of another role. *)
Theorem countTrailingAssistantMessages_suffix (messages' : list Message) :
  exists front trailing,
    messages' = front ++ trailing /\
    length trailing = countTrailingAssistantMessages messages' /\
    Forall (fun m => role m = assistant) trailing /\
    (front = [] \/
     exists front' m, front = front' ++ [m] /\ role m <> assistant).
Proof.
  induction messages' as [|m l IH] using rev_ind.
  - exists [], []. repeat split; [constructor | now left].
  - rewrite countTrailing_snoc. unfold isAssistant.
    destruct (Role_eqb (role m) assistant) eqn:Hrole.
    + destruct IH as (front & trailing & Hl & Hlen & Hall & Hfront).
      exists front, (trailing ++ [m]).
      split; [now rewrite app_assoc, <- Hl|].
      split; [rewrite last_length; congruence|].
      split; [|exact Hfront].
      apply Forall_app. split; [exact Hall|].
      constructor; [now apply Role_eqb_eq | constructor].
    + exists (l ++ [m]), []. rewrite app_nil_r.
      split; [reflexivity|]. split; [reflexivity|].
      split; [constructor|]. right. exists l, m. split; [reflexivity|].
      intros H. apply Role_eqb_eq in H. congruence.
Qed.

Lemma updateToolCalls_updateLastMessage id' r front m :
  updateToolCalls id' r (front ++ [m]) m (length front) = updateLastMessage id' r m.
Proof.
  unfold updateToolCalls, updateLastMessage. rewrite last_length.
  replace (length front =? S (length front) - 1) with true; [reflexivity|].
  symmetry. apply Nat.eqb_eq. lia.
Qed.

Lemma updatedMessages_last id' r front m :
  updatedMessages id' r (front ++ [m]) = front ++ [updateLastMessage id' r m].
Proof.
  now rewrite updatedMessages_snoc, updateToolCalls_updateLastMessage.
Qed.

Lemma attachResult_overwrites id' r1 r2 t :
  attachResult id' r2 (attachResult id' r1 t) = attachResult id' r2 t.
Proof.
  unfold attachResult.
  destruct (String.eqb (toolCallId t) id') eqn:E; simpl; now rewrite E.
Qed.

Lemma attachResult_commutes id1 r1 id2 r2 t :
  id1 <> id2 ->
  attachResult id1 r1 (attachResult id2 r2 t) =
  attachResult id2 r2 (attachResult id1 r1 t).
Proof.
  intros Hne. unfold attachResult.
  destruct (String.eqb (toolCallId t) id1) eqn:E1;
    destruct (String.eqb (toolCallId t) id2) eqn:E2;
    simpl; rewrite ?E1, ?E2; try reflexivity.
  apply String.eqb_eq in E1. apply String.eqb_eq in E2. congruence.
Qed.

(** X2. A result recorded twice for the same tool call: the later result
    replaces the earlier one, and the list is the one the later call alone
    would give. Recording the same result again changes nothing. *)
Theorem updatedMessages_overwrites (toolCallId' : string)
    (first second : JSONValue) (messages' : list Message) :
  updatedMessages toolCallId' second (updatedMessages toolCallId' first messages') =
  updatedMessages toolCallId' second messages'.
Proof.
  destruct messages' as [|m front] using rev_ind; [reflexivity|].
  rewrite !updatedMessages_last. f_equal. f_equal.
  unfold updateLastMessage.
  destruct (Role_eqb (role m) assistant) eqn:Hrole; [|now rewrite Hrole].
  destruct (toolInvocations m) as [invocations|] eqn:Hinv; simpl.
  - rewrite Hrole. f_equal. f_equal. rewrite map_map.
    apply map_ext. intros t. apply attachResult_overwrites.
  - now rewrite Hrole, Hinv.
Qed.

(** The maps for two different toolCallIds commute. *)
Lemma updatedMessages_commute (id1 id2 : string) (r1 r2 : JSONValue)
    (messages' : list Message) :
  id1 <> id2 ->
  updatedMessages id1 r1 (updatedMessages id2 r2 messages') =
  updatedMessages id2 r2 (updatedMessages id1 r1 messages').
Proof.
  intros Hne.
  destruct messages' as [|m front] using rev_ind; [reflexivity|].
  rewrite !updatedMessages_last. f_equal. f_equal.
  unfold updateLastMessage.
  destruct (Role_eqb (role m) assistant) eqn:Hrole; [|now rewrite Hrole].
  destruct (toolInvocations m) as [invocations|] eqn:Hinv; simpl.
  - rewrite Hrole. f_equal. f_equal. rewrite !map_map.
    apply map_ext. intros t. now apply attachResult_commutes.
  - now rewrite Hrole, Hinv.
Qed.

Lemma map_attachResult_unknown id' r invocations :
  (forall t, In t invocations -> toolCallId t <> id') ->
  map (attachResult id' r) invocations = invocations.
Proof.
  intros H. rewrite <- (map_id invocations) at 2.
  apply map_ext_in. intros t Ht. now apply attachResult_other, H.
Qed.

(** X4. A result for a toolCallId that no tool invocation of the last
    message carries changes no message: the list stored is the current
    list. *)
Theorem updatedMessages_unknown_id (toolCallId' : string) (result' : JSONValue)
    (messages' : list Message) :
  (forall lastMessage invocations t,
     lastMessageOf messages' = Some lastMessage ->
     toolInvocations lastMessage = Some invocations ->
     In t invocations -> toolCallId t <> toolCallId') ->
  updatedMessages toolCallId' result' messages' = messages'.
Proof.
  intros Hunknown.
  destruct messages' as [|m front] using rev_ind; [reflexivity|].
  rewrite updatedMessages_last. f_equal. f_equal.
  unfold updateLastMessage.
  destruct (Role_eqb (role m) assistant); [|reflexivity].
  destruct (toolInvocations m) as [invocations|] eqn:Hinv; [|reflexivity].
  rewrite map_attachResult_unknown.
  - destruct m; simpl in *. now rewrite Hinv.
  - intros t Ht. apply (Hunknown m invocations t); auto.
    apply lastMessageOf_snoc.
Qed.

Lemma updatedMessages_unknown_id_witness :
  updatedMessages "call-9" (JString "sunny") [userMessage; pendingToolMessage] =
  [userMessage; pendingToolMessage].
Proof.
  apply (@updatedMessages_unknown_id "call-9" (JString "sunny")
           [userMessage; pendingToolMessage]).
  intros lastMessage invocations t Hlast Hinv Ht.
  injection Hlast as <-. injection Hinv as <-.
  destruct Ht as [<-|[]]. discriminate.
Defined.

(* ===================================================================== *)
(** * Relations kept by every step of a computation *)
(* ===================================================================== *)

Section Preservation.

Variable R : Session -> Session -> Prop.
Hypothesis R_refl : forall s, R s s.
Hypothesis R_trans : forall a b c, R a b -> R b c -> R a c.

Lemma preserves_ret {A : Type} (a : A) : preserves R (ret a).
Proof. intros s. apply R_refl. Qed.

Lemma preserves_throw {A : Type} (err : Error) : preserves R (@throw A err).
Proof. intros s. apply R_refl. Qed.

Lemma preserves_pending {A : Type} : preserves R (@pending A).
Proof. intros s. apply R_refl. Qed.

Lemma preserves_gets {A : Type} (f : Session -> A) : preserves R (gets f).
Proof. intros s. apply R_refl. Qed.

Lemma preserves_modify (f : Session -> Session) :
  (forall s, R s (f s)) -> preserves R (modify f).
Proof. intros H s. apply H. Qed.

Lemma preserves_bind {A B : Type} (m : Async A) (k : A -> Async B) :
  preserves R m -> (forall a, preserves R (k a)) -> preserves R (bind m k).
Proof.
  intros Hm Hk s. unfold bind. specialize (Hm s).
  destruct (m s) as [[a|err|] s']; simpl in *; [|exact Hm|exact Hm].
  eapply R_trans; [exact Hm|apply Hk].
Qed.

Lemma preserves_tryCatchFinally {A : Type} (body : Async A)
    (handler : Error -> Async A) (cleanup : Async unit) :
  preserves R body -> (forall err, preserves R (handler err)) ->
  preserves R cleanup -> preserves R (tryCatchFinally body handler cleanup).
Proof.
  intros Hb Hh Hc s. unfold tryCatchFinally. specialize (Hb s).
  destruct (body s) as [[a|err|] s']; simpl in *; [| |exact Hb].
  - eapply R_trans; [exact Hb|].
    apply preserves_bind; [exact Hc | intros; apply preserves_ret].
  - specialize (Hh err s').
    destruct (handler err s') as [[a|err'|] s'']; simpl in *.
    + eapply R_trans; [exact Hb|]. eapply R_trans; [exact Hh|].
      apply preserves_bind; [exact Hc | intros; apply preserves_ret].
    + eapply R_trans; [exact Hb|]. eapply R_trans; [exact Hh|].
      apply preserves_bind; [exact Hc | intros; apply preserves_throw].
    + eapply R_trans; [exact Hb|exact Hh].
Qed.

End Preservation.

Lemma total_ret {A : Type} (a : A) : total (ret a).
Proof. intros s. exact I. Qed.

Lemma total_throw {A : Type} (err : Error) : total (@throw A err).
Proof. intros s. exact I. Qed.

Lemma total_gets {A : Type} (f : Session -> A) : total (gets f).
Proof. intros s. exact I. Qed.

Lemma total_modify (f : Session -> Session) : total (modify f).
Proof. intros s. exact I. Qed.

Lemma total_bind {A B : Type} (m : Async A) (k : A -> Async B) :
  total m -> (forall a, total (k a)) -> total (bind m k).
Proof.
  intros Hm Hk s. unfold bind. specialize (Hm s).
  destruct (m s) as [[a|err|] s']; simpl in *; auto. apply Hk.
Qed.

Lemma stop_total : total stop.
Proof. intros s. unfold stop. now destruct (abortControllerRef s). Qed.

Ltac total_step :=
  first
    [ apply total_bind
    | apply total_ret
    | apply total_throw
    | apply total_gets
    | apply total_modify
    | apply stop_total ].

Lemma quiet_refl s : quiet s s.
Proof. split; try reflexivity. exists []. now rewrite app_nil_r. Qed.

Lemma quiet_trans a b c : quiet a b -> quiet b c -> quiet a c.
Proof.
  intros [H1 H2 H3 [e1 H4]] [K1 K2 K3 [e2 K4]]. split; try congruence.
  exists (e1 ++ e2). now rewrite K4, H4, app_assoc.
Qed.

Lemma requestsIssued_app e1 e2 :
  requestsIssued (e1 ++ e2) = requestsIssued e1 ++ requestsIssued e2.
Proof. apply flat_map_app. Qed.

Ltac quiet_step :=
  first
    [ apply (@preserves_bind quiet quiet_trans)
    | apply (@preserves_ret quiet quiet_refl)
    | apply (@preserves_throw quiet quiet_refl)
    | apply (@preserves_pending quiet quiet_refl)
    | apply (@preserves_gets quiet quiet_refl)
    | apply (@preserves_tryCatchFinally quiet quiet_refl quiet_trans) ].

(** A store update that logs an event other than [TriggerRequest]. *)
Ltac quiet_leaf :=
  split; simpl; try reflexivity;
  [ now rewrite requestsIssued_app, app_nil_r
  | eexists; reflexivity ].

Lemma mutate_quiet ms : preserves quiet (mutate ms).
Proof. apply preserves_modify. intros s. quiet_leaf. Qed.

Lemma mutateStreamData_quiet d : preserves quiet (mutateStreamData d).
Proof. apply preserves_modify. intros s. quiet_leaf. Qed.

Lemma stop_quiet : preserves quiet stop.
Proof.
  intros s. unfold stop. destruct (abortControllerRef s); simpl.
  - quiet_leaf.
  - apply quiet_refl.
Qed.

Lemma calm_trans a b c : calm a b -> calm b c -> calm a c.
Proof.
  intros [H1 [e1 H4]] [K1 [e2 K4]]. split; [congruence|].
  exists (e1 ++ e2). now rewrite K4, H4, app_assoc.
Qed.

Lemma quiet_calm s s' : quiet s s' -> calm s s'.
Proof. intros [H1 _ _ H4]. now split. Qed.

Ltac calm_leaf :=
  split; simpl;
  [ now rewrite requestsIssued_app, app_nil_r
  | eexists; reflexivity ].

(* ===================================================================== *)
(** * Facts about callChatApi and the request round *)
(* ===================================================================== *)

Section CycleFacts.

Variable DecoderState : Type.
Variable createChunkDecoder : DecoderState.
Variable decoder : DecoderState -> list byte -> DecoderState * string.
Variable parseComplexResponse : Reader -> Reduction.
Variable options : UseChatOptions.

Local Notation consumeResponse' :=
  (consumeResponse createChunkDecoder decoder parseComplexResponse options).
Local Notation callChatApi' :=
  (callChatApi createChunkDecoder decoder parseComplexResponse options).
Local Notation getStreamedResponse' :=
  (getStreamedResponse createChunkDecoder decoder parseComplexResponse options).
Local Notation requestRound' :=
  (requestRound createChunkDecoder decoder parseComplexResponse options).
Local Notation triggerRequest' :=
  (triggerRequest createChunkDecoder decoder parseComplexResponse options).
Local Notation addToolResult' :=
  (addToolResult createChunkDecoder decoder parseComplexResponse options).
Local Notation reload' :=
  (reload createChunkDecoder decoder parseComplexResponse options).
Local Notation append' :=
  (append createChunkDecoder decoder parseComplexResponse options).

Lemma nextGeneratedId_quiet : preserves quiet (nextGeneratedId options).
Proof.
  intros s. split; simpl; try reflexivity. exists []. now rewrite app_nil_r.
Qed.

Lemma callOnFinish_quiet m : preserves quiet (callOnFinish options m).
Proof.
  unfold callOnFinish. destruct (onFinish options).
  - apply preserves_modify. intros s. quiet_leaf.
  - quiet_step.
Qed.

Lemma callOnResponse_quiet r : preserves quiet (callOnResponse options r).
Proof.
  unfold callOnResponse. destruct (onResponse options) as [f|]; [|quiet_step].
  destruct (f r); quiet_step.
Qed.

Lemma readTextStream_quiet onUpdate st m remaining ending :
  (forall merged data, preserves quiet (onUpdate merged data)) ->
  preserves quiet (readTextStream decoder options onUpdate st m remaining ending).
Proof.
  intros Hup. revert st m.
  induction remaining as [|[value|] rest IH]; intros st m; simpl.
  - destruct ending; quiet_step.
  - destruct (decoder st value) as [st' text].
    quiet_step; [apply nextGeneratedId_quiet|]. intros newId.
    quiet_step; [apply Hup|]. intros _.
    quiet_step; [quiet_step|]. intros [c|]; [apply IH|quiet_step].
  - quiet_step; [apply stop_quiet|]. intros _. apply IH.
Qed.

Lemma runReduction_quiet onUpdate remaining ending :
  (forall merged data, preserves quiet (onUpdate merged data)) ->
  preserves quiet (runReduction onUpdate remaining ending).
Proof.
  intros Hup.
  induction remaining as [|[merged data|] rest IH]; simpl.
  - destruct ending; quiet_step.
  - quiet_step; [apply Hup|]. intros _. apply IH.
  - quiet_step; [apply stop_quiet|]. intros _. apply IH.
Qed.

Lemma awaitFetch_quiet restore fetched :
  preserves quiet restore ->
  preserves quiet (awaitFetch restore fetched).
Proof.
  intros Hr. unfold awaitFetch.
  destruct fetched as [[err| |response]|]; repeat (quiet_step; intros);
    auto using stop_quiet.
Qed.

Lemma consumeResponse_quiet mode restore onUpdate response :
  preserves quiet restore ->
  (forall merged data, preserves quiet (onUpdate merged data)) ->
  preserves quiet (consumeResponse' mode restore onUpdate response).
Proof.
  intros Hr Hup. unfold consumeResponse.
  quiet_step; [apply callOnResponse_quiet|]. intros _.
  destruct (negb (ok response)).
  - quiet_step; [exact Hr|]. intros _. quiet_step.
  - destruct (body response) as [reader|]; [|quiet_step].
    destruct mode.
    + quiet_step; [apply nextGeneratedId_quiet|]. intros firstId.
      quiet_step; [quiet_step|]. intros now.
      quiet_step; [now apply readTextStream_quiet|]. intros m.
      quiet_step; [apply callOnFinish_quiet|]. intros _. quiet_step.
    + now apply runReduction_quiet.
Qed.

Lemma callChatApi_quiet payload mode restore onUpdate fetched :
  preserves quiet restore ->
  (forall merged data, preserves quiet (onUpdate merged data)) ->
  preserves quiet (callChatApi' payload mode restore onUpdate fetched).
Proof.
  intros Hr Hup. unfold callChatApi.
  quiet_step; [apply preserves_modify; intros s; quiet_leaf|]. intros _.
  quiet_step; [now apply awaitFetch_quiet|]. intros response.
  now apply consumeResponse_quiet.
Qed.

Lemma restoreMessagesOnFailure_quiet previous :
  preserves quiet (restoreMessagesOnFailure options previous).
Proof.
  unfold restoreMessagesOnFailure.
  destruct (keepLastMessageOnError options); [quiet_step|apply mutate_quiet].
Qed.

Lemma onUpdate_quiet chatRequest existing merged data :
  preserves quiet (onUpdate chatRequest existing merged data).
Proof.
  unfold onUpdate. quiet_step; [apply mutate_quiet|]. intros _.
  apply mutateStreamData_quiet.
Qed.

Lemma getStreamedResponse_quiet chatRequest fetched :
  preserves quiet (getStreamedResponse' chatRequest fetched).
Proof.
  unfold getStreamedResponse.
  quiet_step; [quiet_step|]. intros previousMessages.
  quiet_step; [apply mutate_quiet|]. intros _.
  quiet_step; [quiet_step|]. intros existingData.
  apply callChatApi_quiet.
  - apply restoreMessagesOnFailure_quiet.
  - intros merged data. apply onUpdate_quiet.
Qed.

(** [getStreamedResponse] from the point where its request is on the wire. *)
Lemma getStreamedResponse_unfold chatRequest fetched s :
  getStreamedResponse' chatRequest fetched s =
  (response <- awaitFetch (restoreMessagesOnFailure options (messages s)) fetched ;;
   consumeResponse' (streamProtocol options)
     (restoreMessagesOnFailure options (messages s))
     (onUpdate chatRequest (streamData s)) response)
    (requested options chatRequest s).
Proof. reflexivity. Qed.

Lemma getStreamedResponse_trace chatRequest fetched s :
  exists rest,
    trace (snd (getStreamedResponse' chatRequest fetched s)) =
    trace s ++
    MutateMessages chatRequest ::
    Fetch (constructedMessagesPayload (sendExtraMessageFields options) chatRequest) ::
    rest.
Proof.
  rewrite getStreamedResponse_unfold.
  match goal with
  | |- context [snd (?m (requested options chatRequest s))] =>
      assert (preserves quiet m) as Hq
  end.
  { quiet_step; [apply awaitFetch_quiet, restoreMessagesOnFailure_quiet|].
    intros response. apply consumeResponse_quiet.
    - apply restoreMessagesOnFailure_quiet.
    - intros merged data. apply onUpdate_quiet. }
  destruct (quiet_trace (Hq (requested options chatRequest s))) as [rest Hrest].
  exists rest. rewrite Hrest. simpl. now rewrite <- !app_assoc.
Qed.

Lemma requestRound_unfold chatRequest fetched s :
  requestRound' chatRequest fetched s =
  match getStreamedResponse' chatRequest fetched (started s) with
  | (Returns _, s') => (Returns None, settled (withAbortController None s'))
  | (Throws err, s') =>
      if isAbortError err
      then (Returns (Some ReturnsNull), settled (withAbortController None s'))
      else (Returns None, settled (failed options err s'))
  | (Pending, s') => (Pending, s')
  end.
Proof.
  unfold requestRound, tryCatchFinally, processChatStream.
  unfold bind at 1 2 3. simpl. fold (started s).
  unfold bind at 1 2.
  destruct (getStreamedResponse' chatRequest fetched (started s))
    as [[r|err|] s']; simpl; try reflexivity.
  destruct (isAbortError err); simpl; [reflexivity|].
  unfold callOnError, failed, bind.
  destruct (onError options); reflexivity.
Qed.

Lemma snd_bind_ret {A B : Type} (m : Async A) (b : B) s :
  snd ((m ;; ret b) s) = snd (m s).
Proof. unfold bind. now destruct (m s) as [[a|err|] s']. Qed.

Lemma settles_bind_ret {A B : Type} (m : Async A) (b : B) s :
  settles (fst ((m ;; ret b) s)) <-> settles (fst (m s)).
Proof. unfold bind. now destruct (m s) as [[a|err|] s']. Qed.

Lemma started_calm s : calm s (started s).
Proof.
  split; simpl.
  - now rewrite <- app_assoc, requestsIssued_app, app_nil_r.
  - exists [MutateLoading true; SetError None]. now rewrite <- app_assoc.
Qed.

Lemma settled_calm s : calm s (settled s).
Proof. calm_leaf. Qed.

Lemma failed_calm err s : calm s (failed options err s).
Proof.
  unfold failed. destruct (onError options); split; simpl.
  - now rewrite <- app_assoc, requestsIssued_app, app_nil_r.
  - exists [OnError err; SetError (Some err)]. now rewrite <- app_assoc.
  - now rewrite requestsIssued_app, app_nil_r.
  - now exists [SetError (Some err)].
Qed.

Lemma withAbortController_calm c s : calm s (withAbortController c s).
Proof. split; simpl; [reflexivity|]. exists []. now rewrite app_nil_r. Qed.

Lemma requestRound_calm chatRequest fetched :
  preserves calm (requestRound' chatRequest fetched).
Proof.
  intros s. rewrite requestRound_unfold.
  pose proof (quiet_calm (getStreamedResponse_quiet chatRequest fetched (started s)))
    as Hq.
  pose proof (started_calm s) as Hs.
  destruct (getStreamedResponse' chatRequest fetched (started s))
    as [[r|err|] s']; simpl in *.
  - eauto using calm_trans, settled_calm, withAbortController_calm.
  - destruct (isAbortError err); simpl;
      eauto using calm_trans, settled_calm, withAbortController_calm, failed_calm.
  - eauto using calm_trans.
Qed.

Lemma triggerRequest_unfold network chatRequest s :
  triggerRequest' network chatRequest s =
  match requestRound' chatRequest (hd_error network)
                      (emit (TriggerRequest chatRequest) s) with
  | (Returns (Some returned), s') => (Returns returned, s')
  | (Returns None, s') =>
      if shouldAutoSubmit (maxSteps options) (length (messages s)) (messages s')
      then match network with
           | _ :: rest =>
               (triggerRequest' rest (messages s') ;; ret ReturnsUndefined) s'
           | [] => (Pending, s')
           end
      else (Returns ReturnsUndefined, s')
  | (Throws err, s') => (Throws err, s')
  | (Pending, s') => (Pending, s')
  end.
Proof. destruct network; reflexivity. Qed.

Lemma requestRound_requests chatRequest fetched s :
  requestsIssued
    (trace (snd (requestRound' chatRequest fetched
                   (emit (TriggerRequest chatRequest) s)))) =
  requestsIssued (trace s) ++ [chatRequest].
Proof.
  rewrite (calm_requests (requestRound_calm chatRequest fetched _)).
  simpl. now rewrite requestsIssued_app.
Qed.

(** The condition under which a payload was sent automatically. *)
Lemma shouldAutoSubmit_bound n ms :
  shouldAutoSubmit (maxSteps options) n ms = true ->
  (Z.of_nat (countTrailingAssistantMessages ms) < maxSteps options)%Z /\
  (1 < maxSteps options)%Z.
Proof.
  unfold shouldAutoSubmit. intros H.
  apply andb_true_iff in H. destruct H as [_ H].
  destruct (lastMessageOf ms); [|discriminate].
  apply andb_true_iff in H. destruct H as [H Hc].
  apply andb_true_iff in H. destruct H as [Hm _].
  split; lia.
Qed.

Lemma triggerRequest_requests network chatRequest s :
  exists automatic,
    requestsIssued (trace (snd (triggerRequest' network chatRequest s))) =
      requestsIssued (trace s) ++ chatRequest :: automatic /\
    Forall (fun payload =>
              (Z.of_nat (countTrailingAssistantMessages payload)
               < maxSteps options)%Z /\ (1 < maxSteps options)%Z)
           automatic.
Proof.
  revert chatRequest s.
  induction network as [|fetched rest IH]; intros chatRequest s;
    rewrite triggerRequest_unfold.
  - pose proof (requestRound_requests chatRequest None s) as Hnil.
    simpl hd_error.
    destruct (requestRound' chatRequest None (emit (TriggerRequest chatRequest) s))
      as [[[returned|]|err|] s']; simpl in *;
      try (exists []; split; [exact Hnil|constructor]).
    destruct (shouldAutoSubmit _ _ _); simpl;
      exists []; split; auto.
  - pose proof (requestRound_requests chatRequest (Some fetched) s) as Hcons.
    simpl hd_error.
    destruct (requestRound' chatRequest (Some fetched)
                (emit (TriggerRequest chatRequest) s))
      as [[[returned|]|err|] s']; simpl in *;
      try (exists []; split; [exact Hcons|constructor]).
    destruct (shouldAutoSubmit (maxSteps options) (length (messages s))
                (messages s')) eqn:Hauto; simpl.
    + rewrite snd_bind_ret.
      destruct (IH (messages s') s') as (more & Hmore & Hall).
      exists (messages s' :: more). split.
      * rewrite Hmore, Hcons, <- app_assoc. reflexivity.
      * constructor; [|exact Hall].
        eapply shouldAutoSubmit_bound; eassumption.
    + exists []. split; auto.
Qed.

Lemma readTextStream_total update st m remaining ending :
  (forall merged data, total (update merged data)) ->
  total (readTextStream decoder options update st m remaining ending).
Proof.
  intros Hup. revert st m.
  induction remaining as [|[value|] rest IH]; intros st m; simpl.
  - destruct ending; total_step.
  - destruct (decoder st value) as [st' text].
    total_step; [intros s; exact I|]. intros newId.
    total_step; [apply Hup|]. intros _.
    total_step; [total_step|]. intros [c|]; [apply IH|total_step].
  - total_step; [total_step|]. intros _. apply IH.
Qed.

Lemma runReduction_total update remaining ending :
  (forall merged data, total (update merged data)) ->
  total (runReduction update remaining ending).
Proof.
  intros Hup.
  induction remaining as [|[merged data|] rest IH]; simpl.
  - destruct ending; total_step.
  - total_step; [apply Hup|]. intros _. apply IH.
  - total_step; [total_step|]. intros _. apply IH.
Qed.

Lemma restoreMessagesOnFailure_total previous :
  total (restoreMessagesOnFailure options previous).
Proof.
  unfold restoreMessagesOnFailure.
  destruct (keepLastMessageOnError options); total_step.
Qed.

Lemma onUpdate_total chatRequest existing merged data :
  total (onUpdate chatRequest existing merged data).
Proof. unfold onUpdate. total_step; [total_step|]. intros _. total_step. Qed.

Lemma consumeResponse_total mode restore update response :
  total restore ->
  (forall merged data, total (update merged data)) ->
  total (consumeResponse' mode restore update response).
Proof.
  intros Hr Hup. unfold consumeResponse.
  total_step.
  { unfold callOnResponse. destruct (onResponse options) as [f|]; [|total_step].
    destruct (f response); total_step. }
  intros _. destruct (negb (ok response)).
  - total_step; [exact Hr|]. intros _. total_step.
  - destruct (body response) as [reader|]; [|total_step].
    destruct mode.
    + total_step; [intros s; exact I|]. intros firstId.
      total_step; [total_step|]. intros now.
      total_step; [now apply readTextStream_total|]. intros m.
      total_step; [|intros _; total_step].
      unfold callOnFinish. destruct (onFinish options); total_step.
    + now apply runReduction_total.
Qed.

Lemma getStreamedResponse_settles chatRequest fetched s :
  settles (fst (getStreamedResponse' chatRequest (Some fetched) s)).
Proof.
  rewrite getStreamedResponse_unfold.
  match goal with
  | |- settles (fst (?m ?s0)) => generalize s0; change (total m)
  end.
  total_step.
  - unfold awaitFetch.
    destruct fetched as [err| |response]; repeat (total_step; intros);
      apply restoreMessagesOnFailure_total.
  - intros response. apply consumeResponse_total.
    + apply restoreMessagesOnFailure_total.
    + intros merged data. apply onUpdate_total.
Qed.

Lemma requestRound_settles chatRequest fetched s :
  exists returned s',
    requestRound' chatRequest (Some fetched) s = (Returns returned, s').
Proof.
  rewrite requestRound_unfold.
  pose proof (getStreamedResponse_settles chatRequest fetched (started s)) as H.
  destruct (getStreamedResponse' chatRequest (Some fetched) (started s))
    as [[r|err|] s']; simpl in H; [| |contradiction].
  - eauto.
  - destruct (isAbortError err); eauto.
Qed.

Lemma requestRound_pending chatRequest s :
  fst (requestRound' chatRequest None s) = Pending.
Proof. reflexivity. Qed.

Lemma requestRound_loading chatRequest fetched s :
  settles (fst (requestRound' chatRequest fetched s)) ->
  isLoading (snd (requestRound' chatRequest fetched s)) = false.
Proof.
  rewrite requestRound_unfold.
  destruct (getStreamedResponse' chatRequest fetched (started s))
    as [[r|err|] s']; simpl; try reflexivity; try contradiction.
  now destruct (isAbortError err).
Qed.

Section MessagesKept.

Variable P : list Message -> Prop.
Variable Q : list Message -> Prop.
Variable chatRequest : list Message.
Hypothesis update_allowed : forall merged, Q merged -> P (chatRequest ++ merged).

Lemma keeps_refl s : keeps P s s.
Proof. intros H. exact H. Qed.

Lemma keeps_trans a b c : keeps P a b -> keeps P b c -> keeps P a c.
Proof. unfold keeps. auto. Qed.

Lemma keeps_same s s' : messages s' = messages s -> keeps P s s'.
Proof. intros E H. now rewrite E. Qed.

Ltac keeps_step :=
  first
    [ apply (@preserves_bind (keeps P) keeps_trans)
    | apply (@preserves_ret (keeps P) keeps_refl)
    | apply (@preserves_throw (keeps P) keeps_refl)
    | apply (@preserves_pending (keeps P) keeps_refl)
    | apply (@preserves_gets (keeps P) keeps_refl) ].

Lemma stop_keeps : preserves (keeps P) stop.
Proof.
  intros s. apply keeps_same. unfold stop.
  now destruct (abortControllerRef s).
Qed.

Lemma nextGeneratedId_keeps : preserves (keeps P) (nextGeneratedId options).
Proof. intros s. now apply keeps_same. Qed.

Lemma callOnFinish_keeps m : preserves (keeps P) (callOnFinish options m).
Proof.
  intros s. apply keeps_same. unfold callOnFinish.
  now destruct (onFinish options).
Qed.

Lemma callOnResponse_keeps r : preserves (keeps P) (callOnResponse options r).
Proof.
  intros s. apply keeps_same. unfold callOnResponse.
  destruct (onResponse options) as [f|]; [|reflexivity].
  now destruct (f r).
Qed.

Lemma onUpdate_keeps existing merged data :
  Q merged -> preserves (keeps P) (onUpdate chatRequest existing merged data).
Proof. intros HQ s _. simpl. now apply update_allowed. Qed.

Lemma readTextStream_keeps existing st m remaining ending :
  (forall m', role m' = assistant -> Q [m']) ->
  role m = assistant ->
  preserves (keeps P)
    (readTextStream decoder options (onUpdate chatRequest existing)
       st m remaining ending).
Proof.
  intros HQ. revert st m.
  induction remaining as [|[value|] rest IH]; intros st m Hrole; simpl.
  - destruct ending; keeps_step.
  - destruct (decoder st value) as [st' text].
    keeps_step; [apply nextGeneratedId_keeps|]. intros newId.
    keeps_step; [apply onUpdate_keeps, HQ, Hrole|]. intros _.
    keeps_step; [keeps_step|]. intros [c|]; [now apply IH|keeps_step].
  - keeps_step; [apply stop_keeps|]. intros _. now apply IH.
Qed.

Lemma runReduction_keeps existing remaining ending :
  Forall (fun step => match step with
                      | Update merged _ => Q merged
                      | StopDuringReduction => True
                      end) remaining ->
  preserves (keeps P) (runReduction (onUpdate chatRequest existing) remaining ending).
Proof.
  induction remaining as [|[merged data|] rest IH]; intros Hall; simpl;
    inversion Hall; subst.
  - destruct ending; keeps_step.
  - keeps_step; [now apply onUpdate_keeps|]. intros _. now apply IH.
  - keeps_step; [apply stop_keeps|]. intros _. now apply IH.
Qed.

Lemma consumeResponse_keeps restore existing response :
  (ok response = false -> preserves (keeps P) restore) ->
  (forall m', role m' = assistant -> Q [m']) ->
  (forall reader, body response = Some reader ->
     streamProtocol options = StreamDataMode ->
     Forall (fun step => match step with
                         | Update merged _ => Q merged
                         | StopDuringReduction => True
                         end) (steps (parseComplexResponse reader))) ->
  preserves (keeps P)
    (consumeResponse' (streamProtocol options) restore
       (onUpdate chatRequest existing) response).
Proof.
  intros Hr HQ Hsteps. unfold consumeResponse.
  keeps_step; [apply callOnResponse_keeps|]. intros _.
  destruct (ok response); simpl.
  - destruct (body response) as [reader|]; [|keeps_step].
    destruct (streamProtocol options) eqn:Hmode.
    + keeps_step; [apply nextGeneratedId_keeps|]. intros firstId.
      keeps_step; [keeps_step|]. intros now.
      keeps_step; [now apply readTextStream_keeps|]. intros m.
      keeps_step; [apply callOnFinish_keeps|]. intros _. keeps_step.
    + apply runReduction_keeps. now apply Hsteps.
  - keeps_step; [now apply Hr|]. intros _. keeps_step.
Qed.

Lemma exchange_keeps restore existing fetched :
  preserves (keeps P) restore ->
  (forall m', role m' = assistant -> Q [m']) ->
  (forall reader,
     Forall (fun step => match step with
                         | Update merged _ => Q merged
                         | StopDuringReduction => True
                         end) (steps (parseComplexResponse reader))) ->
  preserves (keeps P)
    (response <- awaitFetch restore fetched ;;
     consumeResponse' (streamProtocol options) restore
       (onUpdate chatRequest existing) response).
Proof.
  intros Hr HQ Hsteps.
  keeps_step.
  - unfold awaitFetch.
    destruct fetched as [[err| |response]|]; repeat (keeps_step; intros);
      auto using stop_keeps.
  - intros response. apply consumeResponse_keeps; auto.
Qed.

End MessagesKept.

Lemma requestRound_messages chatRequest fetched s :
  reducerCreatesAssistantMessages parseComplexResponse ->
  roundMessages (messages s) chatRequest
    (messages (snd (requestRound' chatRequest fetched s))).
Proof.
  intros Hred.
  assert (roundMessages (messages s) chatRequest
            (messages (snd (getStreamedResponse' chatRequest fetched (started s)))))
    as Hround.
  { rewrite getStreamedResponse_unfold.
    apply (@exchange_keeps (roundMessages (messages s) chatRequest)
             (fun merged => forallb isAssistant merged = true) chatRequest).
    - intros merged Hm. right. now exists merged.
    - unfold restoreMessagesOnFailure.
      destruct (keepLastMessageOnError options).
      + apply preserves_ret. apply keeps_refl.
      + intros s0 _. simpl. now left.
    - intros m' Hm. simpl. unfold isAssistant. now rewrite Hm.
    - exact Hred.
    - right. exists []. simpl. split; [reflexivity|]. now rewrite app_nil_r. }
  rewrite requestRound_unfold.
  destruct (getStreamedResponse' chatRequest fetched (started s))
    as [[r|err|] s']; simpl in *; try exact Hround.
  destruct (isAbortError err); simpl; [exact Hround|].
  unfold failed. now destruct (onError options).
Qed.

Lemma triggerRequest_steady_count network :
  reducerCreatesAssistantMessages parseComplexResponse ->
  forall chatRequest s,
    chatRequest = messages s ->
    (Z.of_nat (length (requestsIssued
                 (trace (snd (triggerRequest' network chatRequest s)))))
     <= Z.of_nat (length (requestsIssued (trace s))) + 1 +
        Z.max 0 (maxSteps options - 1 -
                 Z.of_nat (countTrailingAssistantMessages chatRequest)))%Z.
Proof.
  intros Hred.
  induction network as [|fetched rest IH]; intros chatRequest s Hsteady;
    rewrite triggerRequest_unfold; simpl hd_error.
  - pose proof (requestRound_requests chatRequest None s) as Hreq.
    destruct (requestRound' chatRequest None (emit (TriggerRequest chatRequest) s))
      as [[[returned|]|err|] s']; simpl in *;
      try destruct (shouldAutoSubmit _ _ _); simpl;
      rewrite Hreq, length_app; simpl; lia.
  - pose proof (requestRound_requests chatRequest (Some fetched) s) as Hreq.
    pose proof (@requestRound_messages chatRequest (Some fetched)
                  (emit (TriggerRequest chatRequest) s) Hred) as Hms.
    destruct (requestRound' chatRequest (Some fetched)
                (emit (TriggerRequest chatRequest) s))
      as [[[returned|]|err|] s']; simpl in *;
      try (rewrite Hreq, length_app; simpl; lia).
    destruct (shouldAutoSubmit (maxSteps options) (length (messages s))
                (messages s')) eqn:Hauto; simpl;
      [|rewrite Hreq, length_app; simpl; lia].
    rewrite snd_bind_ret.
    specialize (IH (messages s') s' eq_refl).
    rewrite Hreq, length_app in IH. simpl in IH.
    apply shouldAutoSubmit_spec in Hauto.
    destruct Hauto as [Hlen (lastMessage & _ & _ & _ & Hc)].
    destruct Hms as [Hsame|(merged & Hassist & Hext)];
      [rewrite Hsame in Hlen; lia|].
    rewrite Hext in Hlen, Hc, IH. rewrite Hext.
    rewrite countTrailing_app_assistants in Hc, IH by exact Hassist.
    rewrite length_app, <- Hsteady in Hlen.
    lia.
Qed.

Lemma triggerRequest_count network chatRequest s :
  reducerCreatesAssistantMessages parseComplexResponse ->
  (Z.of_nat (length (requestsIssued
               (trace (snd (triggerRequest' network chatRequest s)))))
   <= Z.of_nat (length (requestsIssued (trace s))) + 1 +
      Z.max 0 (maxSteps options - 1))%Z.
Proof.
  intros Hred. rewrite triggerRequest_unfold.
  pose proof (requestRound_requests chatRequest (hd_error network) s) as Hreq.
  destruct (requestRound' chatRequest (hd_error network)
              (emit (TriggerRequest chatRequest) s))
    as [[[returned|]|err|] s']; simpl in *;
    try (rewrite Hreq, length_app; simpl; lia).
  destruct (shouldAutoSubmit (maxSteps options) (length (messages s))
              (messages s')) eqn:Hauto; simpl;
    [|rewrite Hreq, length_app; simpl; lia].
  destruct network as [|fetched rest]; simpl;
    [rewrite Hreq, length_app; simpl; lia|].
  rewrite snd_bind_ret.
  pose proof (@triggerRequest_steady_count rest Hred (messages s') s' eq_refl)
    as Hsteady.
  rewrite Hreq, length_app in Hsteady. simpl in Hsteady.
  apply shouldAutoSubmit_spec in Hauto.
  destruct Hauto as [_ (lastMessage & Hlast & Hrole & _ & Hc)].
  destruct (lastMessageOf_Some _ Hlast) as [front Hfront].
  pose proof (@countTrailing_last_assistant front lastMessage Hrole) as Hone.
  rewrite <- Hfront in Hone.
  lia.
Qed.

Lemma requestRound_trace chatRequest fetched s :
  exists rest,
    trace (snd (requestRound' chatRequest fetched s)) =
    trace s ++
    MutateLoading true :: SetError None :: MutateMessages chatRequest ::
    Fetch (constructedMessagesPayload (sendExtraMessageFields options) chatRequest) ::
    rest.
Proof.
  rewrite requestRound_unfold.
  destruct (getStreamedResponse_trace chatRequest fetched (started s))
    as [rest Hrest].
  destruct (getStreamedResponse' chatRequest fetched (started s))
    as [[r|err|] s']; simpl in *.
  - exists (rest ++ [MutateLoading false]).
    rewrite Hrest, <- !app_assoc. reflexivity.
  - destruct (isAbortError err); simpl.
    + exists (rest ++ [MutateLoading false]).
      rewrite Hrest, <- !app_assoc. reflexivity.
    + unfold failed. destruct (onError options); simpl.
      * exists (rest ++ [OnError err; SetError (Some err); MutateLoading false]).
        rewrite Hrest, <- !app_assoc. reflexivity.
      * exists (rest ++ [SetError (Some err); MutateLoading false]).
        rewrite Hrest, <- !app_assoc. reflexivity.
  - exists rest. rewrite Hrest, <- !app_assoc. reflexivity.
Qed.

Lemma triggerRequest_extends network chatRequest s :
  exists events,
    trace (snd (triggerRequest' network chatRequest s)) = trace s ++ events.
Proof.
  revert chatRequest s.
  induction network as [|fetched rest IH]; intros chatRequest s;
    rewrite triggerRequest_unfold; simpl hd_error.
  - destruct (calm_trace (requestRound_calm chatRequest None
                            (emit (TriggerRequest chatRequest) s))) as [ev Hev].
    change (trace (emit (TriggerRequest chatRequest) s))
      with (trace s ++ [TriggerRequest chatRequest]) in Hev.
    rewrite <- app_assoc in Hev.
    destruct (requestRound' chatRequest None (emit (TriggerRequest chatRequest) s))
      as [[[returned|]|err|] s']; simpl in *;
      try destruct (shouldAutoSubmit _ _ _); simpl; eauto.
  - destruct (calm_trace (requestRound_calm chatRequest (Some fetched)
                            (emit (TriggerRequest chatRequest) s))) as [ev Hev].
    change (trace (emit (TriggerRequest chatRequest) s))
      with (trace s ++ [TriggerRequest chatRequest]) in Hev.
    rewrite <- app_assoc in Hev.
    destruct (requestRound' chatRequest (Some fetched)
                (emit (TriggerRequest chatRequest) s))
      as [[[returned|]|err|] s']; simpl in *; eauto.
    destruct (shouldAutoSubmit _ _ _); simpl; eauto.
    rewrite snd_bind_ret.
    destruct (IH (messages s') s') as [ev' Hev'].
    rewrite Hev', Hev, <- app_assoc. eauto.
Qed.

Lemma triggerRequest_trace network chatRequest s :
  exists rest,
    trace (snd (triggerRequest' network chatRequest s)) =
    trace s ++
    TriggerRequest chatRequest ::
    MutateLoading true :: SetError None :: MutateMessages chatRequest ::
    Fetch (constructedMessagesPayload (sendExtraMessageFields options) chatRequest) ::
    rest.
Proof.
  rewrite triggerRequest_unfold.
  destruct (requestRound_trace chatRequest (hd_error network)
              (emit (TriggerRequest chatRequest) s)) as [rest Hrest].
  change (trace (emit (TriggerRequest chatRequest) s))
    with (trace s ++ [TriggerRequest chatRequest]) in Hrest.
  rewrite <- app_assoc in Hrest. simpl app in Hrest.
  destruct (requestRound' chatRequest (hd_error network)
              (emit (TriggerRequest chatRequest) s))
    as [[[returned|]|err|] s']; simpl in *; eauto.
  destruct (shouldAutoSubmit _ _ _); simpl; eauto.
  destruct network as [|fetched more]; simpl; eauto.
  rewrite snd_bind_ret.
  destruct (triggerRequest_extends more (messages s') s') as [ev Hev].
  rewrite Hev, Hrest, <- app_assoc. simpl. eauto.
Qed.

Lemma triggerRequest_steady_settles network :
  reducerCreatesAssistantMessages parseComplexResponse ->
  forall chatRequest s,
    chatRequest = messages s ->
    (Z.max 0 (maxSteps options - 1 -
              Z.of_nat (countTrailingAssistantMessages chatRequest)) + 1
     <= Z.of_nat (length network))%Z ->
    settles (fst (triggerRequest' network chatRequest s)).
Proof.
  intros Hred.
  induction network as [|fetched rest IH]; intros chatRequest s Hsteady Hlen;
    [simpl in Hlen; lia|].
  rewrite triggerRequest_unfold. simpl hd_error.
  pose proof (@requestRound_messages chatRequest (Some fetched)
                (emit (TriggerRequest chatRequest) s) Hred) as Hms.
  destruct (requestRound_settles chatRequest fetched
              (emit (TriggerRequest chatRequest) s)) as (returned & s' & Hround).
  rewrite Hround in *. simpl in Hms.
  destruct returned as [returned|]; [exact I|].
  destruct (shouldAutoSubmit (maxSteps options) (length (messages s))
              (messages s')) eqn:Hauto; [|exact I].
  apply settles_bind_ret. apply IH; [reflexivity|].
  apply shouldAutoSubmit_spec in Hauto.
  destruct Hauto as [Hgrow (lastMessage & _ & _ & _ & Hc)].
  destruct Hms as [Hsame|(merged & Hassist & Hext)];
    [rewrite Hsame in Hgrow; lia|].
  rewrite Hext in Hgrow, Hc. rewrite Hext.
  rewrite countTrailing_app_assistants in * by exact Hassist.
  rewrite length_app, <- Hsteady in Hgrow.
  simpl length in Hlen. lia.
Qed.

Lemma triggerRequest_settles network chatRequest s :
  reducerCreatesAssistantMessages parseComplexResponse ->
  (Z.max 1 (maxSteps options) <= Z.of_nat (length network))%Z ->
  settles (fst (triggerRequest' network chatRequest s)).
Proof.
  intros Hred Hlen.
  destruct network as [|fetched rest]; [simpl in Hlen; lia|].
  rewrite triggerRequest_unfold. simpl hd_error.
  destruct (requestRound_settles chatRequest fetched
              (emit (TriggerRequest chatRequest) s)) as (returned & s' & Hround).
  rewrite Hround.
  destruct returned as [returned|]; [exact I|].
  destruct (shouldAutoSubmit (maxSteps options) (length (messages s))
              (messages s')) eqn:Hauto; [|exact I].
  apply settles_bind_ret.
  apply triggerRequest_steady_settles; [exact Hred|reflexivity|].
  apply shouldAutoSubmit_spec in Hauto.
  destruct Hauto as [_ (lastMessage & Hlast & Hrole & _ & Hc)].
  destruct (lastMessageOf_Some _ Hlast) as [front Hfront].
  pose proof (@countTrailing_last_assistant front lastMessage Hrole) as Hone.
  rewrite <- Hfront in Hone.
  simpl length in Hlen. lia.
Qed.

Lemma triggerRequest_loading network chatRequest s :
  settles (fst (triggerRequest' network chatRequest s)) ->
  isLoading (snd (triggerRequest' network chatRequest s)) = false.
Proof.
  revert chatRequest s.
  induction network as [|fetched rest IH]; intros chatRequest s;
    rewrite triggerRequest_unfold; simpl hd_error.
  - pose proof (requestRound_pending chatRequest
                  (emit (TriggerRequest chatRequest) s)) as Hp.
    destruct (requestRound' chatRequest None (emit (TriggerRequest chatRequest) s))
      as [out s']. simpl in Hp. subst out. simpl. contradiction.
  - pose proof (@requestRound_loading chatRequest (Some fetched)
                  (emit (TriggerRequest chatRequest) s)) as Hl.
    destruct (requestRound' chatRequest (Some fetched)
                (emit (TriggerRequest chatRequest) s))
      as [[[returned|]|err|] s']; simpl in *; auto.
    destruct (shouldAutoSubmit _ _ _); simpl; auto.
    rewrite snd_bind_ret. intros Hs. apply settles_bind_ret in Hs. now apply IH.
Qed.


End CycleFacts.

(* ===================================================================== *)
(** * The claims of the specification *)
(* ===================================================================== *)

Section Claims.

Variable DecoderState : Type.
Variable createChunkDecoder : DecoderState.
Variable decoder : DecoderState -> list byte -> DecoderState * string.
Variable parseComplexResponse : Reader -> Reduction.
Variable options : UseChatOptions.

Local Notation consumeResponse' :=
  (consumeResponse createChunkDecoder decoder parseComplexResponse options).
Local Notation callChatApi' :=
  (callChatApi createChunkDecoder decoder parseComplexResponse options).
Local Notation getStreamedResponse' :=
  (getStreamedResponse createChunkDecoder decoder parseComplexResponse options).
Local Notation requestRound' :=
  (requestRound createChunkDecoder decoder parseComplexResponse options).
Local Notation triggerRequest' :=
  (triggerRequest createChunkDecoder decoder parseComplexResponse options).
Local Notation addToolResult' :=
  (addToolResult createChunkDecoder decoder parseComplexResponse options).
Local Notation reload' :=
  (reload createChunkDecoder decoder parseComplexResponse options).
Local Notation append' :=
  (append createChunkDecoder decoder parseComplexResponse options).
Local Notation handleSubmit' :=
  (handleSubmit createChunkDecoder decoder parseComplexResponse options).

Lemma addToolResult_unfold network toolCallId' result' s :
  addToolResult' network toolCallId' result' s =
  let updated := updatedMessages toolCallId' result' (messages s) in
  let stored := emit (MutateMessages updated) (withMessages updated s) in
  match lastMessageOf updated with
  | Some lastMessage =>
      if isAssistantMessageWithCompletedToolCalls lastMessage
      then (triggerRequest' network updated ;; ret tt)
             (withMessages (messages s) stored)
      else (Returns tt, stored)
  | None =>
      (Throws (newTypeError "Cannot read properties of undefined (reading 'role')"),
       stored)
  end.
Proof.
  unfold addToolResult. unfold bind at 1 2. simpl.
  destruct (lastMessageOf (updatedMessages toolCallId' result' (messages s)))
    as [lastMessage|]; [|reflexivity].
  now destruct (isAssistantMessageWithCompletedToolCalls lastMessage).
Qed.

Lemma addToolResult_stores network toolCallId' result' s :
  exists rest,
    trace (snd (addToolResult' network toolCallId' result' s)) =
    trace s ++ MutateMessages (updatedMessages toolCallId' result' (messages s)) :: rest.
Proof.
  rewrite addToolResult_unfold. cbv zeta.
  destruct (lastMessageOf (updatedMessages toolCallId' result' (messages s)))
    as [lastMessage|]; simpl; [|now exists []].
  destruct (isAssistantMessageWithCompletedToolCalls lastMessage); simpl;
    [|now exists []].
  rewrite snd_bind_ret.
  match goal with
  | |- context [triggerRequest' network ?r ?s0] =>
      destruct (triggerRequest_extends createChunkDecoder decoder
                  parseComplexResponse options network r s0) as [ev Hev]
  end.
  rewrite Hev. simpl. rewrite <- app_assoc. simpl. eauto.
Qed.

(** C9. For every message list and every toolCallId, the list that
    addToolResult computes and stores has the length of the current list;
    every message except the last is unchanged; the last message keeps its
    role, id, content, creation time, attachments and annotations, has as many
    tool invocations as before, and every invocation whose toolCallId differs
    from the given one is unchanged; and if the last message is not an
    assistant message with tool invocations (or there is none), the whole list
    is unchanged. *)
Theorem addToolResult_frame (toolCallId' : string) (result' : JSONValue)
    (network : list FetchResult) (s : Session) :
  let current := messages s in
  let updated := updatedMessages toolCallId' result' current in
  (exists rest,
     trace (snd (addToolResult' network toolCallId' result' s)) =
     trace s ++ MutateMessages updated :: rest) /\
  length updated = length current /\
  (forall k, S k < length current -> nth_error updated k = nth_error current k) /\
  (forall lastMessage,
     lastMessageOf current = Some lastMessage ->
     exists lastMessage',
       lastMessageOf updated = Some lastMessage' /\
       role lastMessage' = role lastMessage /\
       messageId lastMessage' = messageId lastMessage /\
       content lastMessage' = content lastMessage /\
       createdAt lastMessage' = createdAt lastMessage /\
       experimental_attachments lastMessage' = experimental_attachments lastMessage /\
       annotations lastMessage' = annotations lastMessage /\
       match toolInvocations lastMessage with
       | None => toolInvocations lastMessage' = None
       | Some invocations =>
           exists invocations',
             toolInvocations lastMessage' = Some invocations' /\
             length invocations' = length invocations /\
             forall j t,
               nth_error invocations j = Some t ->
               toolCallId t <> toolCallId' ->
               nth_error invocations' j = Some t
       end) /\
  (forall lastMessage,
     lastMessageOf current = Some lastMessage ->
     role lastMessage <> assistant \/ toolInvocations lastMessage = None ->
     updated = current) /\
  (current = [] -> updated = []).
Proof.
  cbv zeta. split; [apply addToolResult_stores|].
  generalize (messages s) as current. intros current.
  split; [apply updatedMessages_length|].
  split.
  { intros k Hk. rewrite updatedMessages_nth_error.
    destruct (nth_error current k) as [m|] eqn:E; simpl; [|reflexivity].
    now rewrite updateToolCalls_before_last. }
  split.
  { intros lastMessage Hlast.
    destruct (lastMessageOf_Some _ Hlast) as [front ->].
    rewrite updatedMessages_snoc, lastMessageOf_snoc.
    eexists. split; [reflexivity|].
    unfold updateToolCalls.
    destruct ((length front =? length (front ++ [lastMessage]) - 1) &&
              Role_eqb (role lastMessage) assistant).
    - destruct (toolInvocations lastMessage) as [invocations|] eqn:Hinv; simpl.
      + repeat split; try reflexivity.
        exists (map (attachResult toolCallId' result') invocations).
        split; [reflexivity|]. split; [apply length_map|].
        intros j t Hj Hid. rewrite nth_error_map, Hj. simpl.
        now rewrite attachResult_other.
      + rewrite Hinv. now repeat split.
    - repeat split; try reflexivity.
      destruct (toolInvocations lastMessage) as [invocations|]; [|reflexivity].
      exists invocations. now repeat split. }
  split.
  { intros lastMessage Hlast Hnot.
    destruct (lastMessageOf_Some _ Hlast) as [front ->].
    rewrite updatedMessages_snoc. f_equal. f_equal.
    unfold updateToolCalls.
    destruct Hnot as [Hrole|Hnone].
    - replace (Role_eqb (role lastMessage) assistant) with false.
      + now rewrite andb_false_r.
      + symmetry. apply not_true_iff_false. now rewrite Role_eqb_eq.
    - rewrite Hnone. now destruct (_ && _). }
  intros ->. reflexivity.
Qed.

(** C1 (amended). When the round trip of a request is over and control
    reaches the check that ends triggerRequest, the automatic-continuation
    predicate is true if and only if the message list is longer than it was
    when the request started and (a) the most recent message is an assistant
    message, (b) it has at least one tool invocation and every tool
    invocation has a result, and (c) the number of consecutive trailing
    assistant messages is strictly less than maxSteps. When the predicate is
    true an automatic follow-up request for the current message list is
    issued, otherwise none is; a round trip that is aborted or never settles
    is followed by no check and no request. *)
Theorem automatic_continuation (network : list FetchResult)
    (chatRequest : list Message) (s : Session) :
  match requestRound' chatRequest (hd_error network)
                      (emit (TriggerRequest chatRequest) s) with
  | (Returns None, s') =>
      let continue :=
        shouldAutoSubmit (maxSteps options) (length (messages s)) (messages s') in
      (continue = true <->
         length (messages s) < length (messages s') /\
         exists lastMessage,
           lastMessageOf (messages s') = Some lastMessage /\
           role lastMessage = assistant /\
           readyForContinuation lastMessage /\
           (Z.of_nat (countTrailingAssistantMessages (messages s'))
            < maxSteps options)%Z) /\
      (continue = true ->
         exists more,
           requestsIssued (trace (snd (triggerRequest' network chatRequest s))) =
           requestsIssued (trace s') ++ messages s' :: more) /\
      (continue = false ->
         triggerRequest' network chatRequest s = (Returns ReturnsUndefined, s'))
  | (_, s') => snd (triggerRequest' network chatRequest s) = s'
  end.
Proof.
  rewrite triggerRequest_unfold.
  destruct (requestRound' chatRequest (hd_error network)
              (emit (TriggerRequest chatRequest) s))
    as [[[returned|]|err|] s'] eqn:Hround; simpl; try reflexivity.
  split; [apply shouldAutoSubmit_spec|].
  split; intros Hcontinue; rewrite Hcontinue; [|reflexivity].
  destruct network as [|fetched rest]; simpl in Hround.
  - pose proof (requestRound_pending createChunkDecoder decoder
                  parseComplexResponse options chatRequest
                  (emit (TriggerRequest chatRequest) s)) as Hp.
    rewrite Hround in Hp. discriminate.
  - rewrite snd_bind_ret.
    destruct (triggerRequest_requests createChunkDecoder decoder
                parseComplexResponse options rest (messages s') s')
      as (more & Hmore & _).
    now exists more.
Qed.

(** C2. In every run of triggerRequest, whatever the network answers, each
    automatic follow-up request is issued for a message list whose count of
    consecutive trailing assistant messages is strictly less than maxSteps;
    with the default configuration (maxSteps = 1) no automatic follow-up
    request is issued. As the reducer only adds assistant messages, a run
    issues at most maxSteps - 1 automatic requests, and it terminates once
    the network has answered that many requests. *)
Theorem step_budget (network : list FetchResult) (chatRequest : list Message)
    (s : Session) :
  exists automatic,
    requestsIssued (trace (snd (triggerRequest' network chatRequest s))) =
      requestsIssued (trace s) ++ chatRequest :: automatic /\
    Forall (fun payload =>
              (Z.of_nat (countTrailingAssistantMessages payload)
               < maxSteps options)%Z) automatic /\
    (maxSteps options = resolveMaxSteps None None None None -> automatic = []) /\
    (reducerCreatesAssistantMessages parseComplexResponse ->
     (Z.of_nat (length automatic) <= Z.max 0 (maxSteps options - 1))%Z /\
     ((Z.max 1 (maxSteps options) <= Z.of_nat (length network))%Z ->
      settles (fst (triggerRequest' network chatRequest s)))).
Proof.
  destruct (triggerRequest_requests createChunkDecoder decoder
              parseComplexResponse options network chatRequest s)
    as (automatic & Hreq & Hall).
  exists automatic. split; [exact Hreq|]. split.
  { eapply Forall_impl; [|exact Hall]. intros payload [H _]. exact H. }
  split.
  { intros Hdefault. unfold resolveMaxSteps in Hdefault. simpl in Hdefault.
    destruct automatic as [|payload more]; [reflexivity|].
    inversion Hall as [|? ? [_ Hone] _]. lia. }
  intros Hred. split.
  - pose proof (triggerRequest_count createChunkDecoder decoder options
                  network chatRequest s Hred) as Hcount.
    rewrite Hreq, length_app in Hcount. simpl in Hcount. lia.
  - intros Hlen. now apply triggerRequest_settles.
Qed.


Lemma updateToolCalls_last toolCallId' result' front lastMessage invocations :
  role lastMessage = assistant ->
  toolInvocations lastMessage = Some invocations ->
  updateToolCalls toolCallId' result' (front ++ [lastMessage]) lastMessage
                  (length front) =
  mkMessage (messageId lastMessage) (createdAt lastMessage) (role lastMessage)
            (content lastMessage) (experimental_attachments lastMessage)
            (annotations lastMessage)
            (Some (map (attachResult toolCallId' result') invocations)).
Proof.
  intros Hrole Hinv. unfold updateToolCalls.
  rewrite last_length, Hrole, Hinv. simpl.
  now rewrite Nat.sub_0_r, Nat.eqb_refl.
Qed.

(** C3. For every message list whose last element is an assistant message
    in which exactly one tool invocation lacks a result, addToolResult with
    the toolCallId of that invocation attaches the result to it, which makes
    the message ready, and issues a request for the updated list; with step
    budget 1 that request is the only one, whatever the network answers. *)
Theorem addToolResult_triggers (network : list FetchResult)
    (toolCallId' : string) (result' : JSONValue) (s : Session)
    (front : list Message) (lastMessage : Message)
    (before after : list ToolInvocation) (invocation : ToolInvocation) :
  messages s = front ++ [lastMessage] ->
  role lastMessage = assistant ->
  toolInvocations lastMessage = Some (before ++ invocation :: after) ->
  result invocation = None ->
  toolCallId invocation = toolCallId' ->
  Forall complete before ->
  Forall complete after ->
  let updated := updatedMessages toolCallId' result' (messages s) in
  let final := snd (addToolResult' network toolCallId' result' s) in
  (exists lastMessage' invocations',
     lastMessageOf updated = Some lastMessage' /\
     toolInvocations lastMessage' = Some invocations' /\
     nth_error invocations' (length before) =
       Some (mkToolInvocation (toolCallId invocation) (toolName invocation)
                              (args invocation) (Some result')) /\
     readyForContinuation lastMessage') /\
  (exists automatic,
     requestsIssued (trace final) =
       requestsIssued (trace s) ++ updated :: automatic /\
     (maxSteps options = 1%Z -> automatic = [])).
Proof.
  intros Hmessages Hrole Hinv Hnone Hid Hbefore Hafter. cbv zeta.
  assert (Hupdated :
    updatedMessages toolCallId' result' (messages s) =
    front ++
    [mkMessage (messageId lastMessage) (createdAt lastMessage) (role lastMessage)
               (content lastMessage) (experimental_attachments lastMessage)
               (annotations lastMessage)
               (Some (map (attachResult toolCallId' result')
                          (before ++ invocation :: after)))]).
  { rewrite Hmessages, updatedMessages_snoc.
    now rewrite (@updateToolCalls_last toolCallId' result' front lastMessage _ Hrole Hinv). }
  assert (Hready : readyForContinuation
    (mkMessage (messageId lastMessage) (createdAt lastMessage) (role lastMessage)
               (content lastMessage) (experimental_attachments lastMessage)
               (annotations lastMessage)
               (Some (map (attachResult toolCallId' result')
                          (before ++ invocation :: after))))).
  { split; [exact Hrole|]. eexists. split; [reflexivity|]. split.
    - rewrite map_app. simpl. intros H. symmetry in H.
      now apply app_cons_not_nil in H.
    - rewrite map_app. simpl. apply Forall_app. split.
      + apply Forall_map. eapply Forall_impl; [|exact Hbefore].
        intros t. apply attachResult_complete.
      + constructor.
        * unfold complete. now rewrite attachResult_matching.
        * apply Forall_map. eapply Forall_impl; [|exact Hafter].
          intros t. apply attachResult_complete. }
  split.
  - rewrite Hupdated, lastMessageOf_snoc.
    eexists. eexists. split; [reflexivity|]. split; [reflexivity|].
    split; [|exact Hready].
    rewrite map_app, nth_error_app2 by (rewrite length_map; lia).
    rewrite length_map, Nat.sub_diag. simpl.
    unfold attachResult. now rewrite Hid, String.eqb_refl.
  - rewrite addToolResult_unfold. cbv zeta.
    rewrite Hupdated, lastMessageOf_snoc.
    apply isReady_iff in Hready. rewrite Hready.
    rewrite snd_bind_ret.
    match goal with
    | |- context [triggerRequest' network ?r ?s0] =>
        destruct (triggerRequest_requests createChunkDecoder decoder
                    parseComplexResponse options network r s0)
          as (automatic & Hreq & Hall)
    end.
    exists automatic. split.
    + rewrite Hreq. simpl. now rewrite requestsIssued_app, app_nil_r.
    + intros Hone. destruct automatic as [|payload more]; [reflexivity|].
      inversion Hall as [|? ? [_ Hgt] _]. lia.
Qed.


Lemma getStreamedResponse_fails chatRequest fetched err s :
  failsBeforeBody options fetched err ->
  fst (getStreamedResponse' chatRequest (Some fetched) s) = Throws err /\
  messages (snd (getStreamedResponse' chatRequest (Some fetched) s)) =
    (if keepLastMessageOnError options then chatRequest else messages s) /\
  chatError (snd (getStreamedResponse' chatRequest (Some fetched) s)) = chatError s.
Proof.
  intros Hfails.
  assert (chatError (snd (getStreamedResponse' chatRequest (Some fetched) s)) =
          chatError s) as Herror
    by apply (quiet_error (getStreamedResponse_quiet _ _ _ _ _ _ _)).
  rewrite getStreamedResponse_unfold in *.
  destruct Hfails as [->|[[-> ->]|(response & -> & Hok & Hret & ->)]];
    unfold awaitFetch, consumeResponse, callOnResponse, restoreMessagesOnFailure,
           stop, bind in *;
    simpl in *.
  - destruct (keepLastMessageOnError options); simpl in *; auto.
  - destruct (abortControllerRef s), (keepLastMessageOnError options);
      simpl in *; auto.
  - unfold onResponseReturns in Hret.
    destruct (onResponse options) as [callback|]; [rewrite Hret in *|];
      simpl in *; rewrite Hok in *; simpl in *;
      destruct (keepLastMessageOnError options); simpl in *; auto.
Qed.

(** C4 (amended). If a round trip fails before any response bytes are
    received - the fetch itself throws (also when stop() aborts it), or the
    response status is not ok and the onResponse callback, if one was
    supplied, returned normally - the message list is restored to the
    snapshot taken before the optimistic update, unless the caller has set
    keepLastMessageOnError, in which case the optimistically updated list is
    kept; the failure is thrown to the caller of getStreamedResponse, and
    triggerRequest records it in the error slot unless it is an AbortError. *)
Theorem failed_request_rollback (chatRequest : list Message)
    (fetched : FetchResult) (err : Error) (s : Session) :
  failsBeforeBody options fetched err ->
  let exchange := getStreamedResponse' chatRequest (Some fetched) s in
  let round := snd (requestRound' chatRequest (Some fetched) s) in
  fst exchange = Throws err /\
  messages (snd exchange) =
    (if keepLastMessageOnError options then chatRequest else messages s) /\
  messages round =
    (if keepLastMessageOnError options then chatRequest else messages s) /\
  chatError round = (if isAbortError err then None else Some err) /\
  isLoading round = false.
Proof.
  intros Hfails. cbv zeta.
  destruct (getStreamedResponse_fails chatRequest s Hfails) as (Hthrows & Hmessages & _).
  split; [exact Hthrows|]. split; [exact Hmessages|].
  rewrite requestRound_unfold.
  destruct (getStreamedResponse_fails chatRequest (started s) Hfails)
    as (Hthrows' & Hmessages' & Herror').
  destruct (getStreamedResponse' chatRequest (Some fetched) (started s))
    as [out s']. simpl in *. subst out.
  destruct (isAbortError err); simpl.
  - repeat split; auto.
  - unfold failed. destruct (onError options); simpl; repeat split; auto.
Qed.


Lemma consumeResponse_extends chatRequest restore existing response s :
  ok response = true ->
  extendsRequest chatRequest (messages s) ->
  extendsRequest chatRequest
    (messages (snd (consumeResponse' (streamProtocol options) restore
                      (onUpdate chatRequest existing) response s))).
Proof.
  intros Hok.
  apply (@consumeResponse_keeps _ createChunkDecoder decoder parseComplexResponse
           options (extendsRequest chatRequest) (fun _ => True) chatRequest).
  - intros merged _. now exists merged.
  - rewrite Hok. discriminate.
  - intros m' _. exact I.
  - intros reader _ _. apply Forall_forall. intros [merged data|] _; exact I.
Qed.

(** C6. For every request issued through triggerRequest: isLoading is set
    true (and the error slot cleared) as the first effects of the request and
    stays true during the exchange; once the request has terminated isLoading
    is false, whether the exchange returned, threw, or was aborted; a failure
    other than an AbortError is then in the error slot, and after an exchange
    that returned (or was aborted) the error slot is empty, whatever it held
    before. A whole run of triggerRequest that settles ends with isLoading
    false. *)
Theorem loading_and_error_slots (chatRequest : list Message)
    (fetched : FetchResult) (s : Session) :
  let entry := emit (TriggerRequest chatRequest) s in
  let exchange := getStreamedResponse' chatRequest (Some fetched) (started entry) in
  let round := snd (requestRound' chatRequest (Some fetched) entry) in
  (exists rest,
     trace round =
     trace s ++ TriggerRequest chatRequest :: MutateLoading true ::
     SetError None :: rest) /\
  isLoading (snd exchange) = true /\
  isLoading round = false /\
  match fst exchange with
  | Returns _ => chatError round = None
  | Throws err => chatError round = (if isAbortError err then None else Some err)
  | Pending => False
  end /\
  (forall network,
     settles (fst (triggerRequest' network chatRequest s)) ->
     isLoading (snd (triggerRequest' network chatRequest s)) = false).
Proof.
  cbv zeta. split.
  { destruct (requestRound_trace createChunkDecoder decoder parseComplexResponse
                options chatRequest (Some fetched)
                (emit (TriggerRequest chatRequest) s)) as [rest Hrest].
    rewrite Hrest. simpl. rewrite <- app_assoc. simpl. eauto. }
  pose proof (getStreamedResponse_quiet createChunkDecoder decoder
                parseComplexResponse options chatRequest (Some fetched)
                (started (emit (TriggerRequest chatRequest) s))) as Hquiet.
  pose proof (getStreamedResponse_settles createChunkDecoder decoder
                parseComplexResponse options chatRequest fetched
                (started (emit (TriggerRequest chatRequest) s))) as Hsettles.
  split; [apply (quiet_loading Hquiet)|].
  rewrite requestRound_unfold.
  destruct (getStreamedResponse' chatRequest (Some fetched)
              (started (emit (TriggerRequest chatRequest) s)))
    as [[r|err|] s']; simpl in *; destruct Hquiet as [_ Herror _ _];
    simpl in Herror.
  - split; [reflexivity|]. split; [exact Herror|].
    intros network. apply triggerRequest_loading.
  - destruct (isAbortError err); simpl.
    + split; [reflexivity|]. split; [exact Herror|].
      intros network. apply triggerRequest_loading.
    + split; [reflexivity|]. split; [reflexivity|].
      intros network. apply triggerRequest_loading.
  - contradiction.
Qed.


Lemma append_empty_r (text : string) : String.append text "" = text.
Proof. induction text as [|c text IH]; simpl; [reflexivity|now rewrite IH]. Qed.

Lemma append_associative (a b c : string) :
  String.append (String.append a b) c = String.append a (String.append b c).
Proof. induction a as [|x a IH]; simpl; [reflexivity|now rewrite IH]. Qed.

Lemma readTextStream_chunk update st m value rest ending s st' text s2 :
  decoder st value = (st', text) ->
  update [mkMessage (generateId options (idSeed s)) (createdAt m) (role m)
                    (String.append (content m) text)
                    (experimental_attachments m) (annotations m)
                    (toolInvocations m)]
         (Some []) (withIdSeed (S (idSeed s)) s) = (Returns tt, s2) ->
  readTextStream decoder options update st m (Chunk value :: rest) ending s =
  match abortControllerRef s2 with
  | Some _ =>
      readTextStream decoder options update st'
        (mkMessage (generateId options (idSeed s)) (createdAt m) (role m)
                   (String.append (content m) text)
                   (experimental_attachments m) (annotations m)
                   (toolInvocations m))
        rest ending s2
  | None =>
      (Returns (mkMessage (generateId options (idSeed s)) (createdAt m) (role m)
                          (String.append (content m) text)
                          (experimental_attachments m) (annotations m)
                          (toolInvocations m)), s2)
  end.
Proof.
  intros Hdecode Hrun. simpl. rewrite Hdecode.
  unfold bind at 1. simpl. unfold bind at 1. rewrite Hrun.
  unfold bind at 1. simpl. now destruct (abortControllerRef s2).
Qed.

Lemma readTextStream_stop update st m rest ending s :
  exists s1,
    abortControllerRef s1 = None /\
    readTextStream decoder options update st m (StopRequested :: rest) ending s =
    readTextStream decoder options update st m rest ending s1.
Proof.
  simpl. unfold bind, stop.
  destruct (abortControllerRef s) eqn:Hc; eexists; (split; [|reflexivity]).
  - reflexivity.
  - exact Hc.
Qed.

Lemma readTextStream_spec update :
  wellBehavedUpdate update ->
  forall remaining ending st m s,
    match readOutcome (controllerCleared s) remaining ending with
    | None =>
        exists m' s',
          readTextStream decoder options update st m remaining ending s =
            (Returns m', s') /\
          role m' = role m /\
          content m' =
            String.append (content m)
              (concatenation
                 (decodeAll decoder st (chunksRead (controllerCleared s) remaining)))
    | Some err =>
        exists s',
          readTextStream decoder options update st m remaining ending s =
            (Throws err, s')
    end.
Proof.
  intros Hupdate.
  induction remaining as [|[value|] rest IH]; intros ending st m s.
  - simpl. destruct ending as [err|].
    + now exists s.
    + exists m, s. simpl. now rewrite append_empty_r.
  - destruct (decoder st value) as [st' text] eqn:Hdecode.
    destruct (Hupdate
                [mkMessage (generateId options (idSeed s)) (createdAt m) (role m)
                           (String.append (content m) text)
                           (experimental_attachments m) (annotations m)
                           (toolInvocations m)]
                (Some []) (withIdSeed (S (idSeed s)) s))
      as (s2 & Hrun & Hcontroller).
    rewrite (@readTextStream_chunk update st m value rest ending s st' text s2
               Hdecode Hrun).
    simpl in Hcontroller.
    cbn [readOutcome chunksRead decodeAll]. rewrite Hdecode.
    specialize (IH ending st'
                  (mkMessage (generateId options (idSeed s)) (createdAt m) (role m)
                             (String.append (content m) text)
                             (experimental_attachments m) (annotations m)
                             (toolInvocations m)) s2).
    unfold controllerCleared in *. rewrite Hcontroller in *.
    destruct (abortControllerRef s) as [c|].
    + destruct (readOutcome false rest ending) as [err|].
      * exact IH.
      * destruct IH as (m' & s' & Hloop & Hrole & Hcontent).
        exists m', s'. split; [exact Hloop|]. split; [exact Hrole|].
        rewrite Hcontent. simpl. now rewrite append_associative.
    + eexists. eexists. split; [reflexivity|]. split; [reflexivity|].
      simpl. now rewrite append_empty_r.
  - destruct (readTextStream_stop update st m rest ending s)
      as (s1 & Hnone & Hstep).
    rewrite Hstep. cbn [readOutcome chunksRead].
    specialize (IH ending st m s1). unfold controllerCleared in IH.
    rewrite Hnone in IH. exact IH.
Qed.

Lemma callChatApi_text payload restore update response reader s :
  ok response = true ->
  body response = Some reader ->
  onResponseReturns options response ->
  callChatApi' payload TextMode restore update (Some (FetchResolves response)) s =
  (resultMessage' <-
     readTextStream decoder options update createChunkDecoder
       (mkMessage (generateId options (idSeed s)) (Some (clock s)) assistant ""
                  None None None)
       (reads reader) (readError reader) ;;
   callOnFinish options resultMessage' ;;
   ret (mkChatApiResult [resultMessage'] []))
    (withIdSeed (S (idSeed s)) (emit (Fetch payload) s)).
Proof.
  intros Hok Hbody Hreturns.
  unfold callChatApi, awaitFetch, consumeResponse.
  unfold bind at 1 2 3. simpl.
  assert (callOnResponse options response (emit (Fetch payload) s) =
          (Returns tt, emit (Fetch payload) s)) as Hcallback.
  { unfold callOnResponse, onResponseReturns in *.
    destruct (onResponse options) as [callback|]; [now rewrite Hreturns|reflexivity]. }
  rewrite Hcallback, Hok, Hbody. reflexivity.
Qed.

(** C7. In plain-text stream mode, for a response (status ok) with a body
    and every sequence of chunks the reading receives before it stops -
    all chunks of the body, or, after stop(), those up to the next one -
    callChatApi returns exactly one message, an assistant message whose
    content is the concatenation of the decoded chunks in arrival order,
    with empty side data; it throws only when a read is rejected. *)
Theorem text_mode_single_message (payload : list PayloadMessage)
    (restore : Async unit)
    (update : list Message -> option (list JSONValue) -> Async unit)
    (response : Response) (reader : Reader) (s : Session) :
  ok response = true ->
  body response = Some reader ->
  onResponseReturns options response ->
  wellBehavedUpdate update ->
  let outcome :=
    fst (callChatApi' payload TextMode restore update
           (Some (FetchResolves response)) s) in
  let received := chunksRead (controllerCleared s) (reads reader) in
  match readOutcome (controllerCleared s) (reads reader) (readError reader) with
  | None =>
      exists m,
        outcome = Returns (mkChatApiResult [m] []) /\
        role m = assistant /\
        content m = concatenation (decodeAll decoder createChunkDecoder received)
  | Some err => outcome = Throws err
  end.
Proof.
  intros Hok Hbody Hreturns Hupdate. cbv zeta.
  rewrite callChatApi_text with (reader := reader) by assumption.
  pose proof (readTextStream_spec Hupdate (reads reader) (readError reader)
                createChunkDecoder
                (mkMessage (generateId options (idSeed s)) (Some (clock s))
                           assistant "" None None None)
                (withIdSeed (S (idSeed s)) (emit (Fetch payload) s))) as Hloop.
  change (controllerCleared (withIdSeed (S (idSeed s)) (emit (Fetch payload) s)))
    with (controllerCleared s) in Hloop.
  destruct (readOutcome (controllerCleared s) (reads reader) (readError reader))
    as [err|].
  - destruct Hloop as (s' & Hloop). unfold bind at 1. now rewrite Hloop.
  - destruct Hloop as (m' & s' & Hloop & Hrole & Hcontent).
    exists m'. split.
    + unfold bind at 1. rewrite Hloop.
      unfold bind, callOnFinish. now destruct (onFinish options).
    + split; [exact Hrole|exact Hcontent].
Qed.

Lemma withoutLast_snoc front lastMessage :
  withoutLast (front ++ [lastMessage]) = front.
Proof.
  unfold withoutLast. rewrite last_length. simpl. rewrite Nat.sub_0_r.
  rewrite firstn_app, Nat.sub_diag, firstn_all. simpl. apply app_nil_r.
Qed.

(** C8. reload on an empty list returns null and does nothing (no request);
    otherwise it is a request through triggerRequest whose messages are the
    list without its last element when the last message is an assistant
    message, and the full list when it is not; that request is the first
    issued, and its body carries those messages. *)
Theorem reload_request (network : list FetchResult) (s : Session) :
  (messages s = [] -> reload' network s = (Returns ReturnsNull, s)) /\
  (forall front lastMessage,
     messages s = front ++ [lastMessage] ->
     let payload := if isAssistant lastMessage then front else messages s in
     reload' network s = triggerRequest' network payload s /\
     (exists automatic,
        requestsIssued (trace (snd (reload' network s))) =
        requestsIssued (trace s) ++ payload :: automatic) /\
     (exists rest,
        trace (snd (reload' network s)) =
        trace s ++
        TriggerRequest payload :: MutateLoading true :: SetError None ::
        MutateMessages payload ::
        Fetch (constructedMessagesPayload (sendExtraMessageFields options) payload) ::
        rest)).
Proof.
  split.
  - intros Hempty. unfold reload, bind. simpl. now rewrite Hempty.
  - intros front lastMessage Hmessages. cbv zeta.
    assert (reload' network s =
            triggerRequest' network
              (if isAssistant lastMessage then front else messages s) s) as Hreload.
    { unfold reload, bind, gets. rewrite Hmessages.
      rewrite last_length, lastMessageOf_snoc, withoutLast_snoc. simpl.
      unfold isAssistant. now destruct (Role_eqb (role lastMessage) assistant). }
    split; [exact Hreload|]. rewrite Hreload. split.
    + destruct (triggerRequest_requests createChunkDecoder decoder
                  parseComplexResponse options network
                  (if isAssistant lastMessage then front else messages s) s)
        as (automatic & Hreq & _).
      now exists automatic.
    + apply triggerRequest_trace.
Qed.


Lemma hasResult_attachResult id' r t :
  hasResult (attachResult id' r t) = true <-> complete t \/ toolCallId t = id'.
Proof.
  unfold attachResult.
  destruct (String.eqb_spec (toolCallId t) id') as [E|E].
  - split; [now right | reflexivity].
  - rewrite hasResult_complete. split; [now left | now intros [H|H]].
Qed.

Lemma updateLastMessage_ready id' r m :
  isAssistantMessageWithCompletedToolCalls (updateLastMessage id' r m) = true <->
  answeredBy id' m.
Proof.
  unfold updateLastMessage, answeredBy.
  destruct (Role_eqb (role m) assistant) eqn:Hrole.
  - destruct (toolInvocations m) as [invocations|] eqn:Hinv.
    + unfold isAssistantMessageWithCompletedToolCalls. simpl.
      rewrite Hrole. simpl. rewrite length_map, andb_true_iff, Nat.ltb_lt.
      rewrite forallb_forall. split.
      * intros [Hlen Hall]. split; [now apply Role_eqb_eq|].
        exists invocations. split; [reflexivity|]. split.
        -- intros ->. simpl in Hlen. lia.
        -- apply Forall_forall. intros t Ht.
           apply (hasResult_attachResult id' r), Hall, in_map, Ht.
      * intros [_ (invocations' & [= <-] & Hne & Hall)]. split.
        -- destruct invocations; [congruence | simpl; lia].
        -- intros t' Ht'. apply in_map_iff in Ht'.
           destruct Ht' as (t & <- & Ht). apply hasResult_attachResult.
           rewrite Forall_forall in Hall. now apply Hall.
    + unfold isAssistantMessageWithCompletedToolCalls. rewrite Hinv, andb_false_r.
      split; [discriminate|]. now intros [_ (invocations & [=] & _)].
  - unfold isAssistantMessageWithCompletedToolCalls. rewrite Hrole. simpl.
    split; [discriminate|]. intros [H _]. apply Role_eqb_eq in H. congruence.
Qed.

(** X5. [addToolResult] stores the updated list and then issues a request
    for it exactly when the result leaves no tool invocation of the last
    assistant message without one. While another invocation of that message
    still waits for its result, or the last message is not an assistant
    message with tool invocations, the call only stores the list. On an
    empty chat it stores the empty list and throws a TypeError. *)
Theorem addToolResult_requests (network : list FetchResult)
    (toolCallId' : string) (result' : JSONValue) (s : Session) :
  let updated := updatedMessages toolCallId' result' (messages s) in
  let run := addToolResult' network toolCallId' result' s in
  match lastMessageOf (messages s) with
  | None =>
      fst run =
        Throws (newTypeError "Cannot read properties of undefined (reading 'role')") /\
      snd run = emit (MutateMessages []) (withMessages [] s)
  | Some lastMessage =>
      (answeredBy toolCallId' lastMessage ->
       exists automatic,
         requestsIssued (trace (snd run)) =
         requestsIssued (trace s) ++ updated :: automatic) /\
      (~ answeredBy toolCallId' lastMessage ->
       fst run = Returns tt /\
       snd run = emit (MutateMessages updated) (withMessages updated s))
  end.
Proof.
  cbv zeta. rewrite addToolResult_unfold. cbv zeta.
  destruct (lastMessageOf (messages s)) as [lastMessage|] eqn:Hlast.
  - destruct (lastMessageOf_Some _ Hlast) as [front Hfront].
    rewrite Hfront, updatedMessages_last, lastMessageOf_snoc.
    pose proof (updateLastMessage_ready toolCallId' result' lastMessage) as Hready.
    destruct (isAssistantMessageWithCompletedToolCalls
                (updateLastMessage toolCallId' result' lastMessage)).
    + split; [|intros Hno; exfalso; now apply Hno, Hready].
      intros _. rewrite snd_bind_ret.
      match goal with
      | |- context [triggerRequest' network ?r ?s0] =>
          destruct (triggerRequest_requests createChunkDecoder decoder
                      parseComplexResponse options network r s0)
            as (automatic & Hreq & _)
      end.
      exists automatic. rewrite Hreq. simpl.
      now rewrite requestsIssued_app, app_nil_r.
    + split; [intros Hyes; apply Hready in Hyes; discriminate|].
      intros _. now split.
  - destruct (messages s) as [|m l]; [now split|].
    exfalso. clear - Hlast.
    destruct (@exists_last _ (m :: l)) as (front & x & E); [discriminate|].
    rewrite E, lastMessageOf_snoc in Hlast. discriminate.
Qed.

(** X6. A response with status ok and no body: the exchange throws
    'The response body is empty.' and the only trace it leaves is the
    optimistic update and the request. The message list is not rolled back,
    whatever [keepLastMessageOnError] says: it stays the list of the
    request. *)
Theorem empty_body_not_rolled_back (chatRequest : list Message)
    (response : Response) (s : Session) :
  ok response = true ->
  body response = None ->
  onResponseReturns options response ->
  getStreamedResponse' chatRequest (Some (FetchResolves response)) s =
  (Throws (newError "The response body is empty."),
   requested options chatRequest s).
Proof.
  intros Hok Hbody Hreturns.
  rewrite getStreamedResponse_unfold.
  unfold awaitFetch, consumeResponse. unfold bind at 1 2. simpl.
  assert (callOnResponse options response (requested options chatRequest s) =
          (Returns tt, requested options chatRequest s)) as Hcallback.
  { unfold callOnResponse, onResponseReturns in *.
    destruct (onResponse options) as [callback|];
      [now rewrite Hreturns | reflexivity]. }
  fold (requested options chatRequest s).
  now rewrite Hcallback, Hok, Hbody.
Qed.

(** X7. When the [onResponse] callback throws, the exchange throws the
    same error at once, whatever the status and the body of the response:
    the body is not read, no update is published, and the message list is
    not rolled back even though [keepLastMessageOnError] is off. *)
Theorem onResponse_error_not_rolled_back (chatRequest : list Message)
    (response : Response) (callback : Response -> option Error) (err : Error)
    (s : Session) :
  onResponse options = Some callback ->
  callback response = Some err ->
  getStreamedResponse' chatRequest (Some (FetchResolves response)) s =
  (Throws err, requested options chatRequest s).
Proof.
  intros Hcallback Herr.
  rewrite getStreamedResponse_unfold.
  unfold awaitFetch, consumeResponse. unfold bind at 1 2. simpl.
  fold (requested options chatRequest s).
  unfold callOnResponse. now rewrite Hcallback, Herr.
Qed.

Lemma onUpdate_run chatRequest existing merged data s :
  onUpdate chatRequest existing merged data s =
  (Returns tt,
   emit (MutateStreamData (Some (orEmpty existing ++ orEmpty data)))
     (withStreamData (Some (orEmpty existing ++ orEmpty data))
        (emit (MutateMessages (chatRequest ++ merged))
           (withMessages (chatRequest ++ merged) s)))).
Proof. reflexivity. Qed.

Lemma readTextStream_store chatRequest existing :
  forall remaining ending st m s,
    let run := readTextStream decoder options (onUpdate chatRequest existing)
                 st m remaining ending s in
    let received := chunksRead (controllerCleared s) remaining in
    (received = [] ->
     messages (snd run) = messages s /\ streamData (snd run) = streamData s) /\
    (received <> [] ->
     exists m',
       messages (snd run) = chatRequest ++ [m'] /\
       role m' = role m /\
       messageId m' = generateId options (idSeed s + (length received - 1)) /\
       content m' =
         String.append (content m) (concatenation (decodeAll decoder st received)) /\
       streamData (snd run) = Some (orEmpty existing)).
Proof.
  induction remaining as [|[value|] rest IH]; intros ending st m s; cbv zeta.
  - simpl. split; [|congruence]. intros _. now destruct ending.
  - destruct (decoder st value) as [st' text] eqn:Hdecode.
    rewrite (@readTextStream_chunk (onUpdate chatRequest existing) st m value
               rest ending s st' text _ Hdecode (onUpdate_run _ _ _ _ _)).
    cbn [chunksRead]. split; [discriminate|]. intros _.
    cbn [abortControllerRef emit withStreamData withMessages withIdSeed].
    unfold controllerCleared.
    destruct (abortControllerRef s) as [c|] eqn:Hc.
    + match goal with
      | |- context [readTextStream _ _ _ st' ?m1 rest ending ?s2] =>
          specialize (IH ending st' m1 s2); cbv zeta in IH;
          replace (controllerCleared s2) with false in IH
            by (unfold controllerCleared; simpl; now rewrite Hc)
      end.
      destruct IH as [Hnone Hsome].
      destruct (chunksRead false rest) as [|next more] eqn:Hread.
      * destruct (Hnone eq_refl) as [Hm Hd]. eexists.
        split; [rewrite Hm; reflexivity|]. split; [reflexivity|].
        split; [simpl; f_equal; lia|].
        split; [|rewrite Hd; simpl; now rewrite app_nil_r].
        simpl. rewrite Hdecode. simpl. now rewrite append_empty_r.
      * destruct Hsome as (m' & Hm & Hrole & Hid & Hcontent & Hd); [discriminate|].
        exists m'. split; [exact Hm|]. split; [exact Hrole|].
        split; [rewrite Hid; simpl; f_equal; lia|].
        split; [|exact Hd].
        rewrite Hcontent. cbn [decodeAll]. rewrite Hdecode. simpl.
        now rewrite append_associative.
    + eexists. split; [reflexivity|]. split; [reflexivity|].
      split; [simpl; f_equal; lia|].
      split; [|simpl; now rewrite app_nil_r].
      simpl. rewrite Hdecode. simpl. now rewrite append_empty_r.
  - cbn [chunksRead readTextStream].
    destruct (abortControllerRef s) as [c|] eqn:Hc.
    + replace ((stop ;; readTextStream decoder options
                          (onUpdate chatRequest existing) st m rest ending) s)
        with (readTextStream decoder options (onUpdate chatRequest existing)
                st m rest ending (withAbortController None (emit Abort s)))
        by (unfold bind, stop; now rewrite Hc).
      exact (IH ending st m (withAbortController None (emit Abort s))).
    + replace ((stop ;; readTextStream decoder options
                          (onUpdate chatRequest existing) st m rest ending) s)
        with (readTextStream decoder options (onUpdate chatRequest existing)
                st m rest ending s)
        by (unfold bind, stop; now rewrite Hc).
      specialize (IH ending st m s). cbv zeta in IH.
      unfold controllerCleared in IH. rewrite Hc in IH. exact IH.
Qed.

Lemma callOnFinish_store {A : Type} (loop : Async Message) (f : Message -> A) s :
  messages (snd ((m <- loop ;; callOnFinish options m ;; ret (f m)) s)) =
    messages (snd (loop s)) /\
  streamData (snd ((m <- loop ;; callOnFinish options m ;; ret (f m)) s)) =
    streamData (snd (loop s)).
Proof.
  unfold bind, callOnFinish. destruct (loop s) as [[m|err|] s']; simpl; auto.
  destruct (onFinish options); simpl; auto.
Qed.

(** X8. What the store holds after an exchange in plain-text mode (status
    ok, a body), whether the reading ends normally, is stopped or fails:
    if at least one chunk was received, the messages of the request followed
    by one assistant message whose content is the decoded chunks received,
    in order, and side data that is an array (the earlier side data, or the
    empty array); if no chunk was received, the messages of the request
    only and the side data untouched. The message gets a newly generated id
    with every chunk: after n chunks its id is the one generated n ids
    after the first. *)
Theorem text_mode_store (chatRequest : list Message) (response : Response)
    (reader : Reader) (s : Session) :
  streamProtocol options = TextMode ->
  ok response = true ->
  body response = Some reader ->
  onResponseReturns options response ->
  let final :=
    snd (getStreamedResponse' chatRequest (Some (FetchResolves response)) s) in
  let received := chunksRead (controllerCleared s) (reads reader) in
  (received = [] ->
   messages final = chatRequest /\ streamData final = streamData s) /\
  (received <> [] ->
   exists m,
     messages final = chatRequest ++ [m] /\
     role m = assistant /\
     messageId m = generateId options (idSeed s + length received) /\
     content m = concatenation (decodeAll decoder createChunkDecoder received) /\
     streamData final = Some (orEmpty (streamData s))).
Proof.
  intros Hmode Hok Hbody Hreturns. cbv zeta.
  change (getStreamedResponse' chatRequest (Some (FetchResolves response)) s)
    with (callChatApi'
            (constructedMessagesPayload (sendExtraMessageFields options) chatRequest)
            (streamProtocol options)
            (restoreMessagesOnFailure options (messages s))
            (onUpdate chatRequest (streamData s))
            (Some (FetchResolves response))
            (emit (MutateMessages chatRequest) (withMessages chatRequest s))).
  rewrite Hmode.
  rewrite (@callChatApi_text _ _ _ response reader _ Hok Hbody Hreturns).
  match goal with
  | |- context [(_ <- ?loop ;; _) ?s0] =>
      destruct (@callOnFinish_store ChatApiResult loop
                  (fun m => mkChatApiResult [m] []) s0) as [Hm Hd]
  end.
  rewrite Hm, Hd.
  match goal with
  | |- context [readTextStream _ _ _ ?st ?m0 ?remaining ?ending ?s0] =>
      pose proof (@readTextStream_store chatRequest (streamData s)
                    remaining ending st m0 s0) as Hloop
  end.
  cbv zeta in Hloop. destruct Hloop as [Hnone Hsome].
  split; [exact Hnone|].
  intros Hreceived.
  destruct (Hsome Hreceived) as (m & Hmessages & Hrole & Hid & Hcontent & Hdata).
  exists m. split; [exact Hmessages|]. split; [exact Hrole|].
  split; [|split; [exact Hcontent | exact Hdata]].
  rewrite Hid. f_equal. simpl idSeed. unfold controllerCleared in *. simpl in *.
  destruct (chunksRead _ (reads reader)); [congruence | simpl; lia].
Qed.

Lemma extendsData_trans a b c :
  extendsData a b -> extendsData b c -> extendsData a c.
Proof.
  intros [->|[e1 ->]] [->|[e2 ->]].
  - now left.
  - right. now exists e2.
  - right. now exists e1.
  - right. exists (e1 ++ e2). simpl. now rewrite app_assoc.
Qed.

Section DataKept.

Variable P : option (list JSONValue) -> Prop.
Variable chatRequest : list Message.
Variable existing : option (list JSONValue).
Hypothesis update_allowed : forall data, P (Some (orEmpty existing ++ data)).

Lemma keepsData_refl s : keepsData P s s.
Proof. intros H. exact H. Qed.

Lemma keepsData_trans a b c :
  keepsData P a b -> keepsData P b c -> keepsData P a c.
Proof. unfold keepsData. auto. Qed.

Lemma keepsData_same s s' : streamData s' = streamData s -> keepsData P s s'.
Proof. intros E H. now rewrite E. Qed.

Ltac data_step :=
  first
    [ apply (@preserves_bind (keepsData P) keepsData_trans)
    | apply (@preserves_ret (keepsData P) keepsData_refl)
    | apply (@preserves_throw (keepsData P) keepsData_refl)
    | apply (@preserves_pending (keepsData P) keepsData_refl)
    | apply (@preserves_gets (keepsData P) keepsData_refl) ].

Lemma stop_keepsData : preserves (keepsData P) stop.
Proof.
  intros s. apply keepsData_same. unfold stop.
  now destruct (abortControllerRef s).
Qed.

Lemma nextGeneratedId_keepsData : preserves (keepsData P) (nextGeneratedId options).
Proof. intros s. now apply keepsData_same. Qed.

Lemma callOnFinish_keepsData m : preserves (keepsData P) (callOnFinish options m).
Proof.
  intros s. apply keepsData_same. unfold callOnFinish.
  now destruct (onFinish options).
Qed.

Lemma callOnResponse_keepsData r : preserves (keepsData P) (callOnResponse options r).
Proof.
  intros s. apply keepsData_same. unfold callOnResponse.
  destruct (onResponse options) as [f|]; [|reflexivity].
  now destruct (f r).
Qed.

Lemma restoreMessagesOnFailure_keepsData previous :
  preserves (keepsData P) (restoreMessagesOnFailure options previous).
Proof.
  intros s. apply keepsData_same. unfold restoreMessagesOnFailure.
  now destruct (keepLastMessageOnError options).
Qed.

Lemma onUpdate_keepsData merged data :
  preserves (keepsData P) (onUpdate chatRequest existing merged data).
Proof. intros s _. simpl. apply update_allowed. Qed.

Lemma readTextStream_keepsData st m remaining ending :
  preserves (keepsData P)
    (readTextStream decoder options (onUpdate chatRequest existing)
       st m remaining ending).
Proof.
  revert st m.
  induction remaining as [|[value|] rest IH]; intros st m; simpl.
  - destruct ending; data_step.
  - destruct (decoder st value) as [st' text].
    data_step; [apply nextGeneratedId_keepsData|]. intros newId.
    data_step; [apply onUpdate_keepsData|]. intros _.
    data_step; [data_step|]. intros [c|]; [apply IH|data_step].
  - data_step; [apply stop_keepsData|]. intros _. apply IH.
Qed.

Lemma runReduction_keepsData remaining ending :
  preserves (keepsData P) (runReduction (onUpdate chatRequest existing) remaining ending).
Proof.
  induction remaining as [|[merged data|] rest IH]; simpl.
  - destruct ending; data_step.
  - data_step; [apply onUpdate_keepsData|]. intros _. apply IH.
  - data_step; [apply stop_keepsData|]. intros _. apply IH.
Qed.

Lemma exchange_keepsData previous fetched :
  preserves (keepsData P)
    (response <- awaitFetch (restoreMessagesOnFailure options previous) fetched ;;
     consumeResponse' (streamProtocol options)
       (restoreMessagesOnFailure options previous)
       (onUpdate chatRequest existing) response).
Proof.
  data_step.
  - unfold awaitFetch.
    destruct fetched as [[err| |response]|]; repeat (data_step; intros);
      auto using stop_keepsData, restoreMessagesOnFailure_keepsData.
  - intros response. unfold consumeResponse.
    data_step; [apply callOnResponse_keepsData|]. intros _.
    destruct (ok response); simpl.
    + destruct (body response) as [reader|]; [|data_step].
      destruct (streamProtocol options).
      * data_step; [apply nextGeneratedId_keepsData|]. intros firstId.
        data_step; [data_step|]. intros now.
        data_step; [apply readTextStream_keepsData|]. intros m.
        data_step; [apply callOnFinish_keepsData|]. intros _. data_step.
      * apply runReduction_keepsData.
    + data_step; [apply restoreMessagesOnFailure_keepsData|]. intros _. data_step.
Qed.

End DataKept.

Lemma getStreamedResponse_data chatRequest fetched s :
  extendsData (streamData s)
    (streamData (snd (getStreamedResponse' chatRequest fetched s))).
Proof.
  rewrite getStreamedResponse_unfold.
  apply (@exchange_keepsData (extendsData (streamData s)) chatRequest (streamData s)).
  - intros data. right. now exists data.
  - now left.
Qed.

Lemma requestRound_data chatRequest fetched s :
  extendsData (streamData s)
    (streamData (snd (requestRound' chatRequest fetched s))).
Proof.
  rewrite requestRound_unfold.
  pose proof (getStreamedResponse_data chatRequest fetched (started s)) as H.
  change (streamData (started s)) with (streamData s) in H.
  destruct (getStreamedResponse' chatRequest fetched (started s))
    as [[r|err|] s']; simpl in *; try exact H.
  destruct (isAbortError err); simpl; [exact H|].
  unfold failed. now destruct (onError options).
Qed.

(** X9. Side data is only ever added to. Whatever the network answers and
    however many automatic requests follow, after [triggerRequest] the
    stored side data is what it was before, or an array that starts with
    the entries it had before. *)
Theorem side_data_only_grows (network : list FetchResult)
    (chatRequest : list Message) (s : Session) :
  extendsData (streamData s)
    (streamData (snd (triggerRequest' network chatRequest s))).
Proof.
  revert chatRequest s.
  induction network as [|fetched rest IH]; intros chatRequest s;
    rewrite triggerRequest_unfold; simpl hd_error.
  - pose proof (requestRound_data chatRequest None
                  (emit (TriggerRequest chatRequest) s)) as H.
    destruct (requestRound' chatRequest None (emit (TriggerRequest chatRequest) s))
      as [[[returned|]|err|] s']; simpl in *;
      try destruct (shouldAutoSubmit _ _ _); simpl; exact H.
  - pose proof (requestRound_data chatRequest (Some fetched)
                  (emit (TriggerRequest chatRequest) s)) as H.
    destruct (requestRound' chatRequest (Some fetched)
                (emit (TriggerRequest chatRequest) s))
      as [[[returned|]|err|] s']; simpl in *; try exact H.
    destruct (shouldAutoSubmit _ _ _); simpl; [|exact H].
    rewrite snd_bind_ret.
    exact (extendsData_trans H (IH (messages s') s')).
Qed.

Lemma requestRound_extends chatRequest fetched s :
  messages (snd (requestRound' chatRequest fetched s)) = messages s \/
  extendsRequest chatRequest (messages (snd (requestRound' chatRequest fetched s))).
Proof.
  assert (messages (snd (getStreamedResponse' chatRequest fetched (started s))) =
            messages s \/
          extendsRequest chatRequest
            (messages (snd (getStreamedResponse' chatRequest fetched (started s)))))
    as Hround.
  { rewrite getStreamedResponse_unfold.
    apply (@exchange_keeps _ createChunkDecoder decoder parseComplexResponse options
             (fun current => current = messages s \/
                             extendsRequest chatRequest current)
             (fun _ => True) chatRequest).
    - intros merged _. right. now exists merged.
    - unfold restoreMessagesOnFailure.
      destruct (keepLastMessageOnError options).
      + apply preserves_ret. intros s0 H. exact H.
      + intros s0 _. simpl. now left.
    - intros m' _. exact I.
    - intros reader. apply Forall_forall. intros [merged data|] _; exact I.
    - right. exists []. simpl. now rewrite app_nil_r. }
  rewrite requestRound_unfold.
  destruct (getStreamedResponse' chatRequest fetched (started s))
    as [[r|err|] s']; simpl in *; try exact Hround.
  destruct (isAbortError err); simpl; [exact Hround|].
  unfold failed. now destruct (onError options).
Qed.

(** X10. The automatic requests of a run form a chain: the first is the
    request that was asked for, and the message list of every later request
    starts with the whole message list of the request before it. No request
    of a run drops or changes a message that an earlier request of the run
    has sent. *)
Theorem automatic_requests_grow (network : list FetchResult)
    (chatRequest : list Message) (s : Session) :
  exists automatic,
    requestsIssued (trace (snd (triggerRequest' network chatRequest s))) =
      requestsIssued (trace s) ++ chatRequest :: automatic /\
    growing (chatRequest :: automatic).
Proof.
  revert chatRequest s.
  induction network as [|fetched rest IH]; intros chatRequest s;
    rewrite triggerRequest_unfold; simpl hd_error.
  - pose proof (requestRound_requests createChunkDecoder decoder
                  parseComplexResponse options chatRequest None s) as Hnil.
    destruct (requestRound' chatRequest None (emit (TriggerRequest chatRequest) s))
      as [[[returned|]|err|] s']; simpl in *;
      try destruct (shouldAutoSubmit _ _ _); simpl;
      exists []; split; auto; exact I.
  - pose proof (requestRound_requests createChunkDecoder decoder
                  parseComplexResponse options chatRequest (Some fetched) s) as Hcons.
    pose proof (requestRound_extends chatRequest (Some fetched)
                  (emit (TriggerRequest chatRequest) s)) as Hext.
    destruct (requestRound' chatRequest (Some fetched)
                (emit (TriggerRequest chatRequest) s))
      as [[[returned|]|err|] s']; simpl in *;
      try (exists []; split; [exact Hcons|exact I]).
    destruct (shouldAutoSubmit (maxSteps options) (length (messages s))
                (messages s')) eqn:Hauto; simpl;
      [|exists []; split; [exact Hcons|exact I]].
    rewrite snd_bind_ret.
    destruct (IH (messages s') s') as (more & Hmore & Hgrow).
    exists (messages s' :: more). split.
    + rewrite Hmore, Hcons, <- app_assoc. reflexivity.
    + split; [|exact Hgrow].
      destruct Hext as [Hsame|Hext]; [|exact Hext].
      apply shouldAutoSubmit_spec in Hauto. destruct Hauto as [Hlen _].
      rewrite Hsame in Hlen. lia.
Qed.





Lemma handleSubmit_unfold network input allowEmptySubmit attachmentsFromOptions s :
  handleSubmit' network input allowEmptySubmit attachmentsFromOptions s =
  let attachments := prepareAttachmentsForRequest attachmentsFromOptions in
  if String.eqb input "" && negb allowEmptySubmit then (Returns input, s)
  else if String.eqb input "" && (length attachments =? 0) && allowEmptySubmit
  then (Returns "", snd (triggerRequest' network (messages s) s))
  else
    (Returns "",
     snd (triggerRequest' network
            (messages s ++
             [mkMessage (generateId options (idSeed s)) (Some (clock s)) user input
                        (if 0 <? length attachments then Some attachments else None)
                        None None])
            (withIdSeed (S (idSeed s)) s))).
Proof.
  unfold handleSubmit. cbv zeta.
  destruct (String.eqb input "" && negb allowEmptySubmit); [reflexivity|].
  destruct (String.eqb input "" &&
            (length (prepareAttachmentsForRequest attachmentsFromOptions) =? 0) &&
            allowEmptySubmit); reflexivity.
Qed.

(** X12. [handleSubmit] with an empty input field and without
    [allowEmptySubmit] does nothing at all, even when attachments were
    passed. Otherwise it clears the input field and issues a request: for
    the current messages as they are when the input is empty, there are no
    attachments and [allowEmptySubmit] is set; else for the current messages
    followed by one user message that carries the input, a generated id, the
    current time, and the attachments if there are any. *)
Theorem handleSubmit_request (network : list FetchResult) (input : string)
    (allowEmptySubmit : bool) (attachmentsFromOptions : option (list Attachment))
    (s : Session) :
  let run := handleSubmit' network input allowEmptySubmit attachmentsFromOptions s in
  let attachments := prepareAttachmentsForRequest attachmentsFromOptions in
  let userMessage' :=
    mkMessage (generateId options (idSeed s)) (Some (clock s)) user input
              (match attachments with [] => None | _ => Some attachments end)
              None None in
  (input = "" -> allowEmptySubmit = false -> run = (Returns "", s)) /\
  (input = "" -> allowEmptySubmit = true -> attachments = [] ->
   fst run = Returns "" /\
   exists automatic,
     requestsIssued (trace (snd run)) =
     requestsIssued (trace s) ++ messages s :: automatic) /\
  (input <> "" \/ (allowEmptySubmit = true /\ attachments <> []) ->
   fst run = Returns "" /\
   exists automatic,
     requestsIssued (trace (snd run)) =
     requestsIssued (trace s) ++ (messages s ++ [userMessage']) :: automatic).
Proof.
  cbv zeta. rewrite handleSubmit_unfold. cbv zeta.
  split; [|split].
  - intros -> ->. reflexivity.
  - intros -> -> Hnone. rewrite Hnone. simpl.
    split; [reflexivity|].
    destruct (triggerRequest_requests createChunkDecoder decoder
                parseComplexResponse options network (messages s) s)
      as (automatic & Hreq & _).
    now exists automatic.
  - intros Hcase.
    assert (String.eqb input "" && negb allowEmptySubmit = false) as Hguard.
    { destruct Hcase as [Hinput|[-> _]]; [|apply andb_false_r].
      apply String.eqb_neq in Hinput. now rewrite Hinput. }
    assert (String.eqb input "" &&
            (length (prepareAttachmentsForRequest attachmentsFromOptions) =? 0) &&
            allowEmptySubmit = false) as Hsame.
    { destruct Hcase as [Hinput|[_ Hatt]].
      - apply String.eqb_neq in Hinput. now rewrite Hinput.
      - destruct (prepareAttachmentsForRequest attachmentsFromOptions);
          [congruence|]. simpl. now rewrite andb_false_r. }
    rewrite Hguard, Hsame. simpl fst. simpl snd.
    split; [reflexivity|].
    replace (if 0 <? length (prepareAttachmentsForRequest attachmentsFromOptions)
             then Some (prepareAttachmentsForRequest attachmentsFromOptions)
             else None)
      with (match prepareAttachmentsForRequest attachmentsFromOptions with
            | [] => None
            | _ => Some (prepareAttachmentsForRequest attachmentsFromOptions)
            end)
      by (now destruct (prepareAttachmentsForRequest attachmentsFromOptions)).
    match goal with
    | |- context [triggerRequest' network ?r ?s0] =>
        destruct (triggerRequest_requests createChunkDecoder decoder
                    parseComplexResponse options network r s0)
          as (automatic & Hreq & _)
    end.
    exists automatic. exact Hreq.
Qed.

Lemma triggerRequest_failed network fetched chatRequest err s :
  failsBeforeBody options fetched err ->
  shouldAutoSubmit (maxSteps options) (length (messages s))
    (if keepLastMessageOnError options then chatRequest else messages s) = false ->
  let final := snd (triggerRequest' (fetched :: network) chatRequest s) in
  messages final =
    (if keepLastMessageOnError options then chatRequest else messages s) /\
  requestsIssued (trace final) = requestsIssued (trace s) ++ [chatRequest] /\
  chatError final = (if isAbortError err then None else Some err).
Proof.
  intros Hfails Hauto. cbv zeta.
  pose proof (requestRound_requests createChunkDecoder decoder
                parseComplexResponse options chatRequest (Some fetched) s) as Hreq.
  rewrite triggerRequest_unfold. simpl hd_error.
  rewrite requestRound_unfold in *.
  destruct (@getStreamedResponse_fails chatRequest fetched err
              (started (emit (TriggerRequest chatRequest) s)) Hfails)
    as (Hthrows & Hmessages & Herror).
  destruct (getStreamedResponse' chatRequest (Some fetched)
              (started (emit (TriggerRequest chatRequest) s)))
    as [outcome s'].
  simpl in Hthrows, Hmessages, Herror. subst outcome.
  destruct (isAbortError err) eqn:Habort.
  - simpl in *. auto.
  - assert (messages (settled (failed options err s')) = messages s') as Hm
      by (unfold failed; now destruct (onError options)).
    assert (chatError (settled (failed options err s')) = Some err) as He
      by reflexivity.
    cbn [snd fst] in *. rewrite Hm, Hmessages, Hauto. cbn [snd].
    rewrite Hm, Hmessages. auto.
Qed.

(** X13. [reload] when the request fails before any byte of the response
    is read (the fetch is rejected or aborted, or the status is not ok):
    exactly one request is issued and nothing is retried. With the default
    options the message list is then what it was before the call, the last
    assistant message included; with [keepLastMessageOnError] the list of the
    request stays, so an assistant message that was removed for the retry is
    gone. The error is recorded unless it is an AbortError. *)
Theorem reload_failure (network : list FetchResult) (fetched : FetchResult)
    (err : Error) (front : list Message) (lastMessage : Message) (s : Session) :
  messages s = front ++ [lastMessage] ->
  failsBeforeBody options fetched err ->
  let request :=
    if isAssistant lastMessage then front else front ++ [lastMessage] in
  let final := snd (reload' (fetched :: network) s) in
  requestsIssued (trace final) = requestsIssued (trace s) ++ [request] /\
  messages final =
    (if keepLastMessageOnError options then request else front ++ [lastMessage]) /\
  chatError final = (if isAbortError err then None else Some err).
Proof.
  intros Hmessages Hfails. cbv zeta.
  assert (reload' (fetched :: network) s =
          triggerRequest' (fetched :: network)
            (if isAssistant lastMessage then front else front ++ [lastMessage]) s)
    as Hreload.
  { unfold reload. unfold bind at 1. unfold gets.
    cbv beta iota. rewrite Hmessages, last_length, lastMessageOf_snoc.
    simpl Nat.eqb. cbv iota. unfold isAssistant.
    destruct (Role_eqb (role lastMessage) assistant); [|reflexivity].
    now rewrite withoutLast_snoc. }
  rewrite Hreload.
  destruct (@triggerRequest_failed network fetched
              (if isAssistant lastMessage then front else front ++ [lastMessage])
              err s Hfails) as (Hm & Hreq & Herr).
  - apply not_true_is_false. intros Hauto.
    apply shouldAutoSubmit_spec in Hauto. destruct Hauto as [Hlen _].
    rewrite Hmessages in Hlen.
    destruct (keepLastMessageOnError options), (isAssistant lastMessage);
      rewrite ?last_length in Hlen; lia.
  - rewrite Hm, Hreq, Herr, Hmessages. auto.
Qed.

(** X14. [append] when the request fails before any byte of the response
    is read, with [keepLastMessageOnError] off: one request is issued, for
    the current messages followed by the appended message, and afterwards
    the message list is exactly what it was before the call. The appended
    message is not kept. *)
Theorem append_failure_undone (network : list FetchResult) (fetched : FetchResult)
    (err : Error) (id' : option string) (message : Message)
    (attachmentsFromOptions : option (list Attachment)) (s : Session) :
  keepLastMessageOnError options = false ->
  failsBeforeBody options fetched err ->
  let final :=
    snd (append' (fetched :: network) id' message attachmentsFromOptions s) in
  messages final = messages s /\
  (exists appended,
     requestsIssued (trace final) =
       requestsIssued (trace s) ++ [messages s ++ [appended]] /\
     role appended = role message /\
     content appended = content message /\
     toolInvocations appended = toolInvocations message) /\
  chatError final = (if isAbortError err then None else Some err).
Proof.
  intros Hkeep Hfails. cbv zeta.
  assert (exists appended s0,
            append' (fetched :: network) id' message attachmentsFromOptions s =
            triggerRequest' (fetched :: network) (messages s ++ [appended]) s0 /\
            messages s0 = messages s /\ trace s0 = trace s /\
            role appended = role message /\
            content appended = content message /\
            toolInvocations appended = toolInvocations message)
    as (appended & s0 & Happend & Hm0 & Ht0 & Hrole & Hcontent & Htools).
  { unfold append.
    destruct id' as [[|c rest]|]; unfold bind, nextGeneratedId, gets, ret;
      cbv beta iota.
    - exists (mkMessage (generateId options (idSeed s))
                (match createdAt message with
                 | Some t => Some t
                 | None => Some (clock s)
                 end)
                (role message) (content message)
                (if 0 <? length (prepareAttachmentsForRequest attachmentsFromOptions)
                 then Some (prepareAttachmentsForRequest attachmentsFromOptions)
                 else None)
                (annotations message) (toolInvocations message)),
             (withIdSeed (S (idSeed s)) s).
      repeat split.
    - exists (mkMessage (String c rest)
                (match createdAt message with
                 | Some t => Some t
                 | None => Some (clock s)
                 end)
                (role message) (content message)
                (if 0 <? length (prepareAttachmentsForRequest attachmentsFromOptions)
                 then Some (prepareAttachmentsForRequest attachmentsFromOptions)
                 else None)
                (annotations message) (toolInvocations message)), s.
      repeat split.
    - exists (mkMessage (generateId options (idSeed s))
                (match createdAt message with
                 | Some t => Some t
                 | None => Some (clock s)
                 end)
                (role message) (content message)
                (if 0 <? length (prepareAttachmentsForRequest attachmentsFromOptions)
                 then Some (prepareAttachmentsForRequest attachmentsFromOptions)
                 else None)
                (annotations message) (toolInvocations message)),
             (withIdSeed (S (idSeed s)) s).
      repeat split. }
  rewrite Happend.
  destruct (@triggerRequest_failed network fetched (messages s ++ [appended])
              err s0 Hfails) as (Hm & Hreq & Herr).
  - rewrite Hkeep. apply not_true_is_false. intros Hauto.
    apply shouldAutoSubmit_spec in Hauto. destruct Hauto as [Hlen _]. lia.
  - rewrite Hkeep in Hm. rewrite Hm, Hreq, Herr, Hm0, Ht0.
    split; [reflexivity|]. split; [|reflexivity].
    exists appended. auto.
Qed.

Lemma runReduction_store chatRequest existing :
  forall remaining ending s,
    let final :=
      snd (runReduction (onUpdate chatRequest existing) remaining ending s) in
    match lastUpdate remaining with
    | None => messages final = messages s /\ streamData final = streamData s
    | Some (merged, data) =>
        messages final = chatRequest ++ merged /\
        streamData final = Some (orEmpty existing ++ orEmpty data)
    end.
Proof.
  induction remaining as [|[merged data|] rest IH]; intros ending s; cbv zeta.
  - simpl. now destruct ending.
  - cbn [runReduction lastUpdate].
    replace ((onUpdate chatRequest existing merged data ;;
              runReduction (onUpdate chatRequest existing) rest ending) s)
      with (runReduction (onUpdate chatRequest existing) rest ending
              (snd (onUpdate chatRequest existing merged data s)))
      by (unfold bind at 1; now rewrite onUpdate_run).
    specialize (IH ending (snd (onUpdate chatRequest existing merged data s))).
    cbv zeta in IH.
    destruct (lastUpdate rest) as [[merged' data']|]; [exact IH|].
    rewrite onUpdate_run in IH. exact IH.
  - cbn [runReduction lastUpdate].
    replace ((stop ;; runReduction (onUpdate chatRequest existing) rest ending) s)
      with (runReduction (onUpdate chatRequest existing) rest ending (snd (stop s)))
      by (unfold bind at 1, stop; now destruct (abortControllerRef s)).
    specialize (IH ending (snd (stop s))). cbv zeta in IH.
    replace (messages (snd (stop s))) with (messages s) in IH
      by (unfold stop; now destruct (abortControllerRef s)).
    replace (streamData (snd (stop s))) with (streamData s) in IH
      by (unfold stop; now destruct (abortControllerRef s)).
    exact IH.
Qed.

(** X19. In the multiplexed protocol every update replaces what the one
    before it published: after an exchange (status ok, a body), however the
    reduction ends, the store holds the messages of the request followed by
    the messages of the last update, and the side data it had when the
    request started followed by the data of the last update. Without any
    update it holds the messages of the request and the side data as they
    were. *)
Theorem stream_data_last_update_wins (chatRequest : list Message)
    (response : Response) (reader : Reader) (s : Session) :
  streamProtocol options = StreamDataMode ->
  ok response = true ->
  body response = Some reader ->
  onResponseReturns options response ->
  let final :=
    snd (getStreamedResponse' chatRequest (Some (FetchResolves response)) s) in
  match lastUpdate (steps (parseComplexResponse reader)) with
  | None => messages final = chatRequest /\ streamData final = streamData s
  | Some (merged, data) =>
      messages final = chatRequest ++ merged /\
      streamData final = Some (orEmpty (streamData s) ++ orEmpty data)
  end.
Proof.
  intros Hmode Hok Hbody Hreturns. cbv zeta.
  assert (getStreamedResponse' chatRequest (Some (FetchResolves response)) s =
          runReduction (onUpdate chatRequest (streamData s))
            (steps (parseComplexResponse reader))
            (reduced (parseComplexResponse reader))
            (requested options chatRequest s)) as Hrun.
  { rewrite getStreamedResponse_unfold.
    unfold awaitFetch, consumeResponse. unfold bind at 1 2. simpl.
    fold (requested options chatRequest s).
    assert (callOnResponse options response (requested options chatRequest s) =
            (Returns tt, requested options chatRequest s)) as Hcallback.
    { unfold callOnResponse, onResponseReturns in *.
      destruct (onResponse options) as [callback|];
        [now rewrite Hreturns | reflexivity]. }
    now rewrite Hcallback, Hok, Hbody, Hmode. }
  rewrite Hrun.
  exact (@runReduction_store chatRequest (streamData s)
           (steps (parseComplexResponse reader))
           (reduced (parseComplexResponse reader))
           (requested options chatRequest s)).
Qed.

Lemma getStreamedResponse_fails_controller chatRequest fetched err s :
  failsBeforeBody options fetched err ->
  isAbortError err = false ->
  abortControllerRef (snd (getStreamedResponse' chatRequest (Some fetched) s)) =
  abortControllerRef s.
Proof.
  intros Hfails Habort.
  rewrite getStreamedResponse_unfold.
  destruct Hfails as [->|[[-> ->]|(response & -> & Hok & Hret & ->)]];
    [| discriminate |];
    unfold awaitFetch, consumeResponse, callOnResponse, restoreMessagesOnFailure,
           bind in *;
    simpl in *.
  - now destruct (keepLastMessageOnError options).
  - unfold onResponseReturns in Hret.
    destruct (onResponse options) as [callback|]; [rewrite Hret in *|];
      simpl in *; rewrite Hok in *; simpl in *;
      now destruct (keepLastMessageOnError options).
Qed.

(** X20. A failed request does not release its abort controller: after a
    request that failed before any byte of the response was read, with an
    error other than an AbortError, and that is followed by no automatic
    request, the hook is idle (isLoading is false) and still holds the
    controller of that request, so that a later [stop()] aborts it. *)
Theorem failed_request_keeps_controller (network : list FetchResult)
    (fetched : FetchResult) (chatRequest : list Message) (err : Error)
    (s : Session) :
  failsBeforeBody options fetched err ->
  isAbortError err = false ->
  shouldAutoSubmit (maxSteps options) (length (messages s))
    (if keepLastMessageOnError options then chatRequest else messages s) = false ->
  let final := snd (triggerRequest' (fetched :: network) chatRequest s) in
  isLoading final = false /\
  abortControllerRef final = Some newAbortController /\
  snd (stop final) = withAbortController None (emit Abort final).
Proof.
  intros Hfails Habort Hauto. cbv zeta.
  assert (isLoading (snd (triggerRequest' (fetched :: network) chatRequest s)) = false /\
          abortControllerRef (snd (triggerRequest' (fetched :: network) chatRequest s)) =
            Some newAbortController) as [Hloading Hcontroller].
  { rewrite triggerRequest_unfold. simpl hd_error.
    rewrite requestRound_unfold.
    destruct (@getStreamedResponse_fails chatRequest fetched err
                (started (emit (TriggerRequest chatRequest) s)) Hfails)
      as (Hthrows & Hmessages & _).
    pose proof (@getStreamedResponse_fails_controller chatRequest fetched err
                  (started (emit (TriggerRequest chatRequest) s)) Hfails Habort)
      as Hkept.
    destruct (getStreamedResponse' chatRequest (Some fetched)
                (started (emit (TriggerRequest chatRequest) s)))
      as [outcome s'].
    simpl in Hthrows, Hmessages, Hkept. subst outcome. rewrite Habort.
    assert (messages (settled (failed options err s')) = messages s') as Hm
      by (unfold failed; now destruct (onError options)).
    assert (abortControllerRef (settled (failed options err s')) =
            Some newAbortController) as Hc
      by (unfold failed; destruct (onError options); exact Hkept).
    cbn [snd fst] in *. rewrite Hm, Hmessages, Hauto. cbn [snd].
    split; [reflexivity | exact Hc]. }
  split; [exact Hloading|]. split; [exact Hcontroller|].
  unfold stop. now rewrite Hcontroller.
Qed.

Lemma finishedWith_app e1 e2 :
  finishedWith (e1 ++ e2) = finishedWith e1 ++ finishedWith e2.
Proof. unfold finishedWith. apply flat_map_app. Qed.

Lemma unfinished_refl s : unfinished s s.
Proof. reflexivity. Qed.

Lemma unfinished_trans a b c : unfinished a b -> unfinished b c -> unfinished a c.
Proof. unfold unfinished. congruence. Qed.

Lemma readTextStream_unfinished chatRequest existing st m remaining ending :
  preserves unfinished
    (readTextStream decoder options (onUpdate chatRequest existing)
       st m remaining ending).
Proof.
  revert st m.
  induction remaining as [|[value|] rest IH]; intros st m; simpl.
  - destruct ending; intros s; reflexivity.
  - destruct (decoder st value) as [st' text].
    apply (@preserves_bind unfinished unfinished_trans); [intros s; reflexivity|].
    intros newId.
    apply (@preserves_bind unfinished unfinished_trans).
    + intros s. unfold unfinished. simpl.
      now rewrite !finishedWith_app, !app_nil_r.
    + intros _.
      apply (@preserves_bind unfinished unfinished_trans); [intros s; reflexivity|].
      intros [c|]; [apply IH | intros s; reflexivity].
  - apply (@preserves_bind unfinished unfinished_trans); [|intros _; apply IH].
    intros s. unfold unfinished, stop.
    destruct (abortControllerRef s); simpl; [|reflexivity].
    now rewrite finishedWith_app, app_nil_r.
Qed.

Lemma onUpdate_behaves chatRequest existing :
  wellBehavedUpdate (onUpdate chatRequest existing).
Proof. intros merged data s. eexists. split; reflexivity. Qed.

Lemma bind_returns {A B : Type} (m : Async A) (k : A -> Async B) s a s' :
  m s = (Returns a, s') -> (x <- m ;; k x) s = k a s'.
Proof. intros H. unfold bind. now rewrite H. Qed.

Lemma bind_throws {A B : Type} (m : Async A) (k : A -> Async B) s err s' :
  m s = (Throws err, s') -> (x <- m ;; k x) s = (Throws err, s').
Proof. intros H. unfold bind. now rewrite H. Qed.

(** X22. In plain-text mode the [onFinish] callback is called exactly once,
    with the message that the exchange returns, whenever the reading ends
    without a rejected read - at the end of the body, and also when the
    reading was ended by [stop()] - and it is not called when a read is
    rejected. *)
Theorem text_mode_onFinish (chatRequest : list Message) (response : Response)
    (reader : Reader) (s : Session) :
  streamProtocol options = TextMode ->
  ok response = true ->
  body response = Some reader ->
  onResponseReturns options response ->
  onFinish options = true ->
  let run := getStreamedResponse' chatRequest (Some (FetchResolves response)) s in
  match readOutcome (controllerCleared s) (reads reader) (readError reader) with
  | None =>
      exists m,
        fst run = Returns (mkChatApiResult [m] []) /\
        finishedWith (trace (snd run)) = finishedWith (trace s) ++ [m]
  | Some err =>
      fst run = Throws err /\
      finishedWith (trace (snd run)) = finishedWith (trace s)
  end.
Proof.
  intros Hmode Hok Hbody Hreturns Hfinish. cbv zeta.
  change (getStreamedResponse' chatRequest (Some (FetchResolves response)) s)
    with (callChatApi'
            (constructedMessagesPayload (sendExtraMessageFields options) chatRequest)
            (streamProtocol options)
            (restoreMessagesOnFailure options (messages s))
            (onUpdate chatRequest (streamData s))
            (Some (FetchResolves response))
            (emit (MutateMessages chatRequest) (withMessages chatRequest s))).
  rewrite Hmode.
  rewrite (@callChatApi_text _ _ _ response reader _ Hok Hbody Hreturns).
  match goal with
  | |- context [readTextStream _ _ _ ?st ?m0 ?remaining ?ending] =>
      match goal with
      | |- context [(_ <- _ ;; _) ?s0] =>
          pose proof (@readTextStream_spec (onUpdate chatRequest (streamData s))
                        (onUpdate_behaves chatRequest (streamData s))
                        remaining ending st m0 s0) as Hloop;
          pose proof (@readTextStream_unfinished chatRequest (streamData s)
                        st m0 remaining ending s0) as Hquiet
      end
  end.
  change (controllerCleared
            (withIdSeed (S (idSeed (emit (MutateMessages chatRequest)
                                      (withMessages chatRequest s))))
               (emit (Fetch (constructedMessagesPayload
                               (sendExtraMessageFields options) chatRequest))
                  (emit (MutateMessages chatRequest)
                     (withMessages chatRequest s)))))
    with (controllerCleared s) in Hloop.
  destruct (readOutcome (controllerCleared s) (reads reader) (readError reader))
    as [err|].
  - destruct Hloop as (s' & Hloop).
    rewrite (@bind_throws _ _ _ _ _ _ _ Hloop). rewrite Hloop in Hquiet.
    unfold unfinished in Hquiet. simpl in Hquiet.
    rewrite !finishedWith_app, !app_nil_r in Hquiet.
    split; [reflexivity | exact Hquiet].
  - destruct Hloop as (m & s' & Hloop & _). exists m.
    rewrite (@bind_returns _ _ _ _ _ _ _ Hloop). rewrite Hloop in Hquiet.
    unfold unfinished in Hquiet. simpl in Hquiet.
    rewrite !finishedWith_app, !app_nil_r in Hquiet.
    unfold callOnFinish. rewrite Hfinish. unfold bind, modify, ret. simpl.
    split; [reflexivity|].
    now rewrite finishedWith_app, Hquiet.
Qed.

Lemma chunksRead_stopped chunks :
  chunksRead false (map Chunk chunks ++ [StopRequested]) = chunks.
Proof. induction chunks as [|value chunks IH]; simpl; congruence. Qed.

Lemma readTextStream_stopped chatRequest existing chunks :
  forall st m s c,
    abortControllerRef s = Some c ->
    let run := readTextStream decoder options (onUpdate chatRequest existing) st m
                 (map Chunk chunks ++ [StopRequested]) (Some abortError) s in
    fst run = Throws abortError /\
    exists events, trace (snd run) = trace s ++ events ++ [Abort].
Proof.
  induction chunks as [|value chunks IH]; intros st m s c Hc; cbv zeta.
  - simpl. unfold bind, stop. rewrite Hc. simpl.
    split; [reflexivity|]. now exists [].
  - cbn [map app].
    destruct (decoder st value) as [st' text] eqn:Hdecode.
    rewrite (@readTextStream_chunk (onUpdate chatRequest existing) st m value
               _ _ s st' text _ Hdecode (onUpdate_run _ _ _ _ _)).
    cbn [abortControllerRef emit withStreamData withMessages withIdSeed].
    rewrite Hc.
    match goal with
    | |- context [readTextStream _ _ _ st' ?m1 _ _ ?s2] =>
        destruct (IH st' m1 s2 c Hc) as (Hthrows & events & Htrace)
    end.
    split; [exact Hthrows|].
    rewrite Htrace. simpl. rewrite <- !app_assoc. simpl.
    match goal with
    | |- exists e, _ ++ ?a :: ?b :: _ = _ => now exists (a :: b :: events)
    end.
Qed.

Lemma runReduction_stopped chatRequest existing updates :
  forall s c,
    abortControllerRef s = Some c ->
    let run := runReduction (onUpdate chatRequest existing)
                 (map (fun update => Update (fst update) (snd update)) updates ++
                  [StopDuringReduction])
                 (inl abortError) s in
    fst run = Throws abortError /\
    exists events, trace (snd run) = trace s ++ events ++ [Abort].
Proof.
  induction updates as [|[merged data] updates IH]; intros s c Hc; cbv zeta.
  - simpl. unfold bind, stop. rewrite Hc. simpl.
    split; [reflexivity|]. now exists [].
  - cbn [map app runReduction fst snd].
    replace ((onUpdate chatRequest existing merged data ;;
              runReduction (onUpdate chatRequest existing)
                (map (fun update => Update (fst update) (snd update)) updates ++
                 [StopDuringReduction]) (inl abortError)) s)
      with (runReduction (onUpdate chatRequest existing)
              (map (fun update => Update (fst update) (snd update)) updates ++
               [StopDuringReduction]) (inl abortError)
              (snd (onUpdate chatRequest existing merged data s)))
      by (unfold bind at 1; now rewrite onUpdate_run).
    destruct (IH (snd (onUpdate chatRequest existing merged data s)) c Hc)
      as (Hthrows & events & Htrace).
    split; [exact Hthrows|].
    rewrite Htrace. simpl. rewrite <- !app_assoc. simpl.
    match goal with
    | |- exists e, _ ++ ?a :: ?b :: _ = _ => now exists (a :: b :: events)
    end.
Qed.

Lemma getStreamedResponse_stopped chatRequest response chunks s c :
  ok response = true ->
  body response = Some (stoppedAfter chunks) ->
  onResponseReturns options response ->
  (streamProtocol options = StreamDataMode ->
   reducerStopped parseComplexResponse (stoppedAfter chunks)) ->
  abortControllerRef s = Some c ->
  let exchange :=
    getStreamedResponse' chatRequest (Some (FetchResolves response)) s in
  fst exchange = Throws abortError /\
  (exists events, trace (snd exchange) = trace s ++ events ++ [Abort]) /\
  match streamProtocol options with
  | TextMode =>
      match chunks with
      | [] => messages (snd exchange) = chatRequest
      | _ :: _ =>
          exists m,
            messages (snd exchange) = chatRequest ++ [m] /\
            role m = assistant /\
            content m = concatenation (decodeAll decoder createChunkDecoder chunks)
      end
  | StreamDataMode =>
      match lastUpdate (steps (parseComplexResponse (stoppedAfter chunks))) with
      | None => messages (snd exchange) = chatRequest
      | Some (merged, _) => messages (snd exchange) = chatRequest ++ merged
      end
  end.
Proof.
  intros Hok Hbody Hreturns Hreducer Hc. cbv zeta.
  destruct (streamProtocol options) eqn:Hmode.
  - clear Hreducer.
    change (getStreamedResponse' chatRequest (Some (FetchResolves response)) s)
      with (callChatApi'
              (constructedMessagesPayload (sendExtraMessageFields options) chatRequest)
              (streamProtocol options)
              (restoreMessagesOnFailure options (messages s))
              (onUpdate chatRequest (streamData s))
              (Some (FetchResolves response))
              (emit (MutateMessages chatRequest) (withMessages chatRequest s))).
    rewrite Hmode.
    rewrite (@callChatApi_text _ _ _ response (stoppedAfter chunks) _
               Hok Hbody Hreturns).
    cbn [stoppedAfter reads readError].
    match goal with
    | |- context [readTextStream _ _ _ ?st ?m0 ?remaining ?ending] =>
        match goal with
        | |- context [(_ <- _ ;; _) ?s0] =>
            destruct (@readTextStream_stopped chatRequest (streamData s) chunks
                        st m0 s0 c Hc) as (Hthrows & events & Htrace);
            pose proof (@readTextStream_store chatRequest (streamData s)
                          remaining ending st m0 s0) as Hstore;
            destruct (readTextStream decoder options
                        (onUpdate chatRequest (streamData s)) st m0
                        remaining ending s0) as [outcome s'] eqn:Hloop
        end
    end.
    simpl in Hthrows, Htrace. subst outcome.
    rewrite (@bind_throws _ _ _ _ _ _ _ Hloop). cbn [fst snd].
    split; [reflexivity|]. split.
    + rewrite Htrace. simpl. rewrite <- !app_assoc. simpl.
      match goal with
      | |- exists e, _ ++ ?a :: ?b :: _ = _ => now exists (a :: b :: events)
      end.
    + cbv zeta in Hstore. cbn [snd] in Hstore.
      replace (controllerCleared _) with false in Hstore
        by (unfold controllerCleared; simpl; now rewrite Hc).
      rewrite chunksRead_stopped in Hstore. destruct Hstore as [Hnone Hsome].
      destruct chunks as [|value chunks].
      * now destruct (Hnone eq_refl).
      * destruct Hsome as (m & Hm & Hrole & _ & Hcontent & _); [discriminate|].
        exists m. split; [exact Hm|]. split; [exact Hrole | exact Hcontent].
  - destruct (Hreducer eq_refl) as (updates & Hsteps & Hreduced).
    assert (getStreamedResponse' chatRequest (Some (FetchResolves response)) s =
            runReduction (onUpdate chatRequest (streamData s))
              (steps (parseComplexResponse (stoppedAfter chunks)))
              (reduced (parseComplexResponse (stoppedAfter chunks)))
              (requested options chatRequest s)) as Hrun.
    { rewrite getStreamedResponse_unfold.
      unfold awaitFetch, consumeResponse. unfold bind at 1 2. simpl.
      fold (requested options chatRequest s).
      assert (callOnResponse options response (requested options chatRequest s) =
              (Returns tt, requested options chatRequest s)) as Hcallback.
      { unfold callOnResponse, onResponseReturns in *.
        destruct (onResponse options) as [callback|];
          [now rewrite Hreturns | reflexivity]. }
      now rewrite Hcallback, Hok, Hbody, Hmode. }
    rewrite Hrun.
    pose proof (@runReduction_store chatRequest (streamData s)
                  (steps (parseComplexResponse (stoppedAfter chunks)))
                  (reduced (parseComplexResponse (stoppedAfter chunks)))
                  (requested options chatRequest s)) as Hstore.
    cbv zeta in Hstore.
    destruct (@runReduction_stopped chatRequest (streamData s) updates
                (requested options chatRequest s) c Hc)
      as (Hthrows & events & Htrace).
    rewrite <- Hsteps, <- Hreduced in Hthrows, Htrace.
    split; [exact Hthrows|]. split.
    + rewrite Htrace. simpl. rewrite <- !app_assoc. simpl.
      match goal with
      | |- exists e, _ ++ ?a :: ?b :: _ = _ => now exists (a :: b :: events)
      end.
    + destruct (lastUpdate (steps (parseComplexResponse (stoppedAfter chunks))))
        as [[merged data]|]; now destruct Hstore.
Qed.

(** C5. stop() aborts the controller of the outstanding request and clears
    the reference; it changes neither the message list nor the error slot.
    When the caller invokes it while the body of a response
    (status ok) is being read - after any number of chunks - the read is
    aborted and triggerRequest returns null: the abort is the last event
    before isLoading is set to false, so nothing is published after it; the
    message list keeps all content reduced until then and nothing is rolled
    back - in plain-text mode the messages of the request followed by one
    assistant message holding the text of the chunks received (by the
    messages of the request alone if no chunk was received), in the
    multiplexed mode the messages of the request followed by those of the
    last update; the error slot is empty, the abort controller is cleared,
    isLoading is false, and no further request is issued. *)
Theorem stop_keeps_partial_content (network : list FetchResult)
    (chatRequest : list Message) (response : Response)
    (chunks : list (list byte)) (s : Session) :
  ok response = true ->
  body response = Some (stoppedAfter chunks) ->
  onResponseReturns options response ->
  (streamProtocol options = StreamDataMode ->
   reducerStopped parseComplexResponse (stoppedAfter chunks)) ->
  let run := triggerRequest' (FetchResolves response :: network) chatRequest s in
  let final := snd run in
  (forall during,
     fst (stop during) = Returns tt /\
     abortControllerRef (snd (stop during)) = None /\
     messages (snd (stop during)) = messages during /\
     chatError (snd (stop during)) = chatError during /\
     (forall c,
        abortControllerRef during = Some c ->
        trace (snd (stop during)) = trace during ++ [Abort])) /\
  fst run = Returns ReturnsNull /\
  (exists events,
     trace final = trace s ++ events ++ [Abort; MutateLoading false]) /\
  match streamProtocol options with
  | TextMode =>
      match chunks with
      | [] => messages final = chatRequest
      | _ :: _ =>
          exists m,
            messages final = chatRequest ++ [m] /\
            role m = assistant /\
            content m = concatenation (decodeAll decoder createChunkDecoder chunks)
      end
  | StreamDataMode =>
      match lastUpdate (steps (parseComplexResponse (stoppedAfter chunks))) with
      | None => messages final = chatRequest
      | Some (merged, _) => messages final = chatRequest ++ merged
      end
  end /\
  chatError final = None /\
  abortControllerRef final = None /\
  isLoading final = false /\
  requestsIssued (trace final) = requestsIssued (trace s) ++ [chatRequest].
Proof.
  intros Hok Hbody Hreturns Hreducer. cbv zeta.
  split.
  { intros during. unfold stop.
    destruct (abortControllerRef during) eqn:Hcontroller; simpl;
      repeat split; auto; discriminate. }
  rewrite triggerRequest_unfold. simpl hd_error.
  rewrite requestRound_unfold.
  pose proof (getStreamedResponse_quiet createChunkDecoder decoder
                parseComplexResponse options chatRequest
                (Some (FetchResolves response))
                (started (emit (TriggerRequest chatRequest) s))) as Hquiet.
  destruct (@getStreamedResponse_stopped chatRequest response chunks
              (started (emit (TriggerRequest chatRequest) s)) newAbortController
              Hok Hbody Hreturns Hreducer eq_refl)
    as (Hthrows & (events & Htrace) & Hkept).
  destruct (getStreamedResponse' chatRequest (Some (FetchResolves response))
              (started (emit (TriggerRequest chatRequest) s)))
    as [outcome aborted].
  simpl in Hthrows, Htrace, Hkept, Hquiet. subst outcome.
  change (isAbortError abortError) with true. cbv iota. cbn [fst snd].
  destruct Hquiet as [Hrequests Herror _ _]. simpl in Hrequests, Herror.
  split; [reflexivity|]. split.
  { simpl. rewrite Htrace. rewrite <- !app_assoc. simpl.
    match goal with
    | |- exists e, _ ++ ?a :: ?b :: ?c :: _ = _ =>
        exists (a :: b :: c :: events)
    end.
    reflexivity. }
  split; [exact Hkept|].
  split; [exact Herror|]. split; [reflexivity|]. split; [reflexivity|].
  simpl. rewrite requestsIssued_app, Hrequests, app_nil_r.
  now rewrite <- !app_assoc, !requestsIssued_app, !app_nil_r.
Qed.

Lemma addToolResult_only_stores network toolCallId' result' front lastMessage s :
  messages s = front ++ [lastMessage] ->
  ~ answeredBy toolCallId' lastMessage ->
  addToolResult' network toolCallId' result' s =
  (Returns tt,
   emit (MutateMessages (updatedMessages toolCallId' result' (messages s)))
     (withMessages (updatedMessages toolCallId' result' (messages s)) s)).
Proof.
  intros Hmessages Hno. rewrite addToolResult_unfold. cbv zeta.
  rewrite Hmessages at 1. rewrite updatedMessages_last, lastMessageOf_snoc.
  pose proof (updateLastMessage_ready toolCallId' result' lastMessage) as Hready.
  destruct (isAssistantMessageWithCompletedToolCalls
              (updateLastMessage toolCallId' result' lastMessage));
    [|reflexivity].
  exfalso. now apply Hno, Hready.
Qed.

(** X3. Two results for different toolCallIds, recorded by two calls of
    addToolResult of which the second reads the list that the first has
    stored (the calls are separated by a render), while neither result alone
    completes the last message so that the first call only stores its list:
    whichever call comes first, the second call computes and stores the same
    list, the one that holds both results. *)
Theorem addToolResult_either_order (network : list FetchResult)
    (id1 id2 : string) (r1 r2 : JSONValue)
    (front : list Message) (lastMessage : Message) (s : Session) :
  messages s = front ++ [lastMessage] ->
  id1 <> id2 ->
  ~ answeredBy id1 lastMessage ->
  ~ answeredBy id2 lastMessage ->
  let after1 := snd (addToolResult' network id1 r1 s) in
  let after2 := snd (addToolResult' network id2 r2 s) in
  let both := updatedMessages id2 r2 (updatedMessages id1 r1 (messages s)) in
  messages after1 = updatedMessages id1 r1 (messages s) /\
  messages after2 = updatedMessages id2 r2 (messages s) /\
  (exists rest,
     trace (snd (addToolResult' network id2 r2 after1)) =
     trace after1 ++ MutateMessages both :: rest) /\
  (exists rest,
     trace (snd (addToolResult' network id1 r1 after2)) =
     trace after2 ++ MutateMessages both :: rest).
Proof.
  intros Hmessages Hne Hno1 Hno2. cbv zeta.
  rewrite (@addToolResult_only_stores network id1 r1 front lastMessage s
             Hmessages Hno1).
  rewrite (@addToolResult_only_stores network id2 r2 front lastMessage s
             Hmessages Hno2).
  cbn [snd].
  split; [reflexivity|]. split; [reflexivity|]. split.
  - apply addToolResult_stores.
  - match goal with
    | |- context [addToolResult' network id1 r1 ?s2] =>
        destruct (addToolResult_stores network id1 r1 s2) as [rest Hrest]
    end.
    exists rest. rewrite Hrest. cbn [messages emit withMessages].
    now rewrite (@updatedMessages_commute id1 id2 r1 r2 (messages s) Hne).
Qed.

End Claims.

(** C1, as stated, fails: after a round trip that brought no new message
    (here the fetch is rejected and the optimistic update rolled back), (a),
    (b) and (c) all hold with maxSteps = 5, the predicate is false, and no
    follow-up request is issued although the network would answer one. *)
Lemma continuation_needs_new_messages :
  let current := [userMessage; completedToolMessage] in
  let final :=
    snd (triggerRequest tt asciiDecoder exampleReducer
           (exampleOptions 5 false StreamDataMode)
           [FetchRejects networkError; FetchResolves (okResponse ["done"])]
           current (withMessages current emptySession)) in
  messages final = current /\
  (exists lastMessage,
     lastMessageOf (messages final) = Some lastMessage /\
     role lastMessage = assistant /\
     readyForContinuation lastMessage) /\
  (Z.of_nat (countTrailingAssistantMessages (messages final)) < 5)%Z /\
  shouldAutoSubmit 5 (length current) (messages final) = false /\
  requestsIssued (trace final) = [current].
Proof.
  cbv zeta. split; [reflexivity|]. split.
  - exists completedToolMessage. split; [reflexivity|]. split; [reflexivity|].
    apply isReady_iff. reflexivity.
  - split; [vm_compute; reflexivity|]. split; reflexivity.
Qed.

Lemma exampleReducer_assistant : reducerCreatesAssistantMessages exampleReducer.
Proof.
  intros [reads' ending]. simpl.
  induction reads' as [|[value|] rest IH]; simpl; constructor; auto.
Qed.

(** A run within the step budget: with maxSteps = 3 and a server that
    answers every request with a finished tool call, the reducer of the
    examples only adds assistant messages, the request of the caller is
    followed by at most two automatic requests, and the run ends. *)
Lemma step_budget_witness :
  reducerCreatesAssistantMessages exampleReducer /\
  exists automatic,
    requestsIssued
      (trace (snd (triggerRequest tt asciiDecoder exampleReducer
                     (exampleOptions 3 false StreamDataMode)
                     [FetchResolves (okResponse ["a"]);
                      FetchResolves (okResponse ["b"]);
                      FetchResolves (okResponse ["c"])]
                     [userMessage] emptySession))) =
      [userMessage] :: automatic /\
    Forall (fun payload =>
              (Z.of_nat (countTrailingAssistantMessages payload) < 3)%Z)
           automatic /\
    (Z.of_nat (length automatic) <= 2)%Z /\
    settles (fst (triggerRequest tt asciiDecoder exampleReducer
                    (exampleOptions 3 false StreamDataMode)
                    [FetchResolves (okResponse ["a"]);
                     FetchResolves (okResponse ["b"]);
                     FetchResolves (okResponse ["c"])]
                    [userMessage] emptySession)).
Proof.
  split; [exact exampleReducer_assistant|].
  destruct (step_budget tt asciiDecoder exampleReducer
              (exampleOptions 3 false StreamDataMode)
              [FetchResolves (okResponse ["a"]);
               FetchResolves (okResponse ["b"]);
               FetchResolves (okResponse ["c"])]
              [userMessage] emptySession)
    as (automatic & Hreq & Hall & _ & Hbound).
  destruct (Hbound exampleReducer_assistant) as [Hcount Hsettles].
  exists automatic. split; [exact Hreq|]. split; [exact Hall|].
  split; [exact Hcount|]. apply Hsettles. simpl. lia.
Defined.

Example step_budget_run :
  requestsIssued
    (trace (snd (triggerRequest tt asciiDecoder exampleReducer
                   (exampleOptions 3 false StreamDataMode)
                   [FetchResolves (okResponse ["a"]);
                    FetchResolves (okResponse ["b"]);
                    FetchResolves (okResponse ["c"]);
                    FetchResolves (okResponse ["d"])]
                   [userMessage] emptySession))) =
  [[userMessage];
   [userMessage; toolCallMessage "a"];
   [userMessage; toolCallMessage "a"; toolCallMessage "b"]].
Proof. reflexivity. Qed.

(** The scenario of C3 with step budget 1: the result of the only pending
    tool call is added, one request follows, and no second one although the
    response again ends in an assistant message whose tool calls all have
    results. *)
Lemma addToolResult_triggers_witness :
  requestsIssued
    (trace (snd (addToolResult tt asciiDecoder exampleReducer
                   (exampleOptions 1 false StreamDataMode)
                   [FetchResolves (okResponse ["a"]);
                    FetchResolves (okResponse ["b"])]
                   "call-1" (JString "sunny")
                   (withMessages [userMessage; pendingToolMessage] emptySession)))) =
  [[userMessage; completedToolMessage]].
Proof.
  destruct (@addToolResult_triggers unit tt asciiDecoder exampleReducer
              (exampleOptions 1 false StreamDataMode)
              [FetchResolves (okResponse ["a"]);
               FetchResolves (okResponse ["b"])]
              "call-1" (JString "sunny")
              (withMessages [userMessage; pendingToolMessage] emptySession)
              [userMessage] pendingToolMessage [] [] (weatherCall None)
              eq_refl eq_refl eq_refl eq_refl eq_refl
              (Forall_nil _) (Forall_nil _))
    as [_ (automatic & Hreq & Hone)].
  rewrite Hreq, (Hone eq_refl). reflexivity.
Defined.

Example addToolResult_response_kept :
  messages (snd (addToolResult tt asciiDecoder exampleReducer
                   (exampleOptions 1 false StreamDataMode)
                   [FetchResolves (okResponse ["a"]);
                    FetchResolves (okResponse ["b"])]
                   "call-1" (JString "sunny")
                   (withMessages [userMessage; pendingToolMessage] emptySession))) =
  [userMessage; completedToolMessage; toolCallMessage "a"].
Proof. reflexivity. Qed.

(** C4, as stated, fails: the response status is not ok and
    keepLastMessageOnError is not set, but the onResponse callback throws
    before the status is looked at, so the optimistic update is not rolled
    back: the list stays [userMessage] instead of the empty snapshot. *)
Lemma not_ok_response_without_rollback :
  ok serverError = false /\
  keepLastMessageOnError throwingOptions = false /\
  messages emptySession = [] /\
  fst (getStreamedResponse tt asciiDecoder exampleReducer throwingOptions
         [userMessage] (Some (FetchResolves serverError)) emptySession) =
    Throws callbackError /\
  messages (snd (getStreamedResponse tt asciiDecoder exampleReducer throwingOptions
                   [userMessage] (Some (FetchResolves serverError)) emptySession)) =
    [userMessage] /\
  messages (snd (triggerRequest tt asciiDecoder exampleReducer throwingOptions
                   [FetchResolves serverError] [userMessage] emptySession)) =
    [userMessage].
Proof. repeat split. Qed.

(** A rejected fetch: the list goes back to the (empty) snapshot and the
    error reaches the error slot. *)
Lemma failed_request_rollback_witness :
  failsBeforeBody (exampleOptions 1 false StreamDataMode)
                  (FetchRejects networkError) networkError /\
  messages (snd (requestRound tt asciiDecoder exampleReducer
                   (exampleOptions 1 false StreamDataMode) [userMessage]
                   (Some (FetchRejects networkError)) emptySession)) = [] /\
  chatError (snd (requestRound tt asciiDecoder exampleReducer
                    (exampleOptions 1 false StreamDataMode) [userMessage]
                    (Some (FetchRejects networkError)) emptySession)) =
    Some networkError.
Proof.
  split; [now left|].
  destruct (@failed_request_rollback unit tt asciiDecoder exampleReducer
              (exampleOptions 1 false StreamDataMode) [userMessage]
              (FetchRejects networkError) networkError emptySession
              (or_introl eq_refl))
    as (_ & _ & Hmessages & Herror & _).
  split; [exact Hmessages|exact Herror].
Defined.

(** The optimistic append of [append], rolled back when the fetch fails. *)
Example append_rolled_back :
  let run :=
    snd (append tt asciiDecoder exampleReducer
           (exampleOptions 1 false StreamDataMode)
           [FetchRejects networkError] (Some "user-1") userMessage None
           emptySession) in
  In (MutateMessages [mkMessage "user-1" (Some 0) user
                                "What is the weather in Oslo?" None None None])
     (trace run) /\
  messages run = [] /\
  chatError run = Some networkError.
Proof. cbv zeta. split; [vm_compute; tauto|split; reflexivity]. Qed.

Example failed_request_kept :
  messages (snd (requestRound tt asciiDecoder exampleReducer
                   (exampleOptions 1 true StreamDataMode) [userMessage]
                   (Some (FetchResolves serverError)) emptySession)) =
  [userMessage].
Proof. reflexivity. Qed.

(** Cancelling mid-stream, after two of the expected text deltas, in
    plain-text mode and in the multiplexed mode: the content received stays
    in the message list, nothing is rolled back, no error is recorded, and
    isLoading is false. *)
Lemma stop_keeps_partial_content_witness :
  let text :=
    triggerRequest tt asciiDecoder exampleReducer (exampleOptions 1 false TextMode)
      [FetchResolves abortedResponse] [userMessage] emptySession in
  let multiplexed :=
    triggerRequest tt asciiDecoder exampleReducer
      (exampleOptions 5 false StreamDataMode)
      [FetchResolves abortedResponse] [userMessage] emptySession in
  (fst text = Returns ReturnsNull /\
   (exists m, messages (snd text) = [userMessage; m] /\ content m = "Hello ") /\
   (exists events,
      trace (snd text) = events ++ [Abort; MutateLoading false]) /\
   chatError (snd text) = None /\
   isLoading (snd text) = false) /\
  (fst multiplexed = Returns ReturnsNull /\
   messages (snd multiplexed) = [userMessage; toolCallMessage "lo "] /\
   (exists events,
      trace (snd multiplexed) = events ++ [Abort; MutateLoading false]) /\
   chatError (snd multiplexed) = None /\
   isLoading (snd multiplexed) = false).
Proof.
  cbv zeta. split.
  - destruct (@stop_keeps_partial_content unit tt asciiDecoder exampleReducer
                (exampleOptions 1 false TextMode) [] [userMessage]
                abortedResponse
                [list_byte_of_string "Hel"; list_byte_of_string "lo "]
                emptySession eq_refl eq_refl I)
      as (_ & Hreturn & Htrace & Hkept & Herror & _ & Hloading & _);
      [discriminate|].
    split; [exact Hreturn|].
    split; [destruct Hkept as (m & Hm & _ & Hcontent); now exists m|].
    split; [exact Htrace|]. split; [exact Herror | exact Hloading].
  - destruct (@stop_keeps_partial_content unit tt asciiDecoder exampleReducer
                (exampleOptions 5 false StreamDataMode) [] [userMessage]
                abortedResponse
                [list_byte_of_string "Hel"; list_byte_of_string "lo "]
                emptySession eq_refl eq_refl I)
      as (_ & Hreturn & Htrace & Hkept & Herror & _ & Hloading & _).
    { intros _.
      exists [([toolCallMessage "Hel"], None); ([toolCallMessage "lo "], None)].
      split; reflexivity. }
    split; [exact Hreturn|]. split; [exact Hkept|].
    split; [exact Htrace|]. split; [exact Herror | exact Hloading].
Defined.

Example stop_in_stream_data_mode :
  messages (snd (triggerRequest tt asciiDecoder exampleReducer
                   (exampleOptions 5 false StreamDataMode)
                   [FetchResolves abortedResponse] [userMessage] emptySession)) =
  [userMessage; toolCallMessage "lo "].
Proof. reflexivity. Qed.

(** A stop() while the fetch itself is outstanding is a failure before any
    byte: the optimistic update is rolled back. *)
Example stop_during_fetch :
  messages (snd (triggerRequest tt asciiDecoder exampleReducer
                   (exampleOptions 1 false TextMode)
                   [FetchStopped] [userMessage] emptySession)) = [] /\
  chatError (snd (triggerRequest tt asciiDecoder exampleReducer
                    (exampleOptions 1 false TextMode)
                    [FetchStopped] [userMessage] emptySession)) = None.
Proof. split; reflexivity. Qed.

(** An error fills the error slot; the next request that succeeds clears
    it; isLoading is false after each. *)
Example error_then_success :
  let failedRun :=
    snd (triggerRequest tt asciiDecoder exampleReducer
           (exampleOptions 1 true TextMode)
           [FetchRejects networkError] [userMessage] emptySession) in
  let retried :=
    snd (triggerRequest tt asciiDecoder exampleReducer
           (exampleOptions 1 true TextMode)
           [FetchResolves (okResponse ["Hello"])] [userMessage] failedRun) in
  chatError failedRun = Some networkError /\ isLoading failedRun = false /\
  chatError retried = None /\ isLoading retried = false.
Proof. repeat split. Qed.

Lemma onUpdate_wellBehaved chatRequest existing :
  wellBehavedUpdate (onUpdate chatRequest existing).
Proof. intros merged data s. eexists. split; reflexivity. Qed.

(** Two chunks in text mode: one assistant message with the text of both. *)
Lemma text_mode_single_message_witness :
  exists m,
    fst (callChatApi tt asciiDecoder exampleReducer
           (exampleOptions 1 false TextMode) [] TextMode (ret tt)
           (onUpdate [userMessage] None)
           (Some (FetchResolves (okResponse ["Hel"; "lo"])))
           (withAbortController (Some newAbortController) emptySession)) =
      Returns (mkChatApiResult [m] []) /\
    role m = assistant /\
    content m = "Hello".
Proof.
  exact (@text_mode_single_message unit tt asciiDecoder exampleReducer
           (exampleOptions 1 false TextMode) [] (ret tt)
           (onUpdate [userMessage] None)
           (okResponse ["Hel"; "lo"])
           (mkReader [Chunk (list_byte_of_string "Hel");
                      Chunk (list_byte_of_string "lo")] None)
           (withAbortController (Some newAbortController) emptySession)
           eq_refl eq_refl I (onUpdate_wellBehaved [userMessage] None)).
Defined.

Example text_mode_read_error :
  fst (callChatApi tt asciiDecoder exampleReducer
         (exampleOptions 1 false TextMode) [] TextMode (ret tt)
         (onUpdate [userMessage] None)
         (Some (FetchResolves
                  (mkResponse true ""
                     (Some (mkReader [Chunk (list_byte_of_string "Hel")]
                                     (Some networkError))))))
         (withAbortController (Some newAbortController) emptySession)) =
  Throws networkError.
Proof. reflexivity. Qed.

Example reload_drops_last_assistant_message :
  requestsIssued
    (trace (snd (reload tt asciiDecoder exampleReducer
                   (exampleOptions 1 false TextMode)
                   [FetchResolves (okResponse ["Hi"])]
                   (withMessages [userMessage; completedToolMessage] emptySession)))) =
  [[userMessage]] /\
  reload tt asciiDecoder exampleReducer (exampleOptions 1 false TextMode)
         [FetchResolves (okResponse ["Hi"])] emptySession =
  (Returns ReturnsNull, emptySession).
Proof. split; reflexivity. Qed.

(* ===================================================================== *)
(** * Runs of the further properties *)
(* ===================================================================== *)

Lemma empty_body_not_rolled_back_witness :
  getStreamedResponse tt asciiDecoder exampleReducer
    (exampleOptions 1 false StreamDataMode) [userMessage]
    (Some (FetchResolves (mkResponse true "" None))) emptySession =
  (Throws (newError "The response body is empty."),
   requested (exampleOptions 1 false StreamDataMode) [userMessage] emptySession).
Proof.
  apply (@empty_body_not_rolled_back unit tt asciiDecoder exampleReducer
           (exampleOptions 1 false StreamDataMode) [userMessage]
           (mkResponse true "" None) emptySession);
    [reflexivity | reflexivity | exact I].
Defined.

Lemma onResponse_error_not_rolled_back_witness :
  getStreamedResponse tt asciiDecoder exampleReducer throwingOptions
    [userMessage] (Some (FetchResolves (okResponse ["Hello"]))) emptySession =
  (Throws callbackError, requested throwingOptions [userMessage] emptySession).
Proof.
  apply (@onResponse_error_not_rolled_back unit tt asciiDecoder exampleReducer
           throwingOptions [userMessage] (okResponse ["Hello"])
           (fun _ => Some callbackError) callbackError emptySession);
    reflexivity.
Defined.

(** Two chunks are stored as one message; an empty body stores none. *)
Lemma text_mode_store_witness :
  exists m,
    messages (snd (getStreamedResponse tt asciiDecoder exampleReducer
                     (exampleOptions 1 false TextMode) [userMessage]
                     (Some (FetchResolves (okResponse ["Hel"; "lo"])))
                     (withAbortController (Some newAbortController) emptySession))) =
      [userMessage; m] /\
    content m = "Hello".
Proof.
  destruct (@text_mode_store unit tt asciiDecoder exampleReducer
              (exampleOptions 1 false TextMode) [userMessage]
              (okResponse ["Hel"; "lo"])
              (mkReader [Chunk (list_byte_of_string "Hel");
                         Chunk (list_byte_of_string "lo")] None)
              (withAbortController (Some newAbortController) emptySession)
              eq_refl eq_refl eq_refl I)
    as [_ Hsome].
  destruct Hsome as (m & Hmessages & _ & _ & Hcontent & _); [discriminate|].
  exists m. split; [exact Hmessages | exact Hcontent].
Defined.

Example text_mode_empty_body_stores_nothing :
  getStreamedResponse tt asciiDecoder exampleReducer
    (exampleOptions 1 false TextMode) [userMessage]
    (Some (FetchResolves (okResponse [])))
    (withAbortController (Some newAbortController) emptySession) =
  (Returns (mkChatApiResult
              [mkMessage "generated" (Some 0) assistant "" None None None] []),
   withIdSeed 1
     (requested (exampleOptions 1 false TextMode) [userMessage]
        (withAbortController (Some newAbortController) emptySession))).
Proof. reflexivity. Qed.

(** A reload whose fetch is rejected: with the default options the
    assistant message is back in the list. *)
Lemma reload_failure_witness :
  let final :=
    snd (reload tt asciiDecoder exampleReducer
           (exampleOptions 1 false StreamDataMode)
           [FetchRejects networkError]
           (withMessages [userMessage; completedToolMessage] emptySession)) in
  requestsIssued (trace final) = [[userMessage]] /\
  messages final = [userMessage; completedToolMessage] /\
  chatError final = Some networkError.
Proof.
  apply (@reload_failure unit tt asciiDecoder exampleReducer
           (exampleOptions 1 false StreamDataMode) [] (FetchRejects networkError)
           networkError [userMessage] completedToolMessage
           (withMessages [userMessage; completedToolMessage] emptySession)).
  - reflexivity.
  - left. reflexivity.
Defined.

Example reload_failure_keeping_the_request :
  messages (snd (reload tt asciiDecoder exampleReducer
                   (exampleOptions 1 true StreamDataMode)
                   [FetchRejects networkError]
                   (withMessages [userMessage; completedToolMessage] emptySession))) =
  [userMessage].
Proof. reflexivity. Qed.

Lemma append_failure_undone_witness :
  let final :=
    snd (append tt asciiDecoder exampleReducer
           (exampleOptions 1 false StreamDataMode)
           [FetchResolves serverError] None userMessage None emptySession) in
  messages final = [] /\
  (exists appended,
     requestsIssued (trace final) = [[appended]] /\
     role appended = user /\
     content appended = "What is the weather in Oslo?" /\
     toolInvocations appended = None) /\
  chatError final = Some (newError "Internal Server Error").
Proof.
  apply (@append_failure_undone unit tt asciiDecoder exampleReducer
           (exampleOptions 1 false StreamDataMode) [] (FetchResolves serverError)
           (newError "Internal Server Error") None userMessage None emptySession).
  - reflexivity.
  - right. right. exists serverError. repeat split.
Defined.

Lemma stream_data_last_update_wins_witness :
  let final :=
    snd (getStreamedResponse tt asciiDecoder exampleReducer
           (exampleOptions 1 false StreamDataMode) [userMessage]
           (Some (FetchResolves (okResponse ["Hel"; "Hello"]))) emptySession) in
  messages final = [userMessage; toolCallMessage "Hello"] /\
  streamData final = Some [].
Proof.
  apply (@stream_data_last_update_wins unit tt asciiDecoder exampleReducer
           (exampleOptions 1 false StreamDataMode) [userMessage]
           (okResponse ["Hel"; "Hello"])
           (mkReader [Chunk (list_byte_of_string "Hel");
                      Chunk (list_byte_of_string "Hello")] None)
           emptySession eq_refl eq_refl eq_refl I).
Defined.

Lemma failed_request_keeps_controller_witness :
  let final :=
    snd (triggerRequest tt asciiDecoder exampleReducer
           (exampleOptions 1 false StreamDataMode)
           [FetchRejects networkError] [userMessage] emptySession) in
  isLoading final = false /\
  abortControllerRef final = Some newAbortController /\
  snd (stop final) = withAbortController None (emit Abort final).
Proof.
  apply (@failed_request_keeps_controller unit tt asciiDecoder exampleReducer
           (exampleOptions 1 false StreamDataMode) [] (FetchRejects networkError)
           [userMessage] networkError emptySession).
  - left. reflexivity.
  - reflexivity.
  - reflexivity.
Defined.

Example handleSubmit_sends_the_input :
  fst (handleSubmit tt asciiDecoder exampleReducer (exampleOptions 1 false TextMode)
         [FetchResolves (okResponse ["Sunny."])]
         "What is the weather in Oslo?" false None emptySession) = Returns "" /\
  messages (snd (handleSubmit tt asciiDecoder exampleReducer
                   (exampleOptions 1 false TextMode)
                   [FetchResolves (okResponse ["Sunny."])]
                   "What is the weather in Oslo?" false None emptySession)) =
  [mkMessage "generated" (Some 0) user "What is the weather in Oslo?" None None None;
   mkMessage "generated" (Some 0) assistant "Sunny." None None None].
Proof. split; reflexivity. Qed.

Example handleSubmit_empty_input_with_attachments :
  handleSubmit tt asciiDecoder exampleReducer (exampleOptions 1 false TextMode)
    [FetchResolves (okResponse ["Sunny."])] "" false
    (Some [mkAttachment (Some "notes.txt") (Some "text/plain") "data:text/plain;base64,SGk="])
    emptySession =
  (Returns "", emptySession).
Proof. reflexivity. Qed.

Example addToolResult_waits_for_the_other_call :
  addToolResult tt asciiDecoder exampleReducer (exampleOptions 5 false StreamDataMode)
    [FetchResolves (okResponse ["Sunny."])] "call-1" (JString "sunny")
    (withMessages
       [userMessage;
        mkMessage "assistant-0" None assistant "" None None
          (Some [weatherCall None;
                 mkToolInvocation "call-2" "getTime" JNull None])]
       emptySession) =
  (Returns tt,
   emit (MutateMessages
           [userMessage;
            mkMessage "assistant-0" None assistant "" None None
              (Some [weatherCall (Some (JString "sunny"));
                     mkToolInvocation "call-2" "getTime" JNull None])])
     (withMessages
        [userMessage;
         mkMessage "assistant-0" None assistant "" None None
           (Some [weatherCall (Some (JString "sunny"));
                  mkToolInvocation "call-2" "getTime" JNull None])]
        emptySession)).
Proof. reflexivity. Qed.

(** The reading is ended by stop() after the second chunk; onFinish is
    called with the text received so far. *)
Lemma text_mode_onFinish_witness :
  let run :=
    getStreamedResponse tt asciiDecoder exampleReducer finishingOptions
      [userMessage] (Some (FetchResolves stoppedResponse))
      (withAbortController (Some newAbortController) emptySession) in
  fst run =
    Returns (mkChatApiResult
               [mkMessage "generated" (Some 0) assistant "Hello" None None None] []) /\
  finishedWith (trace (snd run)) =
    [mkMessage "generated" (Some 0) assistant "Hello" None None None].
Proof.
  destruct (@text_mode_onFinish unit tt asciiDecoder exampleReducer finishingOptions
              [userMessage] stoppedResponse
              (mkReader [Chunk (list_byte_of_string "Hel");
                         StopRequested;
                         Chunk (list_byte_of_string "lo");
                         Chunk (list_byte_of_string " world")]
                        None)
              (withAbortController (Some newAbortController) emptySession)
              eq_refl eq_refl eq_refl I eq_refl)
    as (m & Hreturns & Hfinished).
  split; [reflexivity|]. rewrite Hfinished.
  injection Hreturns as <-. reflexivity.
Defined.

(** The request that [addToolResult] starts takes its snapshot from the ref,
    which still holds the list without the result: when that request fails,
    the rollback drops the result from the store. *)
Example addToolResult_failure_drops_the_result :
  messages (snd (addToolResult tt asciiDecoder exampleReducer
                   (exampleOptions 5 false StreamDataMode)
                   [FetchRejects networkError] "call-1" (JString "sunny")
                   (withMessages [userMessage; pendingToolMessage] emptySession))) =
  [userMessage; pendingToolMessage] /\
  messages (snd (addToolResult tt asciiDecoder exampleReducer
                   (exampleOptions 5 true StreamDataMode)
                   [FetchRejects networkError] "call-1" (JString "sunny")
                   (withMessages [userMessage; pendingToolMessage] emptySession))) =
  [userMessage; completedToolMessage].
Proof. split; reflexivity. Qed.

(** Two pending tool calls of one message, answered in either order. *)
Lemma addToolResult_either_order_witness :
  let network := [FetchResolves (okResponse ["Sunny, at noon."])] in
  let s := withMessages [userMessage; twoCallsMessage] emptySession in
  let after1 :=
    snd (addToolResult tt asciiDecoder exampleReducer
           (exampleOptions 1 false TextMode) network "call-1" (JString "sunny") s) in
  let after2 :=
    snd (addToolResult tt asciiDecoder exampleReducer
           (exampleOptions 1 false TextMode) network "call-2" (JString "noon") s) in
  let both :=
    [userMessage;
     mkMessage "assistant-0" None assistant "" None None
       (Some [weatherCall (Some (JString "sunny"));
              mkToolInvocation "call-2" "getTime" JNull (Some (JString "noon"))])] in
  messages after1 <> messages after2 /\
  (exists rest,
     trace (snd (addToolResult tt asciiDecoder exampleReducer
                   (exampleOptions 1 false TextMode) network
                   "call-2" (JString "noon") after1)) =
     trace after1 ++ MutateMessages both :: rest) /\
  (exists rest,
     trace (snd (addToolResult tt asciiDecoder exampleReducer
                   (exampleOptions 1 false TextMode) network
                   "call-1" (JString "sunny") after2)) =
     trace after2 ++ MutateMessages both :: rest).
Proof.
  cbv zeta.
  destruct (@addToolResult_either_order unit tt asciiDecoder exampleReducer
              (exampleOptions 1 false TextMode)
              [FetchResolves (okResponse ["Sunny, at noon."])]
              "call-1" "call-2" (JString "sunny") (JString "noon")
              [userMessage] twoCallsMessage
              (withMessages [userMessage; twoCallsMessage] emptySession))
    as (_ & _ & Hfirst & Hsecond).
  - reflexivity.
  - discriminate.
  - intros [_ (invocations & Hinvocations & _ & Hall)].
    injection Hinvocations as <-.
    pose proof (Forall_inv (Forall_inv_tail Hall)) as [Hcomplete|Hid];
      [now apply Hcomplete | discriminate].
  - intros [_ (invocations & Hinvocations & _ & Hall)].
    injection Hinvocations as <-.
    pose proof (Forall_inv Hall) as [Hcomplete|Hid];
      [now apply Hcomplete | discriminate].
  - split; [discriminate|]. split; [exact Hfirst | exact Hsecond].
Defined.

(* ===================================================================== *)
(** * Facts about getTextFromDataUrl *)
(* ===================================================================== *)

Module DataUrlFacts.
Import DataUrl.

Lemma split_without (separator : ascii) (text : string) :
  without separator text = true -> split separator text = [text].
Proof.
  induction text as [|c rest IH]; simpl; [reflexivity|].
  destruct (Ascii.eqb c separator); simpl; [discriminate|].
  intros H. now rewrite IH.
Qed.

Lemma split_at (separator : ascii) (first rest : string) :
  without separator first = true ->
  split separator (first ++ String separator rest) = first :: split separator rest.
Proof.
  induction first as [|c first IH]; simpl.
  - intros _. now rewrite Ascii.eqb_refl.
  - destruct (Ascii.eqb c separator); simpl; [discriminate|].
    intros H. now rewrite IH.
Qed.

Lemma split_head (separator : ascii) (text : string) :
  exists first pieces, split separator text = first :: pieces.
Proof.
  destruct text as [|c rest]; simpl; [now eexists; eexists|].
  destruct (Ascii.eqb c separator); [now eexists; eexists|].
  destruct (split separator rest); now eexists; eexists.
Qed.

Section GetTextFacts.

Variable atob : string -> Error + string.

(** X15. A data URL [scheme:mediaType[;parameters],content] - with
    anything after a further comma - yields [atob(content)]: the decoded
    text, or the error that [atob] throws. Neither the scheme nor the media
    type nor a base64 marker is looked at, and what follows a second comma is
    ignored. *)
Theorem getTextFromDataUrl_content
    (scheme mediaType parameters content' ignored : string) :
  without ":" scheme = true ->
  without ";" scheme = true ->
  without ";" mediaType = true ->
  parameters = "" \/ (exists p, parameters = String ";" p) ->
  ignored = "" \/ (exists t, ignored = String "," t) ->
  without "," (scheme ++ String ":" (mediaType ++ parameters)) = true ->
  without "," content' = true ->
  getTextFromDataUrl atob
    ((scheme ++ String ":" (mediaType ++ parameters)) ++
     String "," (content' ++ ignored)) =
  atob content'.
Proof.
  intros Hscheme Hscheme' Hmedia Hparameters Hignored Hheader Hcontent.
  unfold getTextFromDataUrl.
  rewrite (@split_at _ _ _ Hheader).
  assert (exists more, split "," (content' ++ ignored) = content' :: more)
    as [more Hmore].
  { destruct Hignored as [->|[t ->]].
    - exists []. rewrite append_empty_r. now apply split_without.
    - eexists. now apply split_at. }
  rewrite Hmore. cbn [nth_error].
  assert (exists more', split ";" (scheme ++ String ":" (mediaType ++ parameters)) =
                        (scheme ++ String ":" mediaType)%string :: more')
    as [more' Hfirst].
  { assert (without ";" (scheme ++ String ":" mediaType) = true) as Hsegment.
    { clear - Hscheme' Hmedia.
      induction scheme as [|c scheme IH]; simpl in *; [exact Hmedia|].
      destruct (Ascii.eqb c ";"); simpl in *; [discriminate|]. now apply IH. }
    destruct Hparameters as [->|[p ->]].
    - exists []. rewrite append_empty_r. now apply split_without.
    - exists (split ";" p).
      replace (scheme ++ String ":" (mediaType ++ String ";" p))%string
        with ((scheme ++ String ":" mediaType) ++ String ";" p)%string
        by (clear; induction scheme as [|c scheme IH]; simpl;
            [reflexivity | now rewrite IH]).
      now apply split_at. }
  rewrite Hfirst. cbn [nth_error].
  rewrite (@split_at _ _ _ Hscheme).
  destruct (split_head ":" mediaType) as (first & pieces & ->).
  reflexivity.
Qed.

(** X16. [getTextFromDataUrl] throws 'Invalid data URL format' when the
    text holds no comma, and when the part before the first comma holds no
    colon; [atob] is not called then. *)
Theorem getTextFromDataUrl_invalid (dataUrl : string) :
  (without "," dataUrl = true ->
   getTextFromDataUrl atob dataUrl = inl (newError "Invalid data URL format")) /\
  (forall header rest : string,
     dataUrl = (header ++ String "," rest)%string ->
     without "," header = true ->
     without ":" header = true ->
     getTextFromDataUrl atob dataUrl = inl (newError "Invalid data URL format")).
Proof.
  unfold getTextFromDataUrl. split.
  - intros H. rewrite (@split_without _ _ H). cbn [nth_error].
    match goal with
    | |- match ?mimeType with _ => _ end = _ => now destruct mimeType
    end.
  - intros header rest -> Hcomma Hcolon.
    rewrite (@split_at _ _ _ Hcomma). cbn [nth_error].
    destruct (split_head ";" header) as (first & pieces & Hsplit).
    rewrite Hsplit. cbn [nth_error].
    assert (without ":" first = true) as Hfirst.
    { clear - Hcolon Hsplit. revert first pieces Hsplit.
      induction header as [|c header IH]; simpl in *; intros first pieces Hsplit.
      - now injection Hsplit as <- <-.
      - apply andb_true_iff in Hcolon. destruct Hcolon as [Hc Hrest].
        destruct (Ascii.eqb c ";").
        + now injection Hsplit as <- <-.
        + destruct (split_head ";" header) as (first' & pieces' & Hsplit').
          rewrite Hsplit' in Hsplit. injection Hsplit as <- <-.
          simpl. rewrite Hc. simpl. now apply (IH Hrest first' pieces'). }
    rewrite (@split_without _ _ Hfirst). cbn [nth_error].
    now destruct (split "," rest).
Qed.

End GetTextFacts.

(** Nothing checks that the media type is a text type, and the text after
    a second comma is dropped. *)
Lemma getTextFromDataUrl_content_witness :
  getTextFromDataUrl exampleAtob "data:image/png;base64,SGk=,ignored" = inr "Hi".
Proof.
  apply (@getTextFromDataUrl_content exampleAtob "data" "image/png" ";base64"
           "SGk=" ",ignored");
    try reflexivity.
  - right. now exists "base64".
  - right. now exists "ignored".
Defined.

Example getTextFromDataUrl_without_comma :
  getTextFromDataUrl exampleAtob "data:text/plain;base64" =
  inl (newError "Invalid data URL format").
Proof. reflexivity. Qed.

End DataUrlFacts.

(* ===================================================================== *)
(** * Facts about smoothStream *)
(* ===================================================================== *)

Module SmoothStreamFacts.
Import SmoothStream.

Lemma search_word (buffer : JSString) :
  matchWhitespace buffer = true -> wholeWord (sliceTo buffer (search buffer + 1)).
Proof.
  unfold sliceTo.
  induction buffer as [|c rest IH]; simpl; [discriminate|].
  destruct (isWhitespace c) eqn:Hc; simpl.
  - intros _. exists [], c. now repeat split.
  - intros Hrest. pose proof (search_found rest Hrest) as Hfound.
    destruct (IH Hrest) as (letters & space & Hword & Hletters & Hspace).
    replace (search rest <? 0)%Z with false by (symmetry; apply Z.ltb_ge; lia).
    replace (Z.to_nat (search rest + 1 + 1)) with (S (Z.to_nat (search rest + 1)))
      by lia.
    simpl. rewrite Hword.
    exists (c :: letters), space. repeat split; auto.
    simpl. now rewrite Hc, Hletters.
Qed.

(** The loop enqueues whole words only, loses no text, and leaves a buffer
    without whitespace. *)
Lemma streamWords_spec (enqueued : list StreamPart) (buffer : JSString) :
  exists words,
    fst (streamWords enqueued buffer) = enqueued ++ map TextDelta words /\
    Forall wholeWord words /\
    concat words ++ snd (streamWords enqueued buffer) = buffer /\
    matchWhitespace (snd (streamWords enqueued buffer)) = false.
Proof.
  funelim (streamWords enqueued buffer).
  - match goal with
    | IH : exists words, _ |- _ =>
        destruct IH as (words & Hfst & Hwords & Htext & Hrest)
    end.
    exists (sliceTo buffer (search buffer + 1) :: words).
    split; [rewrite Hfst, <- app_assoc; reflexivity|].
    split; [constructor; [now apply search_word|exact Hwords]|].
    split; [|exact Hrest].
    simpl. rewrite <- app_assoc, Htext.
    unfold sliceTo, sliceFrom. apply firstn_skipn.
  - exists []. simpl. rewrite app_nil_r. repeat split; auto.
Qed.

Lemma textOf_app (a b : list StreamPart) : textOf (a ++ b) = textOf a ++ textOf b.
Proof.
  induction a as [|[t|f|k f] a IH]; simpl; auto. now rewrite IH, app_assoc.
Qed.

Lemma textOf_words (words : list JSString) :
  textOf (map TextDelta words) = concat words.
Proof. induction words as [|w words IH]; simpl; [reflexivity|now rewrite IH]. Qed.

Lemma others_of_words (words : list JSString) :
  filter (fun part => negb (isTextDelta part)) (map TextDelta words) = [].
Proof. induction words as [|w words IH]; simpl; auto. Qed.

(** One call of [transform]: what it enqueues besides text is the chunk
    itself unless the chunk is text, and text is neither lost nor invented. *)
Lemma transform_spec (buffer : JSString) (chunk : StreamPart) :
  filter (fun part => negb (isTextDelta part)) (fst (transform buffer chunk)) =
    filter (fun part => negb (isTextDelta part)) [chunk] /\
  textOf (fst (transform buffer chunk)) ++ snd (transform buffer chunk) =
    buffer ++ textOf [chunk] /\
  (forall fields, chunk = StepFinish fields -> snd (transform buffer chunk) = []).
Proof.
  destruct chunk as [textDelta|fields|kind fields]; simpl.
  - destruct (streamWords_spec [] (buffer ++ textDelta))
      as (words & Hfst & _ & Htext & _).
    rewrite Hfst. simpl. rewrite others_of_words, textOf_words, app_nil_r.
    repeat split; auto. discriminate.
  - destruct buffer as [|c buffer]; simpl; repeat split; auto.
    now rewrite !app_nil_r.
  - rewrite app_nil_r. repeat split; auto. discriminate.
Qed.

Lemma pipeThrough_app (buffer : JSString) (first second : list StreamPart) :
  pipeThrough buffer (first ++ second) =
  (fst (pipeThrough buffer first) ++
   fst (pipeThrough (snd (pipeThrough buffer first)) second),
   snd (pipeThrough (snd (pipeThrough buffer first)) second)).
Proof.
  revert buffer. induction first as [|chunk first IH]; intros buffer; simpl.
  - now destruct (pipeThrough buffer second).
  - destruct (transform buffer chunk) as [enqueued buffer'].
    rewrite IH.
    destruct (pipeThrough buffer' first) as [enqueued' buffer''].
    simpl. now rewrite app_assoc.
Qed.

Lemma pipeThrough_spec (buffer : JSString) (chunks : list StreamPart) :
  filter (fun part => negb (isTextDelta part)) (fst (pipeThrough buffer chunks)) =
    filter (fun part => negb (isTextDelta part)) chunks /\
  textOf (fst (pipeThrough buffer chunks)) ++ snd (pipeThrough buffer chunks) =
    buffer ++ textOf chunks.
Proof.
  revert buffer. induction chunks as [|chunk rest IH]; intros buffer.
  - simpl. now rewrite app_nil_r.
  - cbn [pipeThrough].
    destruct (transform_spec buffer chunk) as (Hothers & Htext & _).
    destruct (transform buffer chunk) as [enqueued buffer'].
    destruct (IH buffer') as (Hothers' & Htext').
    destruct (pipeThrough buffer' rest) as [enqueued' buffer''].
    simpl in *. split.
    + rewrite filter_app, Hothers, Hothers'.
      now destruct (negb (isTextDelta chunk)).
    + rewrite textOf_app, <- app_assoc, Htext', app_assoc, Htext.
      rewrite <- app_assoc. f_equal.
      destruct chunk; simpl; auto. now rewrite app_nil_r.
Qed.

Lemma filter_others (parts : list StreamPart) :
  filter isOtherPart parts =
  filter isOtherPart (filter (fun part => negb (isTextDelta part)) parts).
Proof.
  induction parts as [|[t|f|k f] parts IH]; simpl; auto. now rewrite IH.
Qed.

Lemma streamWords_nothing (enqueued : list StreamPart) (buffer : JSString) :
  matchWhitespace buffer = false -> streamWords enqueued buffer = (enqueued, buffer).
Proof.
  intros Hnone. funelim (streamWords enqueued buffer).
  - congruence.
  - reflexivity.
Qed.

Lemma pipeThrough_held (buffer : JSString) (chunks : list StreamPart) :
  matchWhitespace buffer = false ->
  matchWhitespace (snd (pipeThrough buffer chunks)) = false.
Proof.
  revert buffer. induction chunks as [|chunk rest IH]; intros buffer Hbuffer.
  - exact Hbuffer.
  - cbn [pipeThrough].
    assert (matchWhitespace (snd (transform buffer chunk)) = false) as Hnext.
    { destruct chunk as [textDelta|fields|kind fields]; simpl; auto.
      now destruct (streamWords_spec [] (buffer ++ textDelta)) as (_ & _ & _ & _ & H). }
    destruct (transform buffer chunk) as [enqueued buffer'].
    specialize (IH buffer' Hnext).
    now destruct (pipeThrough buffer' rest).
Qed.

(** X17. At every moment the text that [smoothStream] has passed on,
    followed by the text it holds back, is the text it has received, and the
    text held back contains no whitespace: text is neither lost, invented nor
    reordered, and the output lags by less than one word. The stream has no
    flush of its own: a text chunk without whitespace adds nothing to the
    output, so when a stream ends without a step-finish the text after its
    last whitespace is never passed on. *)
Theorem smooth_stream_holds_back (chunks : list StreamPart) :
  let held := snd (pipeThrough [] chunks) in
  textOf (smoothStream chunks) ++ held = textOf chunks /\
  matchWhitespace held = false /\
  (forall text,
     matchWhitespace text = false ->
     smoothStream (chunks ++ [TextDelta text]) = smoothStream chunks).
Proof.
  cbv zeta. unfold smoothStream.
  pose proof (pipeThrough_held [] chunks eq_refl) as Hheld.
  destruct (pipeThrough_spec [] chunks) as [_ Htext]. simpl in Htext.
  split; [exact Htext|]. split; [exact Hheld|].
  intros text Hnone. rewrite pipeThrough_app. cbn [fst pipeThrough transform].
  rewrite streamWords_nothing.
  - simpl. apply app_nil_r.
  - unfold matchWhitespace in *. rewrite existsb_app, Hheld, Hnone. reflexivity.
Qed.

Example smooth_stream_last_word_held :
  smoothStream [TextDelta [72; 105; 32; 116]%N; TextDelta [104; 101; 114; 101]%N] =
  [TextDelta [72; 105; 32]%N].
Proof. reflexivity. Qed.

Lemma wholeWord_whitespace (word : JSString) :
  wholeWord word -> matchWhitespace word = true.
Proof.
  intros (letters & space & -> & _ & Hspace).
  unfold matchWhitespace. rewrite existsb_app. simpl.
  now rewrite Hspace, orb_true_r.
Qed.

Lemma first_whitespace_unique (l1 l2 : JSString) (c1 c2 : N) (r1 r2 : JSString) :
  forallb (fun c => negb (isWhitespace c)) l1 = true ->
  forallb (fun c => negb (isWhitespace c)) l2 = true ->
  isWhitespace c1 = true -> isWhitespace c2 = true ->
  l1 ++ c1 :: r1 = l2 ++ c2 :: r2 ->
  l1 = l2 /\ c1 = c2 /\ r1 = r2.
Proof.
  revert l2. induction l1 as [|x l1 IH]; intros [|y l2] H1 H2 Hc1 Hc2 E;
    simpl in *.
  - now injection E as -> ->.
  - injection E as -> _. rewrite Hc1 in H2. discriminate.
  - injection E as -> _. rewrite Hc2 in H1. discriminate.
  - injection E as -> E.
    apply andb_true_iff in H1. apply andb_true_iff in H2.
    destruct (IH l2 (proj2 H1) (proj2 H2) Hc1 Hc2 E) as (-> & -> & ->).
    auto.
Qed.

(** A text splits in one way only into whole words and a rest without
    whitespace. *)
Lemma words_unique (words1 words2 : list JSString) (rest1 rest2 : JSString) :
  Forall wholeWord words1 -> Forall wholeWord words2 ->
  matchWhitespace rest1 = false -> matchWhitespace rest2 = false ->
  concat words1 ++ rest1 = concat words2 ++ rest2 ->
  words1 = words2 /\ rest1 = rest2.
Proof.
  revert words2.
  induction words1 as [|w1 words1 IH]; intros [|w2 words2] H1 H2 Hr1 Hr2 E;
    simpl in *.
  - auto.
  - exfalso. pose proof (Forall_inv H2) as Hw.
    apply wholeWord_whitespace in Hw. unfold matchWhitespace in *.
    rewrite E, <- app_assoc, existsb_app, Hw in Hr1. discriminate.
  - exfalso. pose proof (Forall_inv H1) as Hw.
    apply wholeWord_whitespace in Hw. unfold matchWhitespace in *.
    rewrite <- E, <- app_assoc, existsb_app, Hw in Hr2. discriminate.
  - pose proof (Forall_inv H1) as Hw1. pose proof (Forall_inv_tail H1) as H1'.
    pose proof (Forall_inv H2) as Hw2. pose proof (Forall_inv_tail H2) as H2'.
    destruct Hw1 as (l1 & c1 & -> & Hl1 & Hc1).
    destruct Hw2 as (l2 & c2 & -> & Hl2 & Hc2).
    rewrite <- !app_assoc in E. simpl in E.
    destruct (@first_whitespace_unique _ _ _ _ _ _ Hl1 Hl2 Hc1 Hc2 E) as (-> & -> & E').
    destruct (IH words2 H1' H2' Hr1 Hr2 E') as [-> ->]. auto.
Qed.

Lemma pipeThrough_text (buffer : JSString) (chunks : list StreamPart) :
  forallb isTextDelta chunks = true ->
  matchWhitespace buffer = false ->
  exists words,
    fst (pipeThrough buffer chunks) = map TextDelta words /\
    Forall wholeWord words /\
    concat words ++ snd (pipeThrough buffer chunks) = buffer ++ textOf chunks /\
    matchWhitespace (snd (pipeThrough buffer chunks)) = false.
Proof.
  revert buffer.
  induction chunks as [|[textDelta|fields|kind fields] rest IH];
    intros buffer Htext Hbuffer; try discriminate.
  - exists []. simpl. rewrite app_nil_r. auto.
  - cbn [pipeThrough transform].
    destruct (streamWords_spec [] (buffer ++ textDelta))
      as (words & Hfst & Hwords & Hconcat & Hrest).
    destruct (streamWords [] (buffer ++ textDelta)) as [enqueued buffer'].
    simpl in Hfst, Hconcat, Hrest. subst enqueued.
    destruct (IH buffer' Htext Hrest) as (words' & Hfst' & Hwords' & Hconcat' & Hrest').
    destruct (pipeThrough buffer' rest) as [enqueued' buffer''].
    simpl in *. subst enqueued'.
    exists (words ++ words'). rewrite map_app, concat_app.
    split; [reflexivity|]. split; [now apply Forall_app|]. split; [|exact Hrest'].
    rewrite <- app_assoc, Hconcat', app_assoc, Hconcat, <- app_assoc. reflexivity.
Qed.

(** X18. For a stream of text only, what [smoothStream] passes on depends
    on the text alone and not on how it was cut into chunks: two sequences of
    text-delta chunks that carry the same text give the same output. *)
Theorem smooth_stream_rechunking (chunks chunks' : list StreamPart) :
  forallb isTextDelta chunks = true ->
  forallb isTextDelta chunks' = true ->
  textOf chunks = textOf chunks' ->
  smoothStream chunks = smoothStream chunks'.
Proof.
  intros Htext Htext' Hsame. unfold smoothStream.
  destruct (pipeThrough_text [] chunks Htext eq_refl)
    as (words & Hfst & Hwords & Hconcat & Hrest).
  destruct (pipeThrough_text [] chunks' Htext' eq_refl)
    as (words' & Hfst' & Hwords' & Hconcat' & Hrest').
  rewrite Hfst, Hfst'. f_equal.
  simpl in Hconcat, Hconcat'. rewrite Hsame, <- Hconcat' in Hconcat.
  now destruct (@words_unique _ _ _ _ Hwords Hwords' Hrest Hrest' Hconcat).
Qed.

Lemma smooth_stream_rechunking_witness :
  smoothStream [TextDelta [72; 105; 32; 116]%N; TextDelta [104; 32; 120]%N] =
  smoothStream [TextDelta [72]%N; TextDelta [105; 32; 116; 104; 32]%N;
                TextDelta [120]%N].
Proof.
  apply (@smooth_stream_rechunking
           [TextDelta [72; 105; 32; 116]%N; TextDelta [104; 32; 120]%N]
           [TextDelta [72]%N; TextDelta [105; 32; 116; 104; 32]%N;
            TextDelta [120]%N]);
    reflexivity.
Defined.

Lemma streamWords_word (word : JSString) :
  wholeWord word -> streamWords [] word = ([TextDelta word], []).
Proof.
  intros Hword.
  destruct (streamWords_spec [] word) as (words & Hfst & Hwords & Hconcat & Hrest).
  destruct (@words_unique words [word] (snd (streamWords [] word)) []
              Hwords (Forall_cons _ Hword (Forall_nil _)) Hrest eq_refl)
    as [-> Hnil].
  { rewrite Hconcat. simpl. now rewrite !app_nil_r. }
  destruct (streamWords [] word) as [enqueued buffer].
  simpl in *. now subst.
Qed.

Lemma pipeThrough_words (words : list JSString) :
  Forall wholeWord words ->
  pipeThrough [] (map TextDelta words) = (map TextDelta words, []).
Proof.
  induction words as [|word words IH]; intros Hwords; [reflexivity|].
  pose proof (Forall_inv Hwords) as Hword.
  cbn [map pipeThrough transform app].
  rewrite (@streamWords_word word Hword), (IH (Forall_inv_tail Hwords)).
  reflexivity.
Qed.

Lemma transform_settled (buffer : JSString) (chunk : StreamPart) :
  matchWhitespace buffer = false ->
  pipeThrough [] (fst (transform buffer chunk)) = (fst (transform buffer chunk), []).
Proof.
  intros Hbuffer. destruct chunk as [textDelta|fields|kind fields].
  - cbn [transform].
    destruct (streamWords_spec [] (buffer ++ textDelta)) as (words & -> & Hwords & _).
    now apply pipeThrough_words.
  - cbn [transform fst]. destruct buffer as [|c buffer]; [reflexivity|].
    cbn [length Nat.ltb Nat.leb app pipeThrough transform].
    rewrite streamWords_nothing by exact Hbuffer. reflexivity.
  - reflexivity.
Qed.

Lemma pipeThrough_settled (buffer : JSString) (chunks : list StreamPart) :
  matchWhitespace buffer = false ->
  pipeThrough [] (fst (pipeThrough buffer chunks)) = (fst (pipeThrough buffer chunks), []).
Proof.
  revert buffer. induction chunks as [|chunk rest IH]; intros buffer Hbuffer;
    [reflexivity|].
  cbn [pipeThrough].
  pose proof (@transform_settled buffer chunk Hbuffer) as Hfirst.
  assert (matchWhitespace (snd (transform buffer chunk)) = false) as Hnext.
  { destruct chunk as [textDelta|fields|kind fields]; simpl; auto.
    now destruct (streamWords_spec [] (buffer ++ textDelta)) as (_ & _ & _ & _ & H). }
  destruct (transform buffer chunk) as [enqueued buffer'].
  specialize (IH buffer' Hnext).
  destruct (pipeThrough buffer' rest) as [enqueued' buffer''].
  simpl in *. rewrite pipeThrough_app, Hfirst. simpl. now rewrite IH.
Qed.

(** X21. Smoothing a stream that was smoothed already changes nothing:
    what [smoothStream] passes on goes through a second [smoothStream]
    unchanged, and leaves nothing in its buffer. *)
Theorem smooth_stream_idempotent (chunks : list StreamPart) :
  smoothStream (smoothStream chunks) = smoothStream chunks /\
  snd (pipeThrough [] (smoothStream chunks)) = [].
Proof.
  unfold smoothStream.
  now rewrite (@pipeThrough_settled [] chunks eq_refl).
Qed.

Lemma paced_app (first second : list StreamPart) :
  paced first -> paced second -> paced (first ++ second).
Proof.
  induction first as [|[word|fields|kind fields] first IH]; simpl; auto.
  intros [Hword Hfirst] Hsecond. split; [|now apply IH].
  destruct Hword as [Hword|(Hne & Hnone & fields & more & ->)]; [now left|].
  right. split; [exact Hne|]. split; [exact Hnone|].
  now exists fields, (more ++ second).
Qed.

Lemma paced_words (words : list JSString) :
  Forall wholeWord words -> paced (map TextDelta words).
Proof.
  induction 1 as [|word words Hword _ IH]; simpl; auto.
Qed.

Lemma transform_paced (buffer : JSString) (chunk : StreamPart) :
  matchWhitespace buffer = false -> paced (fst (transform buffer chunk)).
Proof.
  intros Hbuffer. destruct chunk as [textDelta|fields|kind fields].
  - cbn [transform].
    destruct (streamWords_spec [] (buffer ++ textDelta)) as (words & -> & Hwords & _).
    now apply paced_words.
  - cbn [transform fst]. destruct buffer as [|c buffer]; simpl; [exact I|].
    split; [|exact I]. right. split; [discriminate|]. split; [exact Hbuffer|].
    now exists fields, [].
  - exact I.
Qed.

Lemma pipeThrough_paced (buffer : JSString) (chunks : list StreamPart) :
  matchWhitespace buffer = false -> paced (fst (pipeThrough buffer chunks)).
Proof.
  revert buffer. induction chunks as [|chunk rest IH]; intros buffer Hbuffer;
    [exact I|].
  cbn [pipeThrough].
  pose proof (@transform_paced buffer chunk Hbuffer) as Hfirst.
  assert (matchWhitespace (snd (transform buffer chunk)) = false) as Hnext.
  { destruct chunk as [textDelta|fields|kind fields]; simpl; auto.
    now destruct (streamWords_spec [] (buffer ++ textDelta)) as (_ & _ & _ & _ & H). }
  destruct (transform buffer chunk) as [enqueued buffer'].
  specialize (IH buffer' Hnext).
  destruct (pipeThrough buffer' rest) as [enqueued' buffer''].
  simpl in *. now apply paced_app.
Qed.

(** C10. For every sequence of chunks written to it, smoothStream forwards
    the chunks whose type is neither text-delta nor step-finish unchanged
    and in order (and the step-finish chunks with them); every text-delta
    in its output is one whole word ending in a whitespace character, except
    a flush of the buffer - text without whitespace - which is followed at
    once by the step-finish that caused it; the text it has passed on is the
    text it has received up to a rest without whitespace, which it holds
    back; and at each step-finish the text of the text-deltas emitted so far
    equals the text of the text-deltas received so far. *)
Theorem smooth_stream_pacing :
  (forall chunks,
     filter isOtherPart (smoothStream chunks) = filter isOtherPart chunks /\
     filter (fun part => negb (isTextDelta part)) (smoothStream chunks) =
       filter (fun part => negb (isTextDelta part)) chunks) /\
  (forall chunks, paced (smoothStream chunks)) /\
  (forall chunks,
     exists held,
       textOf (smoothStream chunks) ++ held = textOf chunks /\
       matchWhitespace held = false) /\
  (forall before fields after,
     exists later,
       smoothStream (before ++ StepFinish fields :: after) =
         smoothStream (before ++ [StepFinish fields]) ++ later /\
       textOf (smoothStream (before ++ [StepFinish fields])) =
         textOf (before ++ [StepFinish fields])).
Proof.
  split; [|split; [|split]].
  - intros chunks. unfold smoothStream.
    destruct (pipeThrough_spec [] chunks) as [Hothers _].
    split; [|exact Hothers].
    now rewrite filter_others, Hothers, <- filter_others.
  - intros chunks. unfold smoothStream. now apply pipeThrough_paced.
  - intros chunks. unfold smoothStream.
    exists (snd (pipeThrough [] chunks)).
    destruct (pipeThrough_spec [] chunks) as [_ Htext].
    split; [exact Htext|]. now apply pipeThrough_held.
  - intros before fields after. unfold smoothStream.
    replace (before ++ StepFinish fields :: after)
      with ((before ++ [StepFinish fields]) ++ after)
      by (now rewrite <- app_assoc).
    rewrite (pipeThrough_app [] (before ++ [StepFinish fields]) after).
    eexists. split; [reflexivity|].
    destruct (pipeThrough_spec [] (before ++ [StepFinish fields])) as [_ Htext].
    simpl app in Htext. rewrite <- Htext.
    rewrite pipeThrough_app. simpl snd.
    destruct (transform_spec (snd (pipeThrough [] before)) (StepFinish fields))
      as (_ & _ & Hflush).
    cbn [pipeThrough].
    destruct (transform (snd (pipeThrough [] before)) (StepFinish fields))
      as [enqueued buffer'] eqn:Htransform.
    simpl in Hflush. rewrite (Hflush fields eq_refl). simpl.
    symmetry. apply app_nil_r.
Qed.

End SmoothStreamFacts.

Example smooth_stream_words :
  SmoothStream.smoothStream
    [SmoothStream.TextDelta [72; 105; 32; 116]%N;
     SmoothStream.OtherPart SmoothStream.ToolCall JNull;
     SmoothStream.TextDelta [104; 101; 114; 101; 32; 120]%N;
     SmoothStream.StepFinish JNull] =
  [SmoothStream.TextDelta [72; 105; 32]%N;
   SmoothStream.OtherPart SmoothStream.ToolCall JNull;
   SmoothStream.TextDelta [116; 104; 101; 114; 101; 32]%N;
   SmoothStream.TextDelta [120]%N;
   SmoothStream.StepFinish JNull].
Proof. reflexivity. Qed.
